(** * lvmdbusd: path allocation, command-line helpers, move/merge wrapper
    and the main-thread runner

    A shallow embedding of [daemons/lvmdbusd/utils.py] and
    [daemons/lvmdbusd/background.py].  Python values are modelled as
    follows: [str] is [string] (ASCII text, which is what lvm prints),
    [int] is [Z] or [N] (unbounded, no wrap-around), [float] is an
    exact description of an IEEE binary64 value, [list] of [str] is
    [list string], exceptions are the constructors of [exn]. *)

From Stdlib Require Import ZArith Ascii String.
From stdpp Require Import base numbers list sorting strings pretty gmap.

Local Open Scope string_scope.
Local Open Scope list_scope.
Local Open Scope Z_scope.

(** ** Python exceptions and results *)

Inductive exn : Type :=
  | ValueError
  | OverflowError
  | IndexError
  | DBusException (args : list string).

Inductive result (A : Type) : Type :=
  | Ok (a : A)
  | Raise (e : exn).
Arguments Ok {A} a.
Arguments Raise {A} e.

(** ** Python [str] operations used by the daemon *)

(** [s.count(c)] for a one-character pattern. *)
Fixpoint str_count (c : ascii) (s : string) : nat :=
  match s with
  | EmptyString => 0%nat
  | String a s' => ((if Ascii.eqb a c then 1 else 0) + str_count c s')%nat
  end.

(** [s.split(c)] for a one-character separator: never the empty list. *)
Fixpoint str_split (c : ascii) (s : string) : list string :=
  match s with
  | EmptyString => [EmptyString]
  | String a s' =>
      if Ascii.eqb a c then EmptyString :: str_split c s'
      else match str_split c s' with
           | h :: t => String a h :: t
           | [] => [String a EmptyString]
           end
  end.

(** The characters [str.isspace] accepts below 128: TAB, LF, VT, FF, CR,
    FS, GS, RS, US and the blank. *)
Definition py_isspace (a : ascii) : bool :=
  let n := nat_of_ascii a in
  ((9 <=? n) && (n <=? 13) || (28 <=? n) && (n <=? 32))%nat.

Fixpoint str_lstrip (s : string) : string :=
  match s with
  | String a s' => if py_isspace a then str_lstrip s' else s
  | EmptyString => EmptyString
  end.

(** [rstrip] keeps a character when it is not white space or when
    something that is kept follows it. *)
Fixpoint str_rstrip (s : string) : string :=
  match s with
  | EmptyString => EmptyString
  | String a s' =>
      match str_rstrip s' with
      | EmptyString => if py_isspace a then EmptyString else String a EmptyString
      | t => String a t
      end
  end.

(** [s.strip()] *)
Definition str_strip (s : string) : string := str_rstrip (str_lstrip s).

(** [s[:-1]]: all but the last character; the empty string stays empty. *)
Fixpoint str_drop_last (s : string) : string :=
  match s with
  | EmptyString => EmptyString
  | String a EmptyString => EmptyString
  | String a s' => String a (str_drop_last s')
  end.

Fixpoint str_prefix (p s : string) : bool :=
  match p, s with
  | EmptyString, _ => true
  | String a p', String b s' => Ascii.eqb a b && str_prefix p' s'
  | String _ _, EmptyString => false
  end.

(** [p in s] for two strings: [p] occurs as a substring of [s]. *)
Fixpoint str_contains (p s : string) : bool :=
  str_prefix p s ||
  match s with
  | EmptyString => false
  | String _ s' => str_contains p s'
  end.

(** ** Python [float]

    A float is an IEEE binary64 value.  A finite one is kept as the pair
    [(m, e)] that stands for [m * 2^e]; the sign of a zero is not kept
    (no operation below tells [0.0] from [-0.0]). *)

Inductive pyfloat : Type :=
  | Finite (m e : Z)
  | Inf (negative : bool)
  | NaN.

(** Nearest integer to [p / q], ties to the even one ([0 <= p], [0 < q]). *)
Definition div_half_even (p q : Z) : Z :=
  let k := p / q in
  let r := p mod q in
  if 2 * r <? q then k
  else if q <? 2 * r then k + 1
  else if Z.even k then k else k + 1.

(** The fraction [a / (d * 2^u)] as numerator and denominator. *)
Definition scale2 (a d u : Z) : Z * Z :=
  if 0 <=? u then (a, d * 2 ^ u) else (a * 2 ^ (- u), d).

(** The binary64 value nearest to the rational [n / d] ([0 < d]),
    round-half-even, with gradual underflow below [2^-1022] and
    overflow to an infinity from [2^1024 - 2^970] on: what [strtod]
    computes from a decimal numeral. *)
Definition binary64 (n d : Z) : pyfloat :=
  if n =? 0 then Finite 0 0
  else
    let a := Z.abs n in
    let e0 := Z.log2 a - Z.log2 d in
    let '(x, y) := scale2 a d e0 in
    let e := if y <=? x then e0 else e0 - 1 in
    let u := Z.max (e - 52) (-1074) in
    let '(p, q) := scale2 a d u in
    let m := div_half_even p q in
    if (0 <=? u) && (2 ^ 1024 <=? m * 2 ^ u) then Inf (n <? 0)
    else Finite (Z.sgn n * m) u.

(** [round(x, 1)]: the float is rounded, half to even on its exact value,
    to one digit after the point, and that decimal is read back as a
    float; infinities and NaN round to themselves. *)
Definition py_round1 (x : pyfloat) : pyfloat :=
  match x with
  | Finite m e =>
      let '(p, q) := scale2 (10 * Z.abs m) 1 (- e) in
      binary64 (Z.sgn m * div_half_even p q) 10
  | _ => x
  end.

(** [int(x)] truncates toward zero; it raises [OverflowError] on an
    infinity and [ValueError] on NaN. *)
Definition py_int (x : pyfloat) : result Z :=
  match x with
  | Finite m e => Ok (if 0 <=? e then m * 2 ^ e else Z.quot m (2 ^ (- e)))
  | Inf _ => Raise OverflowError
  | NaN => Raise ValueError
  end.

(** *** [float(s)] on a string

    The grammar is the one of the language reference, over ASCII:
    optional sign, then [inf], [infinity] or [nan] in any letter case, or
    digits with an optional point and an optional exponent; one
    underscore may sit between two digits; white space around the
    numeral is dropped.  Anything else raises [ValueError]. *)

(** The C-locale [isspace] that [float] strips with: TAB to CR and the
    blank (FS to US are white space for [str.strip] only). *)
Definition c_isspace (a : ascii) : bool :=
  let n := nat_of_ascii a in
  ((9 <=? n) && (n <=? 13) || (n =? 32))%nat.

Fixpoint c_lstrip (s : string) : string :=
  match s with
  | String a s' => if c_isspace a then c_lstrip s' else s
  | EmptyString => EmptyString
  end.

Fixpoint c_rstrip (s : string) : string :=
  match s with
  | EmptyString => EmptyString
  | String a s' =>
      match c_rstrip s' with
      | EmptyString => if c_isspace a then EmptyString else String a EmptyString
      | t => String a t
      end
  end.

Definition is_digit (a : ascii) : bool :=
  let n := nat_of_ascii a in ((48 <=? n) && (n <=? 57))%nat.

Definition digit_value (a : ascii) : Z := Z.of_nat (nat_of_ascii a) - 48.

(** Underscores are dropped; each must stand between two digits.
    [prev] is the character before [s], if any. *)
Fixpoint drop_underscores (prev : option ascii) (s : string) : option string :=
  match s with
  | EmptyString =>
      match prev with
      | Some "_"%char => None
      | _ => Some EmptyString
      end
  | String a s' =>
      if Ascii.eqb a "_" then
        match prev with
        | Some p => if is_digit p then drop_underscores (Some a) s' else None
        | None => None
        end
      else
        match prev with
        | Some "_"%char =>
            if is_digit a then String a <$> drop_underscores (Some a) s' else None
        | _ => String a <$> drop_underscores (Some a) s'
        end
  end.

(** The longest run of digits at the head of [s], and what follows. *)
Fixpoint read_digits (s : string) : list Z * string :=
  match s with
  | String a s' =>
      if is_digit a then
        let '(ds, r) := read_digits s' in (digit_value a :: ds, r)
      else ([], s)
  | EmptyString => ([], EmptyString)
  end.

Definition digits_value (ds : list Z) : Z :=
  foldl (fun acc d => 10 * acc + d) 0 ds.

Definition read_sign (s : string) : bool * string :=
  match s with
  | String "-" s' => (true, s')
  | String "+" s' => (false, s')
  | _ => (false, s)
  end.

Definition to_lower (a : ascii) : ascii :=
  let n := nat_of_ascii a in
  if ((65 <=? n) && (n <=? 90))%nat then ascii_of_nat (n + 32) else a.

Fixpoint str_lower (s : string) : string :=
  match s with
  | EmptyString => EmptyString
  | String a s' => String (to_lower a) (str_lower s')
  end.

(** An unsigned decimal numeral: its digits as an integer and the power
    of ten that scales them. *)
Definition parse_number (s : string) : option (Z * Z) :=
  let '(ip, r1) := read_digits s in
  let '(fp, r2) :=
    match r1 with
    | String "." r => read_digits r
    | _ => ([], r1)
    end in
  match ip ++ fp with
  | [] => None
  | ds =>
      let mant := digits_value ds in
      let shift := Z.of_nat (length fp) in
      match r2 with
      | EmptyString => Some (mant, - shift)
      | String c r3 =>
          if Ascii.eqb (to_lower c) "e" then
            let '(neg, r4) := read_sign r3 in
            match read_digits r4 with
            | (d :: ed, EmptyString) =>
                let x := digits_value (d :: ed) in
                Some (mant, (if neg then - x else x) - shift)
            | _ => None
            end
          else None
      end
  end.

(** The float nearest to [mant * 10^ex]. *)
Definition decimal_to_float (mant ex : Z) : pyfloat :=
  if 0 <=? ex then binary64 (mant * 10 ^ ex) 1
  else binary64 mant (10 ^ (- ex)).

Definition py_float (s : string) : result pyfloat :=
  match drop_underscores None s with
  | None => Raise ValueError
  | Some t =>
      let '(neg, body) := read_sign (c_rstrip (c_lstrip t)) in
      let low := str_lower body in
      if String.eqb low "inf" || String.eqb low "infinity" then Ok (Inf neg)
      else if String.eqb low "nan" then Ok NaN
      else
        match parse_number body with
        | Some (mant, ex) =>
            Ok (decimal_to_float (if neg then - mant else mant) ex)
        | None => Raise ValueError
        end
  end.

(** ** Results as a monad *)

Global Instance result_ret : MRet result := fun _ a => Ok a.
Global Instance result_bind : MBind result := fun _ _ f r =>
  match r with
  | Ok a => f a
  | Raise e => Raise e
  end.

(** [s[0]] *)
Definition str_first (s : string) : result ascii :=
  match s with
  | String a _ => Ok a
  | EmptyString => Raise IndexError
  end.

(** * utils.py *)

(** ** Object paths *)

(** Modelled from the spec: the counters [cfg.pv_id], [cfg.vg_id], ... of
    cfg.py, which is not among the sources.  "One monotonically increasing
    integer per entity category", "atomic per-category increment": a
    counter is the next integer to hand out, and [next] returns it and
    steps the counter by one. *)
Record path_ids : Type := {
  pv_id : N;
  vg_id : N;
  lv_id : N;
  thin_id : N;
  vdo_id : N;
  cache_pool_id : N;
  hidden_lv : N;
  job_id : N
}.

(** The path prefixes [cfg.PV_OBJ_PATH], ... are constants of cfg.py; they
    are taken as given. *)
Record obj_paths : Type := {
  PV_OBJ_PATH : string;
  VG_OBJ_PATH : string;
  LV_OBJ_PATH : string;
  THIN_POOL_PATH : string;
  VDO_POOL_PATH : string;
  CACHE_POOL_PATH : string;
  HIDDEN_LV_PATH : string;
  JOB_OBJ_PATH : string
}.

(** A path generator reads the prefixes, steps one counter and returns the
    path. *)
Definition generator : Type := obj_paths -> path_ids -> string * path_ids.

(** [prefix + "/%d" % n] *)
Definition obj_path (prefix : string) (n : N) : string :=
  prefix +:+ "/" +:+ pretty n.

Definition pv_obj_path_generate : generator := fun cfg s =>
  (obj_path (PV_OBJ_PATH cfg) (pv_id s),
   {| pv_id := N.succ (pv_id s); vg_id := vg_id s; lv_id := lv_id s;
      thin_id := thin_id s; vdo_id := vdo_id s;
      cache_pool_id := cache_pool_id s; hidden_lv := hidden_lv s;
      job_id := job_id s |}).

Definition vg_obj_path_generate : generator := fun cfg s =>
  (obj_path (VG_OBJ_PATH cfg) (vg_id s),
   {| pv_id := pv_id s; vg_id := N.succ (vg_id s); lv_id := lv_id s;
      thin_id := thin_id s; vdo_id := vdo_id s;
      cache_pool_id := cache_pool_id s; hidden_lv := hidden_lv s;
      job_id := job_id s |}).

Definition _lv_obj_path_generate : generator := fun cfg s =>
  (obj_path (LV_OBJ_PATH cfg) (lv_id s),
   {| pv_id := pv_id s; vg_id := vg_id s; lv_id := N.succ (lv_id s);
      thin_id := thin_id s; vdo_id := vdo_id s;
      cache_pool_id := cache_pool_id s; hidden_lv := hidden_lv s;
      job_id := job_id s |}).

Definition _thin_pool_obj_path_generate : generator := fun cfg s =>
  (obj_path (THIN_POOL_PATH cfg) (thin_id s),
   {| pv_id := pv_id s; vg_id := vg_id s; lv_id := lv_id s;
      thin_id := N.succ (thin_id s); vdo_id := vdo_id s;
      cache_pool_id := cache_pool_id s; hidden_lv := hidden_lv s;
      job_id := job_id s |}).

Definition _vdo_pool_object_path_generate : generator := fun cfg s =>
  (obj_path (VDO_POOL_PATH cfg) (vdo_id s),
   {| pv_id := pv_id s; vg_id := vg_id s; lv_id := lv_id s;
      thin_id := thin_id s; vdo_id := N.succ (vdo_id s);
      cache_pool_id := cache_pool_id s; hidden_lv := hidden_lv s;
      job_id := job_id s |}).

Definition _cache_pool_obj_path_generate : generator := fun cfg s =>
  (obj_path (CACHE_POOL_PATH cfg) (cache_pool_id s),
   {| pv_id := pv_id s; vg_id := vg_id s; lv_id := lv_id s;
      thin_id := thin_id s; vdo_id := vdo_id s;
      cache_pool_id := N.succ (cache_pool_id s); hidden_lv := hidden_lv s;
      job_id := job_id s |}).

Definition _hidden_lv_obj_path_generate : generator := fun cfg s =>
  (obj_path (HIDDEN_LV_PATH cfg) (hidden_lv s),
   {| pv_id := pv_id s; vg_id := vg_id s; lv_id := lv_id s;
      thin_id := thin_id s; vdo_id := vdo_id s;
      cache_pool_id := cache_pool_id s; hidden_lv := N.succ (hidden_lv s);
      job_id := job_id s |}).

Definition job_obj_path_generate : generator := fun cfg s =>
  (obj_path (JOB_OBJ_PATH cfg) (job_id s),
   {| pv_id := pv_id s; vg_id := vg_id s; lv_id := lv_id s;
      thin_id := thin_id s; vdo_id := vdo_id s;
      cache_pool_id := cache_pool_id s; hidden_lv := hidden_lv s;
      job_id := N.succ (job_id s) |}).

(** ** Classification of a logical volume *)

(** [meta[1]], the layout of the volume, reaches the daemon as a string or
    as a list of strings; [x in v] is the substring test on the first and
    the membership test on the second. *)
Inductive layout : Type :=
  | LayoutStr (s : string)
  | LayoutList (l : list string).

Definition py_in (x : string) (v : layout) : bool :=
  match v with
  | LayoutStr s => str_contains x s
  | LayoutList l => bool_decide (x ∈ l)
  end.

(** [meta] is the tuple whose first component is the attribute string and
    whose second is the layout; nothing else of it is read.  An index into
    an empty string raises [IndexError]. *)
Definition lv_object_path_method (name : string) (meta : string * layout)
  : result generator :=
  n0 ← str_first name;
  if Ascii.eqb n0 "[" then Ok _hidden_lv_obj_path_generate
  else
    t ← str_first (fst meta);
    if Ascii.eqb t "t" then Ok _thin_pool_obj_path_generate
    else if Ascii.eqb t "d" then Ok _vdo_pool_object_path_generate
    else if Ascii.eqb t "C" && py_in "pool" (snd meta)
      then Ok _cache_pool_obj_path_generate
    else Ok _lv_obj_path_generate.

(** ** Command-line helpers *)

(** [pv_range_append] appends one argument to [cmd]; the list it is given
    is the list it changes, so the new list is returned. *)
Definition pv_range_append (cmd : list string) (device : string)
    (start end_ : Z) : list string :=
  if (start =? 0) && (end_ =? 0) then cmd ++ [device]
  else if negb (start =? 0) && (end_ =? 0) then
    cmd ++ [device +:+ ":" +:+ pretty start +:+ "-"]
  else
    cmd ++ [device +:+ ":" +:+ pretty start +:+ "-" +:+ pretty end_].

Definition pv_dest_ranges (cmd : list string)
    (pv_dest_range_list : list (string * Z * Z)) : list string :=
  foldl (fun c i => pv_range_append c i.1.1 i.1.2 i.2) cmd pv_dest_range_list.

(** The [for i, arg in enumerate(cmdline)] loop of [add_config_option],
    entered at index [i] with [rest] still to visit.  It stops at the
    first argument equal to [key]. *)
Fixpoint add_config_option_loop (cmdline : list string) (key value : string)
    (i : nat) (rest : list string) : result (list string) :=
  match rest with
  | [] => Ok cmdline
  | arg :: rest' =>
      if decide (arg = key) then
        if decide (length cmdline ≤ i + 1)%nat then
          Raise (DBusException ["Missing value for --config option."])
        else Ok (alter (fun v => v +:+ " " +:+ value) (i + 1)%nat cmdline)
      else add_config_option_loop cmdline key value (S i) rest'
  end.

(** The list is changed in place and returned; the result is that list. *)
Definition add_config_option (cmdline : list string) (key value : string)
  : result (list string) :=
  if decide ("help" ∈ cmdline) then Ok cmdline
  else if decide (key ∈ cmdline) then
    add_config_option_loop cmdline key value 0%nat cmdline
  else Ok (cmdline ++ [key; value]).

(** [got_external_event] is [cfg.got_external_event]. *)
Definition add_no_notify (got_external_event : bool) (cmdline : list string)
  : result (list string) :=
  let rv := cmdline in
  if got_external_event then
    add_config_option rv "--config" "global/notify_dbus=0"
  else Ok rv.

(** * background.py *)

(** ** The state the move/merge wrapper works on *)

(** A clock reading is a float; a fresh record carries the integer [0]
    as its end time. *)
Inductive pynum : Type :=
  | PyInt (z : Z)
  | PyFloat (x : pyfloat).

(** Modelled from the spec: [LvmExecutionMeta] of cmdhandler.py, which is
    not among the sources.  "ExecutionMeta: start time, end time, exit
    code, argument vector, captured stdout, captured stderr"; the last
    three are absent until the record is completed. *)
Record LvmExecutionMeta : Type := {
  meta_start : pynum;
  meta_ended : pynum;
  meta_cmd : list string;
  meta_ec : option Z;
  meta_stdout : option string;
  meta_stderr : option string
}.

(** [meta.completed(end_time, ec, stdout, stderr)] on the record itself. *)
Definition completed (meta : LvmExecutionMeta) (end_time : pynum) (ec : Z)
    (stdout_txt stderr_txt : string) : LvmExecutionMeta :=
  {| meta_start := meta_start meta;
     meta_ended := end_time;
     meta_cmd := meta_cmd meta;
     meta_ec := Some ec;
     meta_stdout := Some stdout_txt;
     meta_stderr := Some stderr_txt |}.

(** Modelled from the spec: the Flight Recorder of cmdhandler.py, "a
    bounded ring buffer (fixed capacity, oldest evicted first)".  It holds
    references to the records (indices into the object store), newest
    last, so that a record completed after it was added is seen completed
    through the recorder. *)
Record LvmFlightRecorder : Type := {
  queue : list nat;
  maxlen : nat
}.

Definition flightrecorder_append (fr : LvmFlightRecorder) (ref : nat)
  : LvmFlightRecorder :=
  let q := queue fr ++ [ref] in
  {| queue := drop (length q - maxlen fr) q; maxlen := maxlen fr |}.

(** The operations a queued request can name. *)
Inductive operation : Type :=
  | op_load_wrapper.

(** Modelled from the spec: [RequestEntry] of request.py, which is not
    among the sources.  "Request: id or sentinel, operation, ordered
    argument list, optional continuation, optional continuation args,
    is-job flag". *)
Record RequestEntry : Type := {
  req_id : Z;
  req_method : operation;
  req_arguments : list string;
  req_cb : option operation;
  req_cb_error : option operation;
  req_return_tuple : bool
}.

(** The property of [job_state] that the wrapper writes. *)
Record JobState : Type := {
  Percent : Z
}.

(** An object of the object manager, with the identifier lvm knows it by. *)
Record DbusObject : Type := {
  lvm_id : string
}.

(** What one run of the external tool does: the complete output lines it
    prints while it runs, its exit code and the two captured streams. *)
Record lvm_run : Type := {
  run_lines : list string;
  run_ec : Z;
  run_stdout : string;
  run_stderr : string
}.

(** The state shared by the wrapper, the callback and the helpers they
    call.  [job_state] is the one [JobState] object of the operation: the
    wrapper and the progress callback are handed the same object, so it is
    one cell here and not a parameter of either.  [om] is the object graph
    ([cfg.om]) by path and, for the merge, by uuid and name; [worker_q] is
    [cfg.worker_q]; [objects] is the store of [LvmExecutionMeta] objects;
    [loads] counts the completed [cfg.load()] calls; [log] is what
    [log_error] has printed; [spawned] lists the argument vectors handed
    to the command runner so far, as they were handed over; [lvm_tool] is
    the behaviour of the external tool and [wall], [clock] the readings of
    [time.time()]. *)
Record daemon : Type := {
  job_state : JobState;
  worker_q : list RequestEntry;
  om : gmap string DbusObject;
  om_by_id : gmap (string * string) DbusObject;
  objects : list LvmExecutionMeta;
  flightrecorder : LvmFlightRecorder;
  loads : nat;
  log : list string;
  spawned : list (list string);
  lvm_tool : list string -> lvm_run;
  wall : nat -> pyfloat;
  clock : nat
}.

Definition set_job_state (v : JobState) (w : daemon) : daemon :=
  {| job_state := v; worker_q := worker_q w; om := om w;
     om_by_id := om_by_id w; objects := objects w;
     flightrecorder := flightrecorder w; loads := loads w; log := log w;
     spawned := spawned w; lvm_tool := lvm_tool w; wall := wall w;
     clock := clock w |}.

Definition set_worker_q (v : list RequestEntry) (w : daemon) : daemon :=
  {| job_state := job_state w; worker_q := v; om := om w;
     om_by_id := om_by_id w; objects := objects w;
     flightrecorder := flightrecorder w; loads := loads w; log := log w;
     spawned := spawned w; lvm_tool := lvm_tool w; wall := wall w;
     clock := clock w |}.

Definition set_objects (v : list LvmExecutionMeta) (w : daemon) : daemon :=
  {| job_state := job_state w; worker_q := worker_q w; om := om w;
     om_by_id := om_by_id w; objects := v;
     flightrecorder := flightrecorder w; loads := loads w; log := log w;
     spawned := spawned w; lvm_tool := lvm_tool w; wall := wall w;
     clock := clock w |}.

Definition set_flightrecorder (v : LvmFlightRecorder) (w : daemon) : daemon :=
  {| job_state := job_state w; worker_q := worker_q w; om := om w;
     om_by_id := om_by_id w; objects := objects w;
     flightrecorder := v; loads := loads w; log := log w;
     spawned := spawned w; lvm_tool := lvm_tool w; wall := wall w;
     clock := clock w |}.

Definition set_loads (v : nat) (w : daemon) : daemon :=
  {| job_state := job_state w; worker_q := worker_q w; om := om w;
     om_by_id := om_by_id w; objects := objects w;
     flightrecorder := flightrecorder w; loads := v; log := log w;
     spawned := spawned w; lvm_tool := lvm_tool w; wall := wall w;
     clock := clock w |}.

Definition set_log (v : list string) (w : daemon) : daemon :=
  {| job_state := job_state w; worker_q := worker_q w; om := om w;
     om_by_id := om_by_id w; objects := objects w;
     flightrecorder := flightrecorder w; loads := loads w; log := v;
     spawned := spawned w; lvm_tool := lvm_tool w; wall := wall w;
     clock := clock w |}.

Definition set_spawned (v : list (list string)) (w : daemon) : daemon :=
  {| job_state := job_state w; worker_q := worker_q w; om := om w;
     om_by_id := om_by_id w; objects := objects w;
     flightrecorder := flightrecorder w; loads := loads w; log := log w;
     spawned := v; lvm_tool := lvm_tool w; wall := wall w;
     clock := clock w |}.

Definition set_clock (v : nat) (w : daemon) : daemon :=
  {| job_state := job_state w; worker_q := worker_q w; om := om w;
     om_by_id := om_by_id w; objects := objects w;
     flightrecorder := flightrecorder w; loads := loads w; log := log w;
     spawned := spawned w; lvm_tool := lvm_tool w; wall := wall w;
     clock := v |}.

(** ** Stateful code: state passing with exceptions

    A computation maps the state to a result and the state it leaves; an
    exception keeps the state reached when it was raised. *)

Definition M (A : Type) : Type := daemon -> result A * daemon.

Definition ret {A} (a : A) : M A := fun w => (Ok a, w).

Definition raise {A} (e : exn) : M A := fun w => (Raise e, w).

Definition bind {A B} (m : M A) (k : A -> M B) : M B := fun w =>
  match m w with
  | (Ok a, w') => k a w'
  | (Raise e, w') => (Raise e, w')
  end.

(** A pure step that may raise. *)
Definition lift {A} (r : result A) : M A := fun w => (r, w).

(** [try: m except ValueError: h] *)
Definition try_except_ValueError {A} (m : M A) (h : M A) : M A := fun w =>
  match m w with
  | (Raise ValueError, w') => h w'
  | r => r
  end.

Notation "'do' x <- m ; k" := (bind m (fun x => k))
  (at level 10, x name, m at level 100, k at level 200).
Notation "m ;; k" := (bind m (fun _ => k))
  (at level 100, k at level 200, right associativity).

(** ** Collaborators *)

(** [log_error(msg)] prints the message; the process and thread numbers
    that [_format_log_entry] puts before it are left out. *)
Definition log_error (msg : string) : M unit := fun w =>
  (Ok tt, set_log (log w ++ [msg]) w).

(** Modelled from the spec: [cfg.load()], the "full state reload", whose
    code is not among the sources; only that it ran is recorded. *)
Definition cfg_load : M unit := fun w =>
  (Ok tt, set_loads (S (loads w)) w).

(** [cfg.worker_q.put(r)] on an unbounded queue. *)
Definition worker_q_put (r : RequestEntry) : M unit := fun w =>
  (Ok tt, set_worker_q (worker_q w ++ [r]) w).

(** [time.time()] *)
Definition time_time : M pynum := fun w =>
  (Ok (PyFloat (wall w (clock w))), set_clock (S (clock w)) w).

(** [LvmExecutionMeta(start, ended, cmd)]: a new object in the store; the
    reference to it is returned. *)
Definition new_LvmExecutionMeta (start ended : pynum) (cmd : list string)
  : M nat := fun w =>
  (Ok (length (objects w)),
   set_objects (objects w ++
     [{| meta_start := start; meta_ended := ended; meta_cmd := cmd;
         meta_ec := None; meta_stdout := None; meta_stderr := None |}]) w).

(** [meta.completed(...)] through the reference. *)
Definition meta_completed (meta : nat) (end_time : pynum) (ec : Z)
    (stdout_txt stderr_txt : string) : M unit := fun w =>
  (Ok tt,
   set_objects
     (alter (fun m => completed m end_time ec stdout_txt stderr_txt)
        meta (objects w)) w).

(** [cfg.flightrecorder.add(meta)] *)
Definition flightrecorder_add (meta : nat) : M unit := fun w =>
  (Ok tt, set_flightrecorder (flightrecorder_append (flightrecorder w) meta) w).

(** [job_state.Percent = p] *)
Definition set_Percent (p : Z) : M unit := fun w =>
  (Ok tt, set_job_state {| Percent := p |} w).

(** Every line is handed to the callback, in order.  A fault that leaves
    the callback does not leave the runner: the state the callback reached
    is kept and the next line is delivered. *)
Fixpoint deliver (line_cb : string -> M unit) (lines : list string)
    (w : daemon) : daemon :=
  match lines with
  | [] => w
  | l :: ls => deliver line_cb ls (line_cb l w).2
  end.

(** Modelled from the spec: [call_lvm] of cmdhandler.py, which is not
    among the sources.  "Spawns the external tool ...; if a line callback
    is supplied, every complete combined-output line is delivered to it
    with cbData before exit ...  Always waits for process exit", and the
    result is "(exitCode, stdout, stderr)".  The wrapper below adds its own
    record to the Flight Recorder, so the runner adds none.  [spawned]
    records the vector as it is handed over, and [lvm_tool] is the
    behaviour of the tool for a vector handed over: what the runner makes
    of the vector before it starts the process, "a `--config` option is
    either merged ... or appended" once "a global notification-suppression
    condition has been observed", is no part of either. *)
Definition call_lvm (command : list string) (line_cb : string -> M unit)
  : M (Z * string * string) := fun w =>
  let r := lvm_tool w command in
  let w1 := set_spawned (spawned w ++ [command]) w in
  (Ok (run_ec r, run_stdout r, run_stderr r),
   deliver line_cb (run_lines r) w1).

(** Modelled from the spec: [cfg.om.get_object_by_path(path)] of the
    object manager, which is not among the sources: "resolve referenced
    entities against the current object graph"; [None] when the path does
    not resolve. *)
Definition get_object_by_path (path : string) : M (option DbusObject) :=
  fun w => (Ok (om w !! path), w).

(** ** The functions of background.py *)

Definition _load_wrapper (ignored : string) : M unit := cfg_load.

(** [(device, ignore, percentage) = l]: a list of another length raises
    [ValueError]. *)
Definition unpack3 (l : list string) : result (string * string * string) :=
  match l with
  | [a; b; c] => Ok (a, b, c)
  | _ => Raise ValueError
  end.

(** [RequestEntry(-1, _load_wrapper, ("_move_callback: load",), None,
    None, False)] *)
Definition load_request : RequestEntry :=
  {| req_id := -1; req_method := op_load_wrapper;
     req_arguments := ["_move_callback: load"];
     req_cb := None; req_cb_error := None; req_return_tuple := false |}.

Definition _move_callback (line_str : string) : M unit :=
  try_except_ValueError
    (if (str_count ":" line_str =? 2)%nat then
       do fields <- lift (unpack3 (str_split ":" line_str));
       let '(device, ignore, percentage) := fields in
       do x <- lift (py_float (str_drop_last (str_strip percentage)));
       do p <- lift (py_int (py_round1 x));
       set_Percent p;;
       let r := load_request in
       worker_q_put r
     else ret tt)
    (log_error ("Trying to parse percentage which failed for " +:+ line_str)).

Definition _move_merge (interface_name : string) (command : list string)
  : M string :=
  do t0 <- time_time;
  do meta <- new_LvmExecutionMeta t0 (PyInt 0) command;
  flightrecorder_add meta;;
  do rc <- call_lvm command _move_callback;
  let '(ec, stdout, stderr) := rc in
  do ended <- time_time;
  meta_completed meta ended ec stdout stderr;;
  (if ec =? 0 then set_Percent 100
   else raise (DBusException
          [interface_name;
           "Exit code " +:+ pretty ec +:+ ", stderr = " +:+ stderr]));;
  cfg_load;;
  ret "/".

Section Commands.

(** [options_to_cli_args] of cmdhandler.py turns the caller's option
    table into arguments; neither is among the sources. *)
Context {Options : Type} (options_to_cli_args : Options -> list string).

(** [cfg.om.get_object_by_uuid_lvm_id(uuid, name)] of the object manager
    is not among the sources either: the lookup is a parameter, with the
    object or [None] it returns and the state it leaves. *)
Context
  (get_object_by_uuid_lvm_id : string -> string -> M (option DbusObject)).

Definition pv_move_lv_cmd (move_options : Options)
    (lv_full_name : option string) (pv_source : string)
    (pv_source_range : Z * Z) (pv_dest_range_list : list (string * Z * Z))
  : list string :=
  let cmd := ["pvmove"; "-i"; "1"] in
  let cmd := cmd ++ options_to_cli_args move_options in
  let cmd :=
    match lv_full_name with
    | Some (String a n) => cmd ++ ["-n"; String a n]
    | _ => cmd
    end in
  let cmd := pv_range_append cmd pv_source pv_source_range.1 pv_source_range.2 in
  pv_dest_ranges cmd pv_dest_range_list.


(** The loop of [move] over the destinations: each path is resolved and
    the first one that does not resolve raises. *)
Fixpoint resolve_dests (interface_name : string)
    (pv_dests_and_ranges : list (string * Z * Z))
    (pv_dests : list (string * Z * Z)) : M (list (string * Z * Z)) :=
  match pv_dests_and_ranges with
  | [] => ret pv_dests
  | pr :: rest =>
      do pv_dbus_obj <- get_object_by_path pr.1.1;
      match pv_dbus_obj with
      | None =>
          raise (DBusException
            [interface_name;
             "PV Destination (" +:+ pr.1.1 +:+ ") not found"])
      | Some o =>
          resolve_dests interface_name rest
            (pv_dests ++ [(lvm_id o, pr.1.2, pr.2)])
      end
  end.

Definition move (interface_name : string) (lv_name : option string)
    (pv_src_obj : string) (pv_source_range : Z * Z)
    (pv_dests_and_ranges : list (string * Z * Z))
    (move_options : Options) : M string :=
  let pv_dests := [] in
  do pv_src <- get_object_by_path pv_src_obj;
  match pv_src with
  | Some src =>
      do pv_dests <- resolve_dests interface_name pv_dests_and_ranges pv_dests;
      let cmd := pv_move_lv_cmd move_options lv_name (lvm_id src)
                   pv_source_range pv_dests in
      _move_merge interface_name cmd
  | None =>
      raise (DBusException
        [interface_name; "pv_src_obj (" +:+ pv_src_obj +:+ ") not found"])
  end.


End Commands.

(** * utils.py: [MThreadRunner]

    Two threads take part in [MThreadRunner(function, *args).done()]: the
    thread that calls [done] and the thread of the GLib main loop, which
    runs the callbacks queued with [GLib.idle_add].  Each line of [done],
    [runner] and [_run] is one atomic step; a scheduler picks the thread
    that moves next.  [threading.Condition] is the one of CPython: [wait]
    releases the lock and sleeps until a [notify_all], then takes the lock
    again. *)

Inductive thread : Type :=
  | Caller
  | MainLoop.

(** Where the calling thread stands in [done]. *)
Inductive done_pc (V : Type) : Type :=
  | done_idle_add                (* GLib.idle_add(MThreadRunner.runner, self) *)
  | done_enter                   (* with self.cond:  -- take the lock *)
  | done_test                    (* if not self.function_complete: *)
  | done_waiting                 (* self.cond.wait()  -- asleep, lock released *)
  | done_woken                   (* self.cond.wait()  -- notified, take the lock *)
  | done_exit                    (* end of the with block  -- release the lock *)
  | done_check                   (* if self.exception: raise ...; return self.rc *)
  | done_finished (r : result V).
Arguments done_idle_add {V}.
Arguments done_enter {V}.
Arguments done_test {V}.
Arguments done_waiting {V}.
Arguments done_woken {V}.
Arguments done_exit {V}.
Arguments done_check {V}.
Arguments done_finished {V} r.

(** Where the main loop stands: between callbacks, or in [runner]. *)
Inductive main_pc : Type :=
  | main_idle                    (* the loop picks the next idle callback *)
  | runner_run                   (* obj._run() *)
  | runner_enter                 (* with obj.cond:  -- take the lock *)
  | runner_set                   (* obj.function_complete = True *)
  | runner_notify                (* obj.cond.notify_all() *)
  | runner_exit.                 (* end of the with block; runner returns None *)

(** The runner object, the lock of its condition, the idle callbacks not
    yet dispatched, the threads on which [self.f] has been called so far,
    and the two program points. *)
Record runner_state (V : Type) : Type := {
  rc : V;
  exception : option exn;
  function_complete : bool;
  cond_lock : option thread;
  idle_sources : nat;
  calls : list thread;
  caller : done_pc V;
  main : main_pc
}.
Arguments rc {V} _.
Arguments exception {V} _.
Arguments function_complete {V} _.
Arguments cond_lock {V} _.
Arguments idle_sources {V} _.
Arguments calls {V} _.
Arguments caller {V} _.
Arguments main {V} _.
Arguments Build_runner_state {V} _ _ _ _ _ _ _ _.

Section MThreadRunner.

(** [py_None] is the value [None]; [function] applied to the argument
    tuple returns a value or raises. *)
Context {A V : Type} (py_None : V).
Context (function : list A -> result V) (args : list A).

(** [__init__], before [done] is called. *)
Definition MThreadRunner_init : runner_state V :=
  {| rc := py_None; exception := None; function_complete := false;
     cond_lock := None; idle_sources := 0; calls := [];
     caller := done_idle_add; main := main_idle |}.

(** The call of [self.f]: with the arguments unpacked when there are
    some, without arguments when there are none. *)
Definition call_function : result V :=
  match args with
  | _ :: _ => function args
  | [] => function []
  end.

(** [_run], on thread [t]: the result is stored in [rc], any exception
    in [exception]. *)
Definition _run (t : thread) (s : runner_state V) : runner_state V :=
  match call_function with
  | Ok v =>
      Build_runner_state v (exception s) (function_complete s)
        (cond_lock s) (idle_sources s) (calls s ++ [t]) (caller s) (main s)
  | Raise be =>
      Build_runner_state (rc s) (Some be) (function_complete s)
        (cond_lock s) (idle_sources s) (calls s ++ [t]) (caller s) (main s)
  end.

Definition at_caller (pc : done_pc V) (s : runner_state V) : runner_state V :=
  Build_runner_state (rc s) (exception s) (function_complete s)
    (cond_lock s) (idle_sources s) (calls s) pc (main s).

Definition at_main (pc : main_pc) (s : runner_state V) : runner_state V :=
  Build_runner_state (rc s) (exception s) (function_complete s)
    (cond_lock s) (idle_sources s) (calls s) (caller s) pc.

Definition with_lock (o : option thread) (s : runner_state V) : runner_state V :=
  Build_runner_state (rc s) (exception s) (function_complete s)
    o (idle_sources s) (calls s) (caller s) (main s).

Definition with_idle (n : nat) (s : runner_state V) : runner_state V :=
  Build_runner_state (rc s) (exception s) (function_complete s)
    (cond_lock s) n (calls s) (caller s) (main s).

Definition with_complete (b : bool) (s : runner_state V) : runner_state V :=
  Build_runner_state (rc s) (exception s) b
    (cond_lock s) (idle_sources s) (calls s) (caller s) (main s).

(** One step of [done] on the calling thread; [None] when the thread
    cannot move (the lock is taken, it sleeps, or it has finished). *)
Definition done_step (s : runner_state V) : option (runner_state V) :=
  match caller s with
  | done_idle_add =>
      Some (at_caller done_enter (with_idle (S (idle_sources s)) s))
  | done_enter =>
      match cond_lock s with
      | None => Some (at_caller done_test (with_lock (Some Caller) s))
      | Some _ => None
      end
  | done_test =>
      if function_complete s then Some (at_caller done_exit s)
      else Some (at_caller done_waiting (with_lock None s))
  | done_waiting => None
  | done_woken =>
      match cond_lock s with
      | None => Some (at_caller done_exit (with_lock (Some Caller) s))
      | Some _ => None
      end
  | done_exit => Some (at_caller done_check (with_lock None s))
  | done_check =>
      match exception s with
      | Some e => Some (at_caller (done_finished (Raise e)) s)
      | None => Some (at_caller (done_finished (Ok (rc s))) s)
      end
  | done_finished _ => None
  end.

(** One step of the main loop: it dispatches [runner] when one is
    queued, and then runs it line by line. *)
Definition main_step (s : runner_state V) : option (runner_state V) :=
  match main s with
  | main_idle =>
      match idle_sources s with
      | O => None
      | S n => Some (at_main runner_run (with_idle n s))
      end
  | runner_run => Some (at_main runner_enter (_run MainLoop s))
  | runner_enter =>
      match cond_lock s with
      | None => Some (at_main runner_set (with_lock (Some MainLoop) s))
      | Some _ => None
      end
  | runner_set => Some (at_main runner_notify (with_complete true s))
  | runner_notify =>
      Some (at_main runner_exit
              match caller s with
              | done_waiting => at_caller done_woken s
              | _ => s
              end)
  | runner_exit => Some (at_main main_idle (with_lock None s))
  end.

Definition step (t : thread) (s : runner_state V) : option (runner_state V) :=
  match t with
  | Caller => done_step s
  | MainLoop => main_step s
  end.

(** The run under a schedule; a thread that cannot move when it is
    picked leaves the state as it is. *)
Fixpoint exec (sched : list thread) (s : runner_state V) : runner_state V :=
  match sched with
  | [] => s
  | t :: ts => exec ts (default s (step t s))
  end.

(** The lock is free, or held by thread [t]. *)
Definition lock_is (o : option thread) (s : runner_state V) : bool :=
  match cond_lock s, o with
  | None, None => true
  | Some Caller, Some Caller => true
  | Some MainLoop, Some MainLoop => true
  | _, _ => false
  end.

(** The calling thread has not got past [wait]: it is about to take the
    lock, holds it before the test, or sleeps. *)
Definition caller_before_wake (s : runner_state V) : bool :=
  match caller s with
  | done_enter | done_waiting => lock_is None s
  | done_test => lock_is (Some Caller) s
  | _ => false
  end.

(** The combinations of program points, lock, flag, queue and call
    history that a run can reach. *)
Definition shape_ok (s : runner_state V) : bool :=
  match main s, calls s with
  | main_idle, [] =>
      negb (function_complete s) &&
      match caller s with
      | done_idle_add => Nat.eqb (idle_sources s) 0 && lock_is None s
      | _ => Nat.eqb (idle_sources s) 1 && caller_before_wake s
      end
  | runner_run, [] =>
      negb (function_complete s) && Nat.eqb (idle_sources s) 0 &&
      caller_before_wake s
  | runner_enter, [MainLoop] =>
      negb (function_complete s) && Nat.eqb (idle_sources s) 0 &&
      caller_before_wake s
  | runner_set, [MainLoop] =>
      negb (function_complete s) && Nat.eqb (idle_sources s) 0 &&
      lock_is (Some MainLoop) s &&
      match caller s with
      | done_enter | done_waiting => true
      | _ => false
      end
  | runner_notify, [MainLoop] =>
      function_complete s && Nat.eqb (idle_sources s) 0 &&
      lock_is (Some MainLoop) s &&
      match caller s with
      | done_enter | done_waiting => true
      | _ => false
      end
  | runner_exit, [MainLoop] =>
      function_complete s && Nat.eqb (idle_sources s) 0 &&
      lock_is (Some MainLoop) s &&
      match caller s with
      | done_enter | done_woken => true
      | _ => false
      end
  | main_idle, [MainLoop] =>
      function_complete s && Nat.eqb (idle_sources s) 0 &&
      match caller s with
      | done_enter | done_woken | done_check | done_finished _ =>
          lock_is None s
      | done_test | done_exit => lock_is (Some Caller) s
      | _ => false
      end
  | _, _ => false
  end.

(** What the object holds: nothing before the call, the outcome of the
    call after it; and a finished [done] has produced that outcome. *)
Definition runner_inv (s : runner_state V) : Prop :=
  shape_ok s = true ∧
  match calls s with
  | [] => rc s = py_None ∧ exception s = None
  | _ =>
      match function args with
      | Ok v => rc s = v ∧ exception s = None
      | Raise e => rc s = py_None ∧ exception s = Some e
      end
  end ∧
  ∀ r, caller s = done_finished r → r = function args.

End MThreadRunner.

(** A schedule after which [done] has finished, from any reachable state:
    the caller moves as far as it can, the main loop runs [runner] to its
    end, and the caller moves again. *)
Definition drain : list thread :=
  replicate 7 Caller ++ replicate 6 MainLoop ++ replicate 7 Caller.

(** * Vocabulary of the properties *)

(** ** Path Allocator: the eight categories and runs of allocations *)

Inductive category : Type :=
  | PV | VG | LV | ThinPool | VdoPool | CachePool | HiddenLV | Job.

Global Instance category_eq_dec : EqDecision category.
Proof. solve_decision. Defined.

Definition generator_of (c : category) : generator :=
  match c with
  | PV => pv_obj_path_generate
  | VG => vg_obj_path_generate
  | LV => _lv_obj_path_generate
  | ThinPool => _thin_pool_obj_path_generate
  | VdoPool => _vdo_pool_object_path_generate
  | CachePool => _cache_pool_obj_path_generate
  | HiddenLV => _hidden_lv_obj_path_generate
  | Job => job_obj_path_generate
  end.

Definition prefix_of (cfg : obj_paths) (c : category) : string :=
  match c with
  | PV => PV_OBJ_PATH cfg
  | VG => VG_OBJ_PATH cfg
  | LV => LV_OBJ_PATH cfg
  | ThinPool => THIN_POOL_PATH cfg
  | VdoPool => VDO_POOL_PATH cfg
  | CachePool => CACHE_POOL_PATH cfg
  | HiddenLV => HIDDEN_LV_PATH cfg
  | Job => JOB_OBJ_PATH cfg
  end.

Definition counter_of (s : path_ids) (c : category) : N :=
  match c with
  | PV => pv_id s
  | VG => vg_id s
  | LV => lv_id s
  | ThinPool => thin_id s
  | VdoPool => vdo_id s
  | CachePool => cache_pool_id s
  | HiddenLV => hidden_lv s
  | Job => job_id s
  end.

(** The generators of the categories [cs] called one after the other: the
    paths they return, in order, and the counters they leave. *)
Fixpoint allocate_all (cfg : obj_paths) (cs : list category) (s : path_ids)
  : list string * path_ids :=
  match cs with
  | [] => ([], s)
  | c :: cs' =>
      let '(p, s1) := generator_of c cfg s in
      let '(ps, s2) := allocate_all cfg cs' s1 in
      (p :: ps, s2)
  end.

(** How many of the calls [cs] are for category [c]. *)
Definition calls_for (c : category) (cs : list category) : N :=
  N.of_nat (length (filter (fun x => x = c) cs)).

(** ** Classification *)


(** ** Progress of a move or merge *)

(** A line of the shape [<device>:<ignored>:<percentage>%]. *)
Definition has_progress_shape (line : string) : Prop :=
  ∃ device ignored percentage : string,
    line = device +:+ ":" +:+ ignored +:+ ":" +:+ percentage +:+ "%".

(** The integer a line with two colons stands for: the text after the
    second colon, stripped and without its last character, read as a
    float, rounded to one decimal and truncated. *)
Definition reported_percent (line_str : string) : result Z :=
  fields ← unpack3 (str_split ":" line_str);
  x ← py_float (str_drop_last (str_strip fields.2));
  py_int (py_round1 x).

(** The line, when it has exactly two colons and stands for an integer. *)
Definition recognised (line_str : string) : option Z :=
  if (str_count ":" line_str =? 2)%nat then
    match reported_percent line_str with
    | Ok p => Some p
    | Raise _ => None
    end
  else None.

(** The integers the recognised lines among [lines] stand for, in order. *)
Definition reports (lines : list string) : list Z := omap recognised lines.

(** [Percent] once the first [k] of [lines] have been delivered to the
    callback, from the state [w]. *)
Definition percent_during (w : daemon) (lines : list string) (k : nat) : Z :=
  Percent (job_state (deliver _move_callback (take k lines) w)).

(** C1 as it is stated, for one run of [_move_merge] from [w]: while the
    command runs and when the wrapper has finished, [Percent] never
    decreases and stays within 0..100, and it ends at 100 exactly when the
    exit code is 0. *)
Definition percent_claim (interface_name : string) (command : list string)
    (w : daemon) : Prop :=
  let r := lvm_tool w command in
  let final := Percent (job_state (_move_merge interface_name command w).2) in
  (∀ i j : nat, (i ≤ j)%nat →
     percent_during w (run_lines r) i ≤ percent_during w (run_lines r) j) ∧
  (∀ i : nat, 0 ≤ percent_during w (run_lines r) i ≤ 100) ∧
  (∀ i : nat, percent_during w (run_lines r) i ≤ final) ∧
  0 ≤ final ≤ 100 ∧
  (final = 100 ↔ run_ec r = 0).

(** A daemon at rest: nothing queued, logged, recorded or spawned; the
    object graph knows one physical volume; the external tool behaves as
    [tool] says. *)
Definition idle_daemon (tool : list string -> lvm_run) : daemon :=
  {| job_state := {| Percent := 0 |};
     worker_q := [];
     om := {[ "/com/redhat/lvmdbus1/Pv/0" := {| lvm_id := "/dev/sda" |} ]};
     om_by_id := ∅;
     objects := [];
     flightrecorder := {| queue := []; maxlen := 16 |};
     loads := 0;
     log := [];
     spawned := [];
     lvm_tool := tool;
     wall := fun n => Finite (Z.of_nat n) 0;
     clock := 0 |}.


(** The part of the state the callback leaves alone. *)
Definition same_frame (w w' : daemon) : Prop :=
  om w' = om w ∧ om_by_id w' = om_by_id w ∧ objects w' = objects w ∧
  flightrecorder w' = flightrecorder w ∧ loads w' = loads w ∧
  spawned w' = spawned w ∧ lvm_tool w' = lvm_tool w ∧ wall w' = wall w ∧
  clock w' = clock w.

(** The state in which [_move_merge] hands the command to the runner: the
    clock has been read, the record created and added to the recorder. *)
Definition before_run (command : list string) (w : daemon) : daemon :=
  set_flightrecorder
    (flightrecorder_append (flightrecorder w) (length (objects w)))
    (set_objects
       (objects w ++
          [{| meta_start := PyFloat (wall w (clock w)); meta_ended := PyInt 0;
              meta_cmd := command; meta_ec := None; meta_stdout := None;
              meta_stderr := None |}])
       (set_clock (S (clock w)) w)).

(** The state in which the runner has returned and the record has been
    completed, before the exit code is looked at. *)
Definition after_run (command : list string) (w : daemon) : daemon :=
  let r := lvm_tool w command in
  let w1 := before_run command w in
  let w2 := deliver _move_callback (run_lines r)
              (set_spawned (spawned w1 ++ [command]) w1) in
  set_objects
    (alter (fun m => completed m (PyFloat (wall w2 (clock w2)))
                       (run_ec r) (run_stdout r) (run_stderr r))
       (length (objects w)) (objects w2))
    (set_clock (S (clock w2)) w2).

(** * utils.py: sizes, tags, names of columns and attributes *)

(** [sep.join(l)] *)
Fixpoint str_join (sep : string) (l : list string) : string :=
  match l with
  | [] => EmptyString
  | [x] => x
  | x :: l' => x +:+ sep +:+ str_join sep l'
  end.

(** [s.endswith(p)] *)
Fixpoint str_suffix (p s : string) : bool :=
  String.eqb p s ||
  match s with
  | EmptyString => false
  | String _ s' => str_suffix p s'
  end.

Definition is_upper (a : ascii) : bool :=
  let n := nat_of_ascii a in ((65 <=? n) && (n <=? 90))%nat.

Definition is_lower (a : ascii) : bool :=
  let n := nat_of_ascii a in ((97 <=? n) && (n <=? 122))%nat.

Definition to_upper (a : ascii) : ascii :=
  if is_lower a then ascii_of_nat (nat_of_ascii a - 32) else a.

(** [s.isascii()] *)
Fixpoint str_isascii (s : string) : bool :=
  match s with
  | EmptyString => true
  | String a s' => (nat_of_ascii a <? 128)%nat && str_isascii s'
  end.

(** [s.title()] on ASCII text: a letter that follows a letter is put in
    lower case, any other letter in upper case; [prev_cased] tells whether
    the character before [s] is a letter.  Only the letters [A] to [Z] and
    [a] to [z] are letters here: for text with other letters [title] also
    changes those, and can change the length, which this definition does
    not follow. *)
Fixpoint str_title_from (prev_cased : bool) (s : string) : string :=
  match s with
  | EmptyString => EmptyString
  | String a s' =>
      String (if prev_cased then to_lower a else to_upper a)
        (str_title_from (is_upper a || is_lower a) s')
  end.

Definition str_title (s : string) : string := str_title_from false s.

(** [_snake_to_pascal], with [title] as above: for ASCII text. *)
Definition _snake_to_pascal (s : string) : string :=
  str_join "" (map str_title (str_split "_" s)).

Definition round_size (size_bytes : Z) : Z :=
  let bs := 512 in
  let remainder := size_bytes mod bs in
  if remainder =? 0 then size_bytes
  else size_bytes + bs - remainder.

(** The tags come as one string; the result is a list of strings (a
    plain list in the first case, a [dbus.Array] of strings in the two
    others).  [sorted] of a one-element list is that list. *)
Definition parse_tags (tags : string) : list string :=
  if (0 <? String.length tags)%nat then
    if str_contains "," tags then str_split "," tags
    else [tags]
  else [].

Definition lvm_column_key (key : string) : bool :=
  if str_prefix "lv_" key || str_prefix "vg_" key || str_prefix "pool_" key ||
     str_suffix "_percent" key || str_prefix "move_" key ||
     str_prefix "vdo_" key ||
     bool_decide (key ∈ ["origin_uuid"; "segtype"; "origin"; "data_lv";
                         "metadata_lv"])
  then true
  else if str_prefix "vg_" key || str_prefix "lv_" key ||
          str_prefix "pv_" key ||
          bool_decide (key ∈ ["max_lv"; "max_pv"; "snap_count"])
  then true
  else if str_prefix "pv" key || str_prefix "vg" key ||
          bool_decide (key ∈ ["dev_size"; "pe_start"])
  then true
  else false.

(** [_handle_execute]: [out] is not read. *)
Definition _handle_execute (rc : Z) (out err interface : string) : M unit :=
  if rc =? 0 then cfg_load
  else raise (DBusException
         [interface; "Exit code " +:+ pretty rc +:+ ", stderr = " +:+ err]).

(** * utils.py: validation of names, tags and device paths *)

(** The exceptions of this part of the code, with the arguments their
    handlers read. *)
Inductive exc : Type :=
  | ExcValueError (msg : string)
  | ExcIndexError
  | ExcKeyError (key : string)
  | ExcAttributeError
  | ExcTypeError
  | ExcOSError
  | ExcUnicodeDecodeError
  | ExcDBusException (args : list string).

Inductive outcome (A : Type) : Type :=
  | Returns (a : A)
  | Raises (e : exc).
Arguments Returns {A} a.
Arguments Raises {A} e.

(** [c in s] for a character [c]. *)
Fixpoint char_in (c : ascii) (s : string) : bool :=
  match s with
  | EmptyString => false
  | String a s' => Ascii.eqb a c || char_in c s'
  end.

(** [set(s) <= set(allowed)]: every character of [s] occurs in
    [allowed]. *)
Fixpoint chars_within (s allowed : string) : bool :=
  match s with
  | EmptyString => true
  | String a s' => char_in a allowed && chars_within s' allowed
  end.

(** [string.ascii_letters] and [string.digits] *)
Definition ascii_letters : string :=
  "abcdefghijklmnopqrstuvwxyzABCDEFGHIJKLMNOPQRSTUVWXYZ".

Definition digits : string := "0123456789".

Definition _ALLOWABLE_CH : string := ascii_letters +:+ digits +:+ "#+-.:=@_\/%".

Definition _ALLOWABLE_VG_LV_CH : string := ascii_letters +:+ digits +:+ ".-_+".

Definition _LV_NAME_RESERVED : list string :=
  ["_cdata"; "_cmeta"; "_corig"; "_mimage"; "_mlog"; "_pmspare"; "_rimage";
   "_rmeta"; "_tdata"; "_tmeta"; "_vorigin"; "_vdata"].

Definition _ALLOWABLE_TAG_CH : string := ascii_letters +:+ digits +:+ "._-+/=!:&#".

(** [str] of a tuple and of a list of plain words: the words in single
    quotes, separated by a comma and a blank. *)
Definition py_quote (s : string) : string := "'" +:+ s +:+ "'".

Definition py_str_tuple (l : list string) : string :=
  "(" +:+ str_join ", " (map py_quote l) +:+ ")".

Definition py_str_list (l : list string) : string :=
  "[" +:+ str_join ", " (map py_quote l) +:+ "]".

(** The double quote, for the messages that hold one. *)
Definition dquote : string := String (ascii_of_nat 34) EmptyString.

(** An argument that is a string or [None]: [len(s)] and [set(s)] raise
    [TypeError] on [None], and the conversion [%s] writes [None] for it. *)
Definition py_len (s : option string) : outcome nat :=
  match s with
  | Some s => Returns (String.length s)
  | None => Raises ExcTypeError
  end.

Definition py_str (s : option string) : string :=
  match s with
  | Some s => s
  | None => "None"
  end.

(** [set(s) <= allowed] *)
Definition py_chars_within (s : option string) (allowed : string)
  : outcome bool :=
  match s with
  | Some s => Returns (chars_within s allowed)
  | None => Raises ExcTypeError
  end.

Definition _allowable_tag (tag_name : option string) : outcome bool :=
  py_chars_within tag_name _ALLOWABLE_TAG_CH.

(** [vg_name] is [None] or a string. *)
Definition _allowable_vg_name (vg_name : option string) : outcome unit :=
  match vg_name with
  | None => Raises (ExcValueError "VG name is None or empty")
  | Some vg_name =>
      let vg_len := String.length vg_name in
      if (vg_len =? 0)%nat || (127 <? vg_len)%nat then
        Raises (ExcValueError
          ("VG name (" +:+ vg_name +:+ ") length (" +:+ pretty vg_len
             +:+ ") not in the domain 1..127"))
      else if negb (chars_within vg_name _ALLOWABLE_VG_LV_CH) then
        Raises (ExcValueError
          ("VG name (" +:+ vg_name +:+ ") contains invalid character, "
             +:+ "allowable set(" +:+ _ALLOWABLE_VG_LV_CH +:+ ")"))
      else if String.eqb vg_name "." || String.eqb vg_name ".." then
        Raises (ExcValueError
          ("VG name (" +:+ vg_name +:+ ") cannot be " +:+ dquote +:+ "."
             +:+ dquote +:+ " or " +:+ dquote +:+ ".." +:+ dquote))
      else Returns tt
  end.

(** [lv_name[0]] *)
Definition first_char (s : string) : outcome ascii :=
  match s with
  | String a _ => Returns a
  | EmptyString => Raises ExcIndexError
  end.

(** [vg_name] and [lv_name] are each [None] or a string.  The length of
    [vg_name] is taken without a test for [None], and only when [lv_name]
    is not empty: [or] does not evaluate its second operand when the
    first holds. *)
Definition _allowable_lv_name (vg_name lv_name : option string)
  : outcome unit :=
  match lv_name with
  | None => Raises (ExcValueError "LV name is None or empty")
  | Some lv_name =>
      let lv_len := String.length lv_name in
      match
        (if (lv_len =? 0)%nat then Returns true
         else
           match py_len vg_name with
           | Returns vg_len => Returns (125 <? vg_len + lv_len)%nat
           | Raises e => Raises e
           end)
      with
      | Raises e => Raises e
      | Returns true =>
          Raises (ExcValueError
            ("LV name (" +:+ lv_name +:+ ") length (" +:+ pretty lv_len
               +:+ ") + VG name length " +:+ "not in the domain 1..125"))
      | Returns false =>
          if negb (chars_within lv_name _ALLOWABLE_VG_LV_CH) then
            Raises (ExcValueError
              ("LV name (" +:+ lv_name +:+ ") contains invalid character, "
                 +:+ "allowable (" +:+ _ALLOWABLE_VG_LV_CH +:+ ")"))
          else if existsb (fun x => str_contains x lv_name) _LV_NAME_RESERVED
          then
            Raises (ExcValueError
              ("LV name (" +:+ lv_name +:+ ") contains a reserved word, "
                 +:+ "reserved set(" +:+ py_str_tuple _LV_NAME_RESERVED
                 +:+ ")"))
          else if str_prefix "snapshot" lv_name || str_prefix "pvmove" lv_name
          then
            Raises (ExcValueError
              ("LV name (" +:+ lv_name +:+ ") starts with a reserved word, "
                 +:+ "reserved set(" +:+ py_str_list ["snapshot"; "pvmove"]
                 +:+ ")"))
          else
            match first_char lv_name with
            | Raises e => Raises e
            | Returns c =>
                if Ascii.eqb c "-" then
                  Raises (ExcValueError
                    ("LV name (" +:+ lv_name +:+ ") cannot start with a '-' "
                       +:+ "character"))
                else Returns tt
            end
      end
  end.

(** [device] is [None] or a string. *)
Definition validate_device_path (interface : string) (device : option string)
  : outcome unit :=
  match py_chars_within device _ALLOWABLE_CH with
  | Raises e => Raises e
  | Returns within =>
      if negb within then
        Raises (ExcDBusException
          [interface;
           "Device path (" +:+ py_str device +:+ ") has invalid characters, "
             +:+ "allowable (" +:+ _ALLOWABLE_CH +:+ ")"])
      else Returns tt
  end.

(** [try: ... except ValueError as ve: raise DBusException(interface,
    str(ve))]: other exceptions pass. *)
Definition reraise_ValueError (interface : string) (r : outcome unit)
  : outcome unit :=
  match r with
  | Raises (ExcValueError msg) => Raises (ExcDBusException [interface; msg])
  | _ => r
  end.

Definition validate_vg_name (interface : string) (vg_name : option string)
  : outcome unit :=
  reraise_ValueError interface (_allowable_vg_name vg_name).

Definition validate_lv_name (interface : string)
    (vg_name lv_name : option string) : outcome unit :=
  reraise_ValueError interface (_allowable_lv_name vg_name lv_name).

(** [tag] is [None] or a string. *)
Definition validate_tag (interface : string) (tag : option string)
  : outcome unit :=
  match _allowable_tag tag with
  | Raises e => Raises e
  | Returns allowable =>
      if negb allowable then
        Raises (ExcDBusException
          [interface;
           "tag (" +:+ py_str tag
             +:+ ") contains invalid character, allowable set("
             +:+ _ALLOWABLE_TAG_CH +:+ ")"])
      else Returns tt
  end.

(** * utils.py: the error message of a report *)

(** The loop of [get_error_msg] over the entries of the log, with the
    message built so far.  An entry is a dictionary; a key it lacks raises
    [KeyError]. *)
Fixpoint get_error_msg_loop (error_msg : string)
    (entries : list (gmap string string)) : outcome string :=
  match entries with
  | [] => Returns error_msg
  | log_entry :: rest =>
      match log_entry !! "log_type" with
      | None => Raises (ExcKeyError "log_type")
      | Some log_type =>
          if String.eqb log_type "error" then
            match log_entry !! "log_message" with
            | None => Raises (ExcKeyError "log_message")
            | Some m =>
                get_error_msg_loop
                  (match error_msg with
                   | String _ _ => error_msg +:+ ", " +:+ m
                   | EmptyString => m
                   end) rest
            end
          else get_error_msg_loop error_msg rest
      end
  end.

(** Of the report only the member ['log'] is read: [report_log] is that
    member, [None] when the report has none.  Without it the function
    falls off its end and returns [None]. *)
Definition get_error_msg (report_log : option (list (gmap string string)))
  : outcome (option string) :=
  match report_log with
  | Some entries =>
      match get_error_msg_loop "" entries with
      | Returns error_msg => Returns (Some error_msg)
      | Raises e => Raises e
      end
  | None => Returns None
  end.

(** The messages of the entries of type ["error"], in order. *)
Definition error_messages (entries : list (gmap string string)) : list string :=
  omap (fun e => if decide (e !! "log_type" = Some "error")
                 then e !! "log_message" else None) entries.

(** The list without the empty strings at its head. *)
Fixpoint drop_empty (l : list string) : list string :=
  match l with
  | EmptyString :: l' => drop_empty l'
  | _ => l
  end.

(** * utils.py: colours *)

(** The escape character. *)
Definition ESC : string := String (ascii_of_nat 27) EmptyString.

(** The table [styles] of [color]. *)
Definition styles : gmap string string :=
  list_to_map
    [("reset", ESC +:+ "[0m");
     ("bold", ESC +:+ "[01m");
     ("disabled", ESC +:+ "[02m");
     ("underline", ESC +:+ "[04m");
     ("reverse", ESC +:+ "[07m");
     ("strike_through", ESC +:+ "[09m");
     ("invisible", ESC +:+ "[08m");
     ("fg_black", ESC +:+ "[30m");
     ("fg_red", ESC +:+ "[31m");
     ("fg_green", ESC +:+ "[32m");
     ("fg_orange", ESC +:+ "[33m");
     ("fg_blue", ESC +:+ "[34m");
     ("fg_purple", ESC +:+ "[35m");
     ("fg_cyan", ESC +:+ "[36m");
     ("fg_light_grey", ESC +:+ "[37m");
     ("fg_dark_grey", ESC +:+ "[90m");
     ("fg_light_red", ESC +:+ "[91m");
     ("fg_light_green", ESC +:+ "[92m");
     ("fg_yellow", ESC +:+ "[93m");
     ("fg_light_blue", ESC +:+ "[94m");
     ("fg_pink", ESC +:+ "[95m");
     ("fg_light_cyan", ESC +:+ "[96m");
     ("bg_black", ESC +:+ "[40m");
     ("bg_red", ESC +:+ "[41m");
     ("bg_green", ESC +:+ "[42m");
     ("bg_orange", ESC +:+ "[43m");
     ("bg_blue", ESC +:+ "[44m");
     ("bg_purple", ESC +:+ "[45m");
     ("bg_cyan", ESC +:+ "[46m");
     ("bg_light_grey", ESC +:+ "[47m")].

(** The loop of [color] over the styles, with the codes gathered so far:
    the codes of all styles, or the first style that the table lacks. *)
Fixpoint color_loop (color_text : string) (user_styles : list string)
  : string + string :=
  match user_styles with
  | [] => inl color_text
  | style :: rest =>
      match styles !! style with
      | Some code => color_loop (color_text +:+ code) rest
      | None => inr style
      end
  end.

Definition color (text : string) (user_styles : list string) : string :=
  match color_loop "" user_styles with
  | inr style => "def color: parameter " +:+ style +:+ " does not exist"
  | inl color_text =>
      let color_text := color_text +:+ text in
      ESC +:+ "[0m" +:+ color_text +:+ ESC +:+ "[0m"
  end.

(** * utils.py: numbers of the lvm report *)

(** [dbus.UInt64(x)] and [dbus.UInt32(x)] of the bindings: the integer
    itself, [OverflowError] when it is negative or does not fit. *)
Definition UInt64 (x : Z) : result Z :=
  if (0 <=? x) && (x <? 2 ^ 64) then Ok x else Raise OverflowError.

Definition UInt32 (x : Z) : result Z :=
  if (0 <=? x) && (x <? 2 ^ 32) then Ok x else Raise OverflowError.

(** The decorator [rtype(dbus_type)]: the result of the function goes
    through the type. *)
Definition rtype {A B : Type} (dbus_type : A -> result A)
    (fn : B -> result A) (v : B) : result A :=
  fn v ≫= dbus_type.

(** [n(v)] and [n32(v)] for a field [v] of the report, which is [None] or
    a string: a field that is not there or empty counts as zero. *)
Definition n : option string -> result Z :=
  rtype UInt64 (fun v =>
    match v with
    | None | Some EmptyString => Ok 0
    | Some v => py_float v ≫= py_int
    end).

Definition n32 : option string -> result Z :=
  rtype UInt32 (fun v =>
    match v with
    | None | Some EmptyString => Ok 0
    | Some v => py_float v ≫= py_int
    end).

(** The number that a string of decimal digits writes. *)
Definition decimal (s : string) : Z := digits_value (read_digits s).1.

(** * utils.py: the log and the debug messages *)

Module Logging.

(** [DebugMessages]: [queue] is a [collections.deque] with a largest
    length, oldest message first. *)
Record DebugMessages : Type := {
  queue : list string;
  maxlen : nat
}.

(** [DebugMessages(size)] *)
Definition DebugMessages_init (size : nat) : DebugMessages :=
  {| queue := []; maxlen := size |}.

(** [self.queue.append(message)]: a full deque drops its oldest message. *)
Definition add (self : DebugMessages) (message : string) : DebugMessages :=
  let q := queue self ++ [message] in
  {| queue := drop (length q - maxlen self) q; maxlen := maxlen self |}.

(** What the log reads of [cfg], and the output: [args] is [None] or the
    parsed arguments, of which only [debug] is read; [debug] is [None] or
    the store of debug messages; [stdout] holds what each [print] wrote,
    oldest first; [ticks] counts the readings of the clock. *)
Record state : Type := {
  systemd : bool;
  args : option bool;
  debug : option DebugMessages;
  stdout : list string;
  ticks : nat
}.

Definition set_debug (d : option DebugMessages) (w : state) : state :=
  {| systemd := systemd w; args := args w; debug := d;
     stdout := stdout w; ticks := ticks w |}.

Definition set_stdout (out : list string) (w : state) : state :=
  {| systemd := systemd w; args := args w; debug := debug w;
     stdout := out; ticks := ticks w |}.

Definition set_ticks (k : nat) (w : state) : state :=
  {| systemd := systemd w; args := args w; debug := debug w;
     stdout := stdout w; ticks := k |}.

Section Process.

(** Whether the output is a terminal, the numbers of the process and of
    the thread, and the time that the k-th reading of the clock gives,
    formatted. *)
Context (STDOUT_TTY : bool) (pid tid : Z) (now : nat -> string).

Definition print (text : string) (w : state) : state :=
  set_stdout (stdout w ++ [text]) w.

Definition _format_log_entry (msg : string) (w : state) : string * state :=
  if negb (systemd w) && STDOUT_TTY then
    (now (ticks w) +:+ ": " +:+ pretty pid +:+ ":" +:+ pretty tid +:+ " - "
       +:+ msg,
     set_ticks (S (ticks w)) w)
  else if systemd w then
    ("[" +:+ pretty tid +:+ "]: " +:+ msg, w)
  else
    ("[" +:+ pretty pid +:+ ":" +:+ pretty tid +:+ "]: " +:+ msg, w).

Definition _common_log (msg : string) (attributes : list string) (w : state)
  : state :=
  let '(msg, w) := _format_log_entry msg w in
  if STDOUT_TTY && negb (bool_decide (attributes = [])) then
    print (color msg attributes) w
  else print msg w.

Definition log_debug (msg : string) (attributes : list string) (w : state)
  : state :=
  match args w with
  | Some true => _common_log msg attributes w
  | _ =>
      match debug w with
      | Some d =>
          let '(entry, w) := _format_log_entry msg w in
          set_debug (Some (add d entry)) w
      | None => w
      end
  end.

Definition log_error (msg : string) (attributes : list string) (w : state)
  : state :=
  _common_log msg attributes w.

(** [cfg.debug.dump()]: without a store the call raises
    [AttributeError]. *)
Definition dump (w : state) : outcome state :=
  match debug w with
  | None => Raises ExcAttributeError
  | Some self =>
      match args w with
      | Some false =>
          match queue self with
          | [] => Returns w
          | _ =>
              let w := log_error
                ("LVM dbus debug messages START last ("
                   +:+ pretty (maxlen self) +:+ " max) messages") [] w in
              let w := foldl (fun w m => print m w) w (queue self) in
              let w := log_error "LVM dbus debug messages END" [] w in
              Returns (set_debug
                (Some {| queue := []; maxlen := maxlen self |}) w)
          end
      | _ => Returns w
      end
  end.

End Process.

End Logging.

(** * utils.py: what changed between two readings of the properties *)

Section PropertyDiff.

(** [P] is the description of a property, [V] a value of one;
    [py_ne v1 v2] is [v1 != v2]. *)
Context {P V : Type} (py_ne : V -> V -> bool).

(** A dictionary that is walked through is the list of its items, in
    the order of the walk; its keys are distinct. *)
Fixpoint dict_get {A : Type} (k : string) (items : list (string * A))
  : option A :=
  match items with
  | [] => None
  | (k', a) :: rest => if String.eqb k' k then Some a else dict_get k rest
  end.

(** What [get_properties] returns: for each interface the descriptions
    of its properties and their values by name. *)
Definition properties : Type :=
  list (string * (list P * list (string * V))).

(** The loop over the values of one interface.  [o_prop[intf_k][1][k]]
    is the value [v] of the item at hand. *)
Fixpoint get_object_property_diff_values (intf_k : string)
    (values : list (string * V)) (n_prop : properties)
    (rc : gmap string (gmap string V)) : outcome (gmap string (gmap string V)) :=
  match values with
  | [] => Returns rc
  | (k, v) :: rest =>
      match dict_get intf_k n_prop with
      | None => Raises (ExcKeyError intf_k)
      | Some n_intf =>
          match dict_get k n_intf.2 with
          | None => Raises (ExcKeyError k)
          | Some new_value =>
              if py_ne v new_value then
                let rc :=
                  match rc !! intf_k with
                  | None => <[intf_k := ∅]> rc
                  | Some _ => rc
                  end in
                get_object_property_diff_values intf_k rest n_prop
                  (alter (insert k new_value) intf_k rc)
              else get_object_property_diff_values intf_k rest n_prop rc
          end
      end
  end.

(** The loop over the interfaces. *)
Fixpoint get_object_property_diff_loop (o_prop n_prop : properties)
    (rc : gmap string (gmap string V)) : outcome (gmap string (gmap string V)) :=
  match o_prop with
  | [] => Returns rc
  | (intf_k, intf_v) :: rest =>
      match get_object_property_diff_values intf_k intf_v.2 n_prop rc with
      | Returns rc => get_object_property_diff_loop rest n_prop rc
      | Raises e => Raises e
      end
  end.

Definition get_object_property_diff (o_prop n_prop : properties)
  : outcome (gmap string (gmap string V)) :=
  get_object_property_diff_loop o_prop n_prop ∅.

(** The value of property [k] of interface [i] in a reading, and in a
    difference. *)
Definition property_value (props : properties) (i k : string) : option V :=
  dict_get i props ≫= fun intf_v => dict_get k intf_v.2.

Definition changed_value (rc : gmap string (gmap string V)) (i k : string)
  : option V :=
  rc !! i ≫= fun m => m !! k.

End PropertyDiff.

(** * utils.py: the file of debug output of lvm *)

Module DebugData.

(** What the class touches of the operating system: the descriptors
    that are open, the files that exist, and the lines logged. *)
Record os_state : Type := {
  open_fds : gset Z;
  files : gset string;
  log : list string
}.

Record LvmDebugData : Type := {
  fd : Z;
  fn : option string
}.

(** An object and the system around it. *)
Definition world : Type := LvmDebugData * os_state.

(** A method: how it ends, and the state it leaves, also when it
    raises. *)
Definition method : Type := world -> outcome unit * world.

Definition seq (a b : method) : method := fun w =>
  match a w with
  | (Returns _, w') => b w'
  | (Raises e, w') => (Raises e, w')
  end.

(** [LvmDebugData()] *)
Definition init : LvmDebugData := {| fd := -1; fn := None |}.

(** [os.unlink(name)]: [FileNotFoundError], an [OSError], without the
    file. *)
Definition os_unlink (name : string) (os : os_state) : outcome unit * os_state :=
  if decide (name ∈ files os) then
    (Returns tt,
     {| open_fds := open_fds os; files := files os ∖ {[name]}; log := log os |})
  else (Raises ExcOSError, os).

(** [os.close(fd)]: [OSError] on a descriptor that is not open. *)
Definition os_close (d : Z) (os : os_state) : outcome unit * os_state :=
  if decide (d ∈ open_fds os) then
    (Returns tt,
     {| open_fds := open_fds os ∖ {[d]}; files := files os; log := log os |})
  else (Raises ExcOSError, os).

Definition _remove_file : method := fun '(self, os) =>
  match fn self with
  | Some name =>
      match os_unlink name os with
      | (Returns _, os') => (Returns tt, ({| fd := fd self; fn := None |}, os'))
      | (Raises e, os') => (Raises e, (self, os'))
      end
  | None => (Returns tt, (self, os))
  end.

Definition _close_fd : method := fun '(self, os) =>
  if decide (fd self ≠ -1) then
    match os_close (fd self) os with
    | (Returns _, os') => (Returns tt, ({| fd := -1; fn := fn self |}, os'))
    | (Raises e, os') => (Raises e, (self, os'))
    end
  else (Returns tt, (self, os)).

(** [setup()]: [tempfile.mkstemp] makes a file that was not there and
    opens it; [new_fd] and [new_fn] are the descriptor and the name it
    picks. *)
Definition setup (new_fd : Z) (new_fn : string) : method := fun '(self, os) =>
  (Returns tt,
   ({| fd := new_fd; fn := Some new_fn |},
    {| open_fds := open_fds os ∪ {[new_fd]};
       files := files os ∪ {[new_fn]};
       log := log os |})).

Definition lvm_complete : method := _remove_file.

(** [log_error(msg)], the message alone. *)
Definition log_error (msg : string) (os : os_state) : os_state :=
  {| open_fds := open_fds os; files := files os; log := log os ++ [msg] |}.

(** [dump()]: [debug_txt] is what the file holds, decoded, or [None]
    when its bytes are not UTF-8 and [decode] raises. *)
Definition dump (debug_txt : option string) : method :=
  seq
    (fun '(self, os) =>
       if decide (fd self ≠ -1) then
         if decide (fd self ∈ open_fds os) then
           match debug_txt with
           | None => (Raises ExcUnicodeDecodeError, (self, os))
           | Some debug_txt =>
               _close_fd
                 (self,
                  foldl (fun os line => log_error ("lvm debug >>> " +:+ line) os)
                    os (str_split (ascii_of_nat 10) debug_txt))
           end
         else (Raises ExcOSError, (self, os))
       else (Returns tt, (self, os)))
    _remove_file.

Definition complete : method := seq _close_fd _remove_file.

(** The calls on an object after [setup]. *)
Inductive call : Type :=
  | Lvm_complete
  | Dump (debug_txt : option string)
  | Complete.

Definition run_call (c : call) : method :=
  match c with
  | Lvm_complete => lvm_complete
  | Dump debug_txt => dump debug_txt
  | Complete => complete
  end.

Fixpoint run (calls : list call) : method :=
  match calls with
  | [] => fun w => (Returns tt, w)
  | c :: rest => seq (run_call c) (run rest)
  end.

(** A call that tidies up, and a call that cannot raise in decoding. *)
Definition tidies (c : call) : bool :=
  match c with
  | Lvm_complete => false
  | _ => true
  end.

Definition decodes (c : call) : bool :=
  match c with
  | Dump None => false
  | _ => true
  end.

(** The object holds its descriptor as long as it is open, and the name
    of its file as long as it exists; [os] is the system before [setup],
    [new_fd] and [new_fn] are what [mkstemp] picked. *)
Definition holds (os : os_state) (new_fd : Z) (new_fn : string) (w : world)
  : Prop :=
  (fd w.1 = new_fd ∧ open_fds w.2 = open_fds os ∪ {[new_fd]} ∨
   fd w.1 = -1 ∧ open_fds w.2 = open_fds os) ∧
  (fn w.1 = Some new_fn ∧ files w.2 = files os ∪ {[new_fn]} ∨
   fn w.1 = None ∧ files w.2 = files os).

(** Nothing of the object is left in the system. *)
Definition tidy (os : os_state) (w : world) : Prop :=
  w.1 = init ∧ open_fds w.2 = open_fds os ∧ files w.2 = files os.

End DebugData.
(** * Properties *)

(** ** Path Allocator *)

Lemma generator_of_spec cfg c s :
  (generator_of c cfg s).1 = obj_path (prefix_of cfg c) (counter_of s c) ∧
  ∀ c', counter_of (generator_of c cfg s).2 c' =
        (counter_of s c' + if decide (c' = c) then 1 else 0)%N.
Proof.
  split; [by destruct c|].
  intros c'; destruct c, c'; simpl; lia.
Qed.

Lemma calls_for_cons c x cs :
  calls_for c (x :: cs) = ((if decide (x = c) then 1 else 0) + calls_for c cs)%N.
Proof.
  unfold calls_for. rewrite filter_cons.
  destruct (decide (x = c)); simpl length; lia.
Qed.

(** The [i]-th path of a run carries the start value of its category's
    counter plus the number of earlier calls for that category. *)
Lemma allocate_all_lookup cfg cs : ∀ s i c,
  cs !! i = Some c →
  (allocate_all cfg cs s).1 !! i =
    Some (obj_path (prefix_of cfg c) (counter_of s c + calls_for c (take i cs))).
Proof.
  induction cs as [|x cs IH]; intros s i c Hi; [done|].
  simpl. destruct (generator_of x cfg s) as [p s1] eqn:Hg.
  destruct (allocate_all cfg cs s1) as [ps s2] eqn:Ha.
  destruct (generator_of_spec cfg x s) as [Hp Hc]. rewrite Hg in Hp, Hc.
  simpl in Hp, Hc. destruct i as [|i]; simpl in *.
  - inversion Hi; subst. f_equal. unfold calls_for; simpl. by rewrite N.add_0_r.
  - specialize (IH s1 i c Hi). rewrite Ha in IH. simpl in IH. rewrite IH.
    do 2 f_equal. rewrite Hc, calls_for_cons.
    destruct (decide (c = x)), (decide (x = c)); subst; try done; lia.
Qed.

Lemma allocate_all_counters cfg cs : ∀ s c,
  counter_of (allocate_all cfg cs s).2 c = (counter_of s c + calls_for c cs)%N.
Proof.
  induction cs as [|x cs IH]; intros s c.
  - unfold calls_for; simpl. lia.
  - simpl. destruct (generator_of x cfg s) as [p s1] eqn:Hg.
    destruct (allocate_all cfg cs s1) as [ps s2] eqn:Ha.
    specialize (IH s1 c). rewrite Ha in IH. simpl in *. rewrite IH.
    destruct (generator_of_spec cfg x s) as [_ Hc]. rewrite Hg in Hc.
    simpl in Hc. rewrite Hc, calls_for_cons.
    destruct (decide (c = x)), (decide (x = c)); subst; try done; lia.
Qed.

Lemma calls_for_take_lt c cs i j :
  (i < j)%nat → cs !! i = Some c →
  (calls_for c (take i cs) < calls_for c (take j cs))%N.
Proof.
  intros Hij Hi.
  assert (Hsplit : take j cs = take i cs ++ c :: take (j - S i) (drop (S i) cs)).
  { rewrite <-(take_drop_middle cs i c Hi) at 1.
    assert (Hlen : length (take i cs) = i).
    { apply length_take_le. apply lookup_lt_Some in Hi. lia. }
    rewrite take_app. rewrite Hlen.
    rewrite (take_ge (take i cs)) by lia.
    f_equal. replace (j - i)%nat with (S (j - S i)) by lia. done. }
  rewrite Hsplit. unfold calls_for.
  rewrite filter_app, filter_cons, decide_True by done.
  rewrite length_app. simpl. lia.
Qed.

Lemma obj_path_inj prefix n m : obj_path prefix n = obj_path prefix m → n = m.
Proof.
  unfold obj_path. intros H.
  apply (inj (String.app prefix)) in H.
  apply (inj (String.app "/")) in H.
  by apply (inj pretty) in H.
Qed.

(** C4: for each of the eight categories, successive calls of its path
    generator return [<prefix>/<integer>] with strictly increasing, hence
    never repeating, integers, whatever allocations of other categories
    come in between; no counter ever decreases. *)
Theorem object_paths_strictly_increasing
    (cfg : obj_paths) (s : path_ids) (cs : list category) :
  (∀ (i j : nat) (c : category),
     (i < j)%nat → cs !! i = Some c → cs !! j = Some c →
     ∃ n m : N,
       (allocate_all cfg cs s).1 !! i = Some (prefix_of cfg c +:+ "/" +:+ pretty n) ∧
       (allocate_all cfg cs s).1 !! j = Some (prefix_of cfg c +:+ "/" +:+ pretty m) ∧
       (counter_of s c ≤ n)%N ∧ (n < m)%N ∧
       (allocate_all cfg cs s).1 !! i ≠ (allocate_all cfg cs s).1 !! j) ∧
  (∀ c : category,
     (counter_of s c ≤ counter_of (allocate_all cfg cs s).2 c)%N).
Proof.
  split.
  - intros i j c Hij Hi Hj.
    pose proof (allocate_all_lookup cfg cs s i c Hi) as Hpi.
    pose proof (allocate_all_lookup cfg cs s j c Hj) as Hpj.
    pose proof (calls_for_take_lt c cs i j Hij Hi) as Hlt.
    eexists _, _. split; [exact Hpi|]. split; [exact Hpj|].
    split; [lia|]. split; [lia|].
    rewrite Hpi, Hpj. intros [= Heq%obj_path_inj]. lia.
  - intros c. rewrite allocate_all_counters. lia.
Qed.

(** The theorem at a run that interleaves three categories. *)
Lemma object_paths_strictly_increasing_witness :
  let cfg := {| PV_OBJ_PATH := "/com/redhat/lvmdbus1/Pv";
                VG_OBJ_PATH := "/com/redhat/lvmdbus1/Vg";
                LV_OBJ_PATH := "/com/redhat/lvmdbus1/Lv";
                THIN_POOL_PATH := "/com/redhat/lvmdbus1/ThinPool";
                VDO_POOL_PATH := "/com/redhat/lvmdbus1/VdoPool";
                CACHE_POOL_PATH := "/com/redhat/lvmdbus1/CachePool";
                HIDDEN_LV_PATH := "/com/redhat/lvmdbus1/HiddenLv";
                JOB_OBJ_PATH := "/com/redhat/lvmdbus1/Job" |} in
  let s := {| pv_id := 0; vg_id := 0; lv_id := 0; thin_id := 0; vdo_id := 0;
              cache_pool_id := 0; hidden_lv := 0; job_id := 0 |} in
  let cs := [LV; PV; LV; Job; LV] in
  (allocate_all cfg cs s).1 =
    ["/com/redhat/lvmdbus1/Lv/0"; "/com/redhat/lvmdbus1/Pv/0";
     "/com/redhat/lvmdbus1/Lv/1"; "/com/redhat/lvmdbus1/Job/0";
     "/com/redhat/lvmdbus1/Lv/2"] ∧
  ∃ n m : N,
    (allocate_all cfg cs s).1 !! 0%nat = Some (prefix_of cfg LV +:+ "/" +:+ pretty n) ∧
    (allocate_all cfg cs s).1 !! 4%nat = Some (prefix_of cfg LV +:+ "/" +:+ pretty m) ∧
    (counter_of s LV ≤ n)%N ∧ (n < m)%N ∧
    (allocate_all cfg cs s).1 !! 0%nat ≠ (allocate_all cfg cs s).1 !! 4%nat.
Proof.
  intros cfg s cs. split; [reflexivity|].
  apply (proj1 (object_paths_strictly_increasing cfg s cs) 0%nat 4%nat LV);
    [lia | reflexivity | reflexivity].
Defined.

(** ** Classification *)

Local Ltac in_five :=
  repeat first [apply list_elem_of_here | apply list_elem_of_further].




(** ** Command-line helpers *)

(** The loop over [pre ++ key :: rest], entered at index [i], stops at the
    first [key], which sits at index [i + length pre]. *)
Lemma add_config_option_loop_first cmdline key value pre rest : ∀ i,
  key ∉ pre →
  add_config_option_loop cmdline key value i (pre ++ key :: rest) =
    if decide (length cmdline ≤ i + length pre + 1)%nat then
      Raise (DBusException ["Missing value for --config option."])
    else Ok (alter (fun v => v +:+ " " +:+ value) (i + length pre + 1)%nat cmdline).
Proof.
  induction pre as [|x pre IH]; intros i Hpre; simpl.
  - rewrite decide_True by done. rewrite Nat.add_0_r. done.
  - apply not_elem_of_cons in Hpre as [Hx Hpre].
    rewrite decide_False by done. rewrite IH by done.
    replace (S i + length pre + 1)%nat with (i + S (length pre) + 1)%nat by lia.
    done.
Qed.

(** C10: when ['help'] is one of the arguments, [add_config_option]
    returns the list as it is, so [add_no_notify] adds no [--config]
    option to such a command, whether or not an external event has been
    seen. *)
Theorem add_config_option_help_unchanged
    (cmdline : list string) (key value : string) (got_external_event : bool) :
  "help" ∈ cmdline →
  add_config_option cmdline key value = Ok cmdline ∧
  add_no_notify got_external_event cmdline = Ok cmdline.
Proof.
  intros Hhelp. unfold add_no_notify, add_config_option.
  destruct got_external_event; by rewrite ?decide_True by done.
Qed.

Lemma add_config_option_help_unchanged_witness :
  add_config_option ["lvcreate"; "help"; "--config"; "devices/dir=/dev"]
      "--config" "global/notify_dbus=0"
    = Ok ["lvcreate"; "help"; "--config"; "devices/dir=/dev"] ∧
  add_no_notify true ["lvcreate"; "help"; "--config"; "devices/dir=/dev"]
    = Ok ["lvcreate"; "help"; "--config"; "devices/dir=/dev"].
Proof.
  apply (add_config_option_help_unchanged
           ["lvcreate"; "help"; "--config"; "devices/dir=/dev"]
           "--config" "global/notify_dbus=0" true).
  apply list_elem_of_further, list_elem_of_here.
Defined.

(** C8, as stated, fails: with the event seen and no [--config] in the
    vector, the pair is not appended when ['help'] is an argument (the
    vector comes back unchanged), and a [--config] that is the last
    argument has no value to merge into (the call raises). *)
Lemma add_no_notify_not_always_added :
  ("--config" ∉ ["lvs"; "help"]) ∧
  add_no_notify true ["lvs"; "help"] = Ok ["lvs"; "help"] ∧
  add_no_notify true ["lvs"; "help"]
    ≠ Ok (["lvs"; "help"] ++ ["--config"; "global/notify_dbus=0"]) ∧
  add_no_notify true ["lvs"; "--config"]
    = Raise (DBusException ["Missing value for --config option."]).
Proof.
  split; [|split; [reflexivity|split; [by intros [=]|reflexivity]]].
  rewrite !not_elem_of_cons. repeat split; try (by intros [=]).
  apply not_elem_of_nil.
Qed.

(** C8, amended: for a vector without the argument ['help'].  When the
    event has not been seen the vector is returned unchanged.  When it
    has: without [--config] in the vector, [--config] and the setting are
    appended as a new pair; with [--config] followed by a value, the
    setting is joined with a blank to the value after the first
    [--config]; with the first [--config] as the last argument, the call
    raises. *)
Theorem add_no_notify_merges_or_appends (cmdline : list string) :
  "help" ∉ cmdline →
  add_no_notify false cmdline = Ok cmdline ∧
  ("--config" ∉ cmdline →
     add_no_notify true cmdline
       = Ok (cmdline ++ ["--config"; "global/notify_dbus=0"])) ∧
  (∀ pre v post,
     cmdline = pre ++ "--config" :: v :: post → "--config" ∉ pre →
     add_no_notify true cmdline
       = Ok (pre ++ "--config" :: (v +:+ " global/notify_dbus=0") :: post)) ∧
  (∀ pre,
     cmdline = pre ++ ["--config"] → "--config" ∉ pre →
     add_no_notify true cmdline
       = Raise (DBusException ["Missing value for --config option."])).
Proof.
  intros Hhelp. unfold add_no_notify, add_config_option.
  rewrite decide_False by done.
  split; [done|]. split; [|split].
  - intros Hc. by rewrite decide_False by done.
  - intros pre v post -> Hpre.
    rewrite decide_True by (rewrite elem_of_app, elem_of_cons; auto).
    rewrite add_config_option_loop_first by done.
    rewrite decide_False by (rewrite length_app; simpl; lia).
    f_equal. replace (0 + length pre + 1)%nat with (length pre + 1)%nat by lia.
    rewrite alter_app_r. f_equal.
  - intros pre -> Hpre.
    rewrite decide_True by (rewrite elem_of_app, elem_of_cons; auto).
    rewrite add_config_option_loop_first by done.
    rewrite decide_True by (rewrite length_app; simpl; lia). done.
Qed.

(** The theorem at a vector that already carries a [--config] value. *)
Lemma add_no_notify_merges_or_appends_witness :
  add_no_notify true ["lvs"; "--config"; "devices/dir=/dev"; "vg0"]
    = Ok ["lvs"; "--config"; "devices/dir=/dev global/notify_dbus=0"; "vg0"].
Proof.
  assert (Hhelp : "help" ∉ ["lvs"; "--config"; "devices/dir=/dev"; "vg0"]).
  { rewrite !not_elem_of_cons. repeat split; try (by intros [=]).
    apply not_elem_of_nil. }
  destruct (add_no_notify_merges_or_appends _ Hhelp) as (_ & _ & Hmerge & _).
  apply (Hmerge ["lvs"] "devices/dir=/dev" ["vg0"] eq_refl).
  rewrite not_elem_of_cons. split; [by intros [=]|apply not_elem_of_nil].
Defined.

(** ** The progress callback *)

(** What the callback does, by cases on the line. *)
Lemma _move_callback_unfold line_str w :
  _move_callback line_str w =
    if (str_count ":" line_str =? 2)%nat then
      match reported_percent line_str with
      | Ok p =>
          (Ok tt,
           set_worker_q (worker_q w ++ [load_request])
             (set_job_state {| Percent := p |} w))
      | Raise ValueError =>
          (Ok tt,
           set_log
             (log w ++ ["Trying to parse percentage which failed for " +:+ line_str])
             w)
      | Raise e => (Raise e, w)
      end
    else (Ok tt, w).
Proof.
  unfold _move_callback, try_except_ValueError, reported_percent.
  destruct (str_count ":" line_str =? 2)%nat; [|reflexivity].
  unfold bind at 1, lift at 1.
  destruct (unpack3 (str_split ":" line_str)) as [[[d i] p]|e]; simpl;
    [|by destruct e].
  unfold bind at 1, lift at 1.
  destruct (py_float (str_drop_last (str_strip p))) as [x|e]; simpl;
    [|by destruct e].
  unfold bind at 1, lift at 1.
  destruct (py_int (py_round1 x)) as [n|e]; simpl; [reflexivity|by destruct e].
Qed.

Lemma _move_callback_frame line_str w :
  same_frame w (_move_callback line_str w).2.
Proof.
  rewrite _move_callback_unfold. unfold same_frame.
  destruct (str_count ":" line_str =? 2)%nat; [|done].
  destruct (reported_percent line_str) as [p|[]]; done.
Qed.

Lemma deliver_frame lines : ∀ w, same_frame w (deliver _move_callback lines w).
Proof.
  induction lines as [|l ls IH]; intros w; simpl; [done|].
  destruct (IH (_move_callback l w).2) as (?&?&?&?&?&?&?&?&?).
  destruct (_move_callback_frame l w) as (?&?&?&?&?&?&?&?&?).
  unfold same_frame. repeat split; congruence.
Qed.

(** [Percent] after a line: the integer of the line when it is
    recognised, the old value otherwise. *)
Lemma _move_callback_percent line_str w :
  Percent (job_state (_move_callback line_str w).2) =
    default (Percent (job_state w)) (recognised line_str).
Proof.
  rewrite _move_callback_unfold. unfold recognised.
  destruct (str_count ":" line_str =? 2)%nat; [|done].
  destruct (reported_percent line_str) as [p|[]]; done.
Qed.

Lemma deliver_snoc lines l w :
  deliver _move_callback (lines ++ [l]) w =
    (_move_callback l (deliver _move_callback lines w)).2.
Proof. revert w. induction lines as [|x xs IH]; intros w; simpl; auto. Qed.

(** [Percent] after some lines: the last report among them, or the value
    it had before when none of them is recognised. *)
Lemma deliver_percent lines w :
  Percent (job_state (deliver _move_callback lines w)) =
    default (Percent (job_state w)) (last (reports lines)).
Proof.
  induction lines as [|l ls IH] using rev_ind; [done|].
  rewrite deliver_snoc, _move_callback_percent, IH.
  unfold reports. rewrite omap_app. simpl.
  destruct (recognised l) as [p|]; simpl.
  - by rewrite last_snoc.
  - by rewrite app_nil_r.
Qed.

(** ** The wrapper *)

Lemma _move_merge_unfold interface_name command w :
  _move_merge interface_name command w =
    let r := lvm_tool w command in
    let w3 := after_run command w in
    if run_ec r =? 0 then
      (Ok "/", set_loads (S (loads w3)) (set_job_state {| Percent := 100 |} w3))
    else
      (Raise (DBusException
         [interface_name;
          "Exit code " +:+ pretty (run_ec r) +:+ ", stderr = " +:+ run_stderr r]),
       w3).
Proof.
  unfold _move_merge, after_run, before_run. cbv zeta.
  unfold bind, time_time, new_LvmExecutionMeta, flightrecorder_add, call_lvm,
    meta_completed, set_Percent, raise, cfg_load, ret. simpl.
  destruct (run_ec (lvm_tool w command) =? 0); reflexivity.
Qed.

Lemma str_app_nil_l s : "" +:+ s = s.
Proof. reflexivity. Qed.

Lemma str_app_cons a s t : String a s +:+ t = String a (s +:+ t).
Proof. reflexivity. Qed.

Lemma str_app_nil_r s : s +:+ "" = s.
Proof.
  induction s as [|a s IH]; [done|]. by rewrite str_app_cons, IH.
Qed.

Lemma str_app_assoc s1 s2 s3 : s1 +:+ s2 +:+ s3 = (s1 +:+ s2) +:+ s3.
Proof.
  induction s1 as [|a s1 IH]; [done|]. by rewrite !str_app_cons, IH.
Qed.

Lemma str_prefix_app p s : str_prefix p (p +:+ s) = true.
Proof.
  induction p as [|a p IH]; [done|].
  rewrite str_app_cons. simpl. by rewrite Ascii.eqb_refl, IH.
Qed.



(** Resolving the destinations changes nothing, and raises as soon as one
    of them does not resolve. *)
Lemma resolve_dests_unresolved interface_name dests : ∀ acc w,
  (∃ pr, pr ∈ dests ∧ om w !! pr.1.1 = None) →
  ∃ msg, resolve_dests interface_name dests acc w =
           (Raise (DBusException [interface_name; msg]), w).
Proof.
  induction dests as [|pr dests IH]; intros acc w [pr' [Hin Hnone]].
  - by apply elem_of_nil in Hin.
  - simpl. unfold bind, get_object_by_path.
    destruct (om w !! pr.1.1) as [o|] eqn:Ho.
    + apply IH. exists pr'. split; [|done].
      apply elem_of_cons in Hin as [->|Hin]; [congruence|done].
    + eexists. reflexivity.
Qed.

(** C5: when the source path, or any of the destination paths, does not
    resolve in the object graph, [move] raises a [DBusException] and
    leaves the whole state as it was: no process has been started and the
    Flight Recorder and its records are untouched. *)
Theorem move_unresolved_reference_faults
    {Options : Type} (options_to_cli_args : Options → list string)
    (interface_name : string) (lv_name : option string) (pv_src_obj : string)
    (pv_source_range : Z * Z) (pv_dests_and_ranges : list (string * Z * Z))
    (move_options : Options) (w : daemon) :
  (om w !! pv_src_obj = None ∨
   ∃ pr, pr ∈ pv_dests_and_ranges ∧ om w !! pr.1.1 = None) →
  ∃ (msg : string) (w' : daemon),
    move options_to_cli_args interface_name lv_name pv_src_obj pv_source_range
      pv_dests_and_ranges move_options w
      = (Raise (DBusException [interface_name; msg]), w') ∧
    w' = w ∧
    spawned w' = spawned w ∧
    flightrecorder w' = flightrecorder w ∧
    objects w' = objects w.
Proof.
  intros Hun. unfold move, bind at 1, get_object_by_path at 1.
  destruct (om w !! pv_src_obj) as [src|] eqn:Hsrc.
  - destruct Hun as [?|Hd]; [done|].
    destruct (resolve_dests_unresolved interface_name _ [] w Hd) as [msg Hmsg].
    unfold bind. rewrite Hmsg. by exists msg, w.
  - eexists _, w. done.
Qed.

(** The theorem at a move whose second destination is unknown. *)
Lemma move_unresolved_reference_faults_witness :
  let tool := fun _ : list string =>
    {| run_lines := []; run_ec := 0; run_stdout := ""; run_stderr := "" |} in
  ∃ (msg : string) (w' : daemon),
    move (fun _ : unit => []) "com.redhat.lvmdbus1.Pv" None
      "/com/redhat/lvmdbus1/Pv/0" (0, 0)
      [("/com/redhat/lvmdbus1/Pv/0", 0, 0); ("/com/redhat/lvmdbus1/Pv/7", 0, 0)]
      tt (idle_daemon tool)
      = (Raise (DBusException ["com.redhat.lvmdbus1.Pv"; msg]), w') ∧
    w' = idle_daemon tool ∧
    spawned w' = spawned (idle_daemon tool) ∧
    flightrecorder w' = flightrecorder (idle_daemon tool) ∧
    objects w' = objects (idle_daemon tool).
Proof.
  intros tool.
  apply (move_unresolved_reference_faults (fun _ : unit => [])).
  right. exists ("/com/redhat/lvmdbus1/Pv/7", 0, 0). split.
  - apply list_elem_of_further, list_elem_of_here.
  - reflexivity.
Defined.

(** After the run the store holds one more record, the completed record
    of this execution; the recorder has been given its reference once;
    one more process has been started. *)
Lemma after_run_spec command w :
  let r := lvm_tool w command in
  ∃ t1 : pyfloat,
    objects (after_run command w) =
      objects w ++
        [{| meta_start := PyFloat (wall w (clock w));
            meta_ended := PyFloat t1;
            meta_cmd := command;
            meta_ec := Some (run_ec r);
            meta_stdout := Some (run_stdout r);
            meta_stderr := Some (run_stderr r) |}] ∧
    flightrecorder (after_run command w) =
      flightrecorder_append (flightrecorder w) (length (objects w)) ∧
    spawned (after_run command w) = spawned w ++ [command].
Proof.
  intros r. unfold after_run. cbv zeta.
  set (w1 := before_run command w).
  set (w2 := deliver _ _ _).
  destruct (deliver_frame (run_lines (lvm_tool w command))
              (set_spawned (spawned w1 ++ [command]) w1))
    as (_ & _ & Hobj & Hrec & _ & Hsp & _ & _ & _).
  fold w2 in Hobj, Hrec, Hsp.
  exists (wall w2 (clock w2)). simpl. rewrite Hobj, Hrec, Hsp. simpl.
  split; [|done].
  replace (length (objects w)) with (length (objects w) + 0)%nat at 1 by lia.
  by rewrite alter_app_r.
Qed.



(** ** Percent over one operation *)

Lemma final_percent interface_name command w :
  Percent (job_state (_move_merge interface_name command w).2) =
    if run_ec (lvm_tool w command) =? 0 then 100
    else percent_during w (run_lines (lvm_tool w command))
           (length (run_lines (lvm_tool w command))).
Proof.
  rewrite _move_merge_unfold. cbv zeta.
  destruct (run_ec (lvm_tool w command) =? 0); [reflexivity|].
  unfold percent_during, after_run. cbv zeta. simpl job_state.
  rewrite firstn_all, !deliver_percent. reflexivity.
Qed.

Lemma reports_take_app lines i j :
  (i ≤ j)%nat →
  ∃ g h, reports (take j lines) = reports (take i lines) ++ g ∧
         reports lines = reports (take j lines) ++ h.
Proof.
  intros Hij. exists (reports (drop i (take j lines))), (reports (drop j lines)).
  unfold reports. rewrite <-!omap_app. split.
  - rewrite <-(take_drop i (take j lines)) at 1.
    rewrite take_take. by replace (i `min` j)%nat with i by lia.
  - by rewrite take_drop.
Qed.

Lemma default_last_elem_of (p0 : Z) (l : list Z) : default p0 (last l) ∈ p0 :: l.
Proof.
  destruct (last l) as [y|] eqn:E; simpl.
  - apply list_elem_of_further. by apply last_Some_elem_of.
  - apply list_elem_of_here.
Qed.

Lemma default_last_le (p0 : Z) (a g h : list Z) :
  StronglySorted Z.le (p0 :: (a ++ g) ++ h) →
  default p0 (last a) ≤ default p0 (last (a ++ g)).
Proof.
  intros Hs. rewrite last_app.
  destruct (last g) as [y|] eqn:E; [|done]. simpl.
  apply (StronglySorted_app_1_elem_of Z.le (p0 :: a) (g ++ h)).
  - by rewrite <-(assoc_L (++)) in Hs.
  - apply default_last_elem_of.
  - apply elem_of_app. left. by apply last_Some_elem_of.
Qed.

(** C1, as stated, fails: the callback stores whatever the tool reports
    and the wrapper changes it only on exit code 0.  With the reports 50,
    30, 150 and 100 followed by exit code 5, [Percent] goes down, leaves
    0..100, and ends at 100 although the command failed. *)
Lemma percent_claim_fails :
  let tool := fun _ : list string =>
    {| run_lines := ["/dev/sda: Moved: 50.0%"; "/dev/sda: Moved: 30.0%";
                     "/dev/sda: Moved: 150.0%"; "/dev/sda: Moved: 100.0%"];
       run_ec := 5; run_stdout := ""; run_stderr := "" |} in
  let w := idle_daemon tool in
  let command := ["pvmove"; "-i"; "1"; "/dev/sda"] in
  percent_during w (run_lines (tool command)) 1 = 50 ∧
  percent_during w (run_lines (tool command)) 2 = 30 ∧
  percent_during w (run_lines (tool command)) 3 = 150 ∧
  Percent (job_state (_move_merge "com.redhat.lvmdbus1.Pv" command w).2) = 100 ∧
  run_ec (tool command) = 5 ∧
  ¬ percent_claim "com.redhat.lvmdbus1.Pv" command w.
Proof.
  intros tool w command.
  assert (H1 : percent_during w (run_lines (tool command)) 1 = 50)
    by (vm_compute; reflexivity).
  assert (H2 : percent_during w (run_lines (tool command)) 2 = 30)
    by (vm_compute; reflexivity).
  split; [exact H1|]. split; [exact H2|].
  split; [vm_compute; reflexivity|].
  split; [vm_compute; reflexivity|].
  split; [reflexivity|].
  intros (Hmono & _). specialize (Hmono 1%nat 2%nat).
  change (lvm_tool w command) with (tool command) in Hmono.
  rewrite H1, H2 in Hmono. lia.
Qed.

(** C1, amended: [Percent] follows the tool.  While the command runs it
    is the integer of the latest recognised progress line (the value it
    had at the start when there is none yet); on exit code 0 the wrapper
    sets it to 100, on any other exit code the wrapper leaves it at the
    last report, so it ends at 100 exactly when the exit code is 0 or the
    last report was 100.  Hence, when the start value and the reports are
    non-decreasing and within 0..100, [Percent] never decreases and stays
    within 0..100 over the whole operation. *)
Theorem move_merge_percent_follows_reports
    (interface_name : string) (command : list string) (w : daemon) :
  let r := lvm_tool w command in
  let lines := run_lines r in
  let final := Percent (job_state (_move_merge interface_name command w).2) in
  (∀ k : nat,
     percent_during w lines k =
       default (Percent (job_state w)) (last (reports (take k lines)))) ∧
  (run_ec r = 0 → final = 100) ∧
  (run_ec r ≠ 0 → final = percent_during w lines (length lines)) ∧
  (final = 100 ↔
     run_ec r = 0 ∨ percent_during w lines (length lines) = 100) ∧
  (StronglySorted Z.le (Percent (job_state w) :: reports lines) →
   Forall (fun p => 0 ≤ p ≤ 100) (Percent (job_state w) :: reports lines) →
     (∀ i j : nat, (i ≤ j)%nat →
        percent_during w lines i ≤ percent_during w lines j) ∧
     (∀ i : nat, 0 ≤ percent_during w lines i ≤ 100) ∧
     (∀ i : nat, percent_during w lines i ≤ final) ∧
     0 ≤ final ≤ 100).
Proof.
  intros r lines final.
  assert (Hk : ∀ k, percent_during w lines k =
            default (Percent (job_state w)) (last (reports (take k lines)))).
  { intros k. unfold percent_during. apply deliver_percent. }
  assert (Hfinal : final = if run_ec r =? 0 then 100
                           else percent_during w lines (length lines)).
  { apply final_percent. }
  split; [exact Hk|].
  split; [intros Hz; rewrite Hfinal; by destruct (Z.eqb_spec (run_ec r) 0)|].
  split; [intros Hz; rewrite Hfinal; by destruct (Z.eqb_spec (run_ec r) 0)|].
  split.
  { rewrite Hfinal. destruct (Z.eqb_spec (run_ec r) 0) as [Hz|Hz].
    - split; [by left|done].
    - split; [by right|]. by intros [?|?]. }
  intros Hsorted Hrange.
  assert (Hmono : ∀ i j, (i ≤ j)%nat →
            percent_during w lines i ≤ percent_during w lines j).
  { intros i j Hij. rewrite !Hk.
    destruct (reports_take_app lines i j Hij) as (g & h & Hg & Hh).
    rewrite Hg. apply (default_last_le _ _ g h). by rewrite <-Hg, <-Hh. }
  assert (Hin : ∀ i, 0 ≤ percent_during w lines i ≤ 100).
  { intros i. rewrite Hk. rewrite Forall_forall in Hrange. apply Hrange.
    destruct (reports_take_app lines i i (Nat.le_refl i)) as (_ & h & _ & ->).
    pose proof (default_last_elem_of (Percent (job_state w))
                  (reports (take i lines))) as Hel.
    apply elem_of_cons in Hel as [->|Hel]; [apply list_elem_of_here|].
    apply list_elem_of_further, elem_of_app. by left. }
  split; [exact Hmono|]. split; [exact Hin|].
  assert (Hle : ∀ i, percent_during w lines i
                       ≤ percent_during w lines (length lines)).
  { intros i. destruct (Nat.le_gt_cases i (length lines)) as [Hi|Hi].
    - by apply Hmono.
    - unfold percent_during. rewrite !take_ge by lia. done. }
  rewrite Hfinal. destruct (run_ec r =? 0).
  - split; [intros i; apply Hin|lia].
  - split; [exact Hle|apply Hin].
Qed.

(** The theorem at a move that reports 12, 50 and 100 and exits with 0. *)
Lemma move_merge_percent_follows_reports_witness :
  let tool := fun _ : list string =>
    {| run_lines := ["/dev/sda: Moved: 12.5%"; "pvmove: still working";
                     "/dev/sda: Moved: 50.0%"; "/dev/sda: Moved: 100.0%"];
       run_ec := 0; run_stdout := ""; run_stderr := "" |} in
  let w := idle_daemon tool in
  let command := ["pvmove"; "-i"; "1"; "/dev/sda"] in
  reports (run_lines (tool command)) = [12; 50; 100] ∧
  (∀ i j : nat, (i ≤ j)%nat →
     percent_during w (run_lines (tool command)) i
       ≤ percent_during w (run_lines (tool command)) j) ∧
  (∀ i : nat, 0 ≤ percent_during w (run_lines (tool command)) i ≤ 100) ∧
  Percent (job_state (_move_merge "com.redhat.lvmdbus1.Pv" command w).2) = 100.
Proof.
  intros tool w command.
  assert (Hr : reports (run_lines (tool command)) = [12; 50; 100])
    by (vm_compute; reflexivity).
  destruct (move_merge_percent_follows_reports "com.redhat.lvmdbus1.Pv" command w)
    as (_ & Hzero & _ & _ & Hsorted).
  change (lvm_tool w command) with (tool command) in Hzero, Hsorted.
  split; [exact Hr|].
  destruct Hsorted as (Hmono & Hin & _).
  - rewrite Hr. repeat constructor; simpl; lia.
  - rewrite Hr. repeat constructor; simpl; lia.
  - split; [exact Hmono|]. split; [exact Hin|]. by apply Hzero.
Defined.

(** ** Lines of the progress shape *)

Lemma str_count_app c a b :
  str_count c (a +:+ b) = (str_count c a + str_count c b)%nat.
Proof.
  induction a as [|x a IH]; [done|].
  rewrite str_app_cons. simpl. rewrite IH. lia.
Qed.

Lemma str_split_no_sep c s : str_count c s = 0%nat → str_split c s = [s].
Proof.
  induction s as [|x s IH]; [done|]. simpl.
  destruct (Ascii.eqb x c); [done|]. simpl. intros H. by rewrite IH.
Qed.

Lemma str_split_app c a b :
  str_count c a = 0%nat →
  str_split c (a +:+ String c b) = a :: str_split c b.
Proof.
  induction a as [|x a IH].
  - intros _. rewrite str_app_nil_l. simpl. by rewrite Ascii.eqb_refl.
  - rewrite str_app_cons. simpl.
    destruct (Ascii.eqb x c); [done|]. simpl. intros H. by rewrite IH.
Qed.

Lemma str_lstrip_percent p : str_lstrip (p +:+ "%") = str_lstrip p +:+ "%".
Proof.
  induction p as [|x p IH]; [done|].
  rewrite str_app_cons. simpl. destruct (py_isspace x); [exact IH|done].
Qed.

Lemma str_rstrip_percent q : str_rstrip (q +:+ "%") = q +:+ "%".
Proof.
  induction q as [|x q IH]; [done|].
  rewrite str_app_cons. simpl. rewrite IH.
  destruct q; reflexivity.
Qed.

Lemma str_drop_last_snoc q a : str_drop_last (q +:+ String a "") = q.
Proof.
  induction q as [|x q IH]; [done|].
  rewrite str_app_cons. simpl. rewrite IH. destruct q; reflexivity.
Qed.

(** A line of the progress shape has two colons, and the text the
    callback reads as a float is its percentage without the leading white
    space. *)
Lemma progress_line_fields device ignored pct :
  str_count ":" device = 0%nat → str_count ":" ignored = 0%nat →
  str_count ":" pct = 0%nat →
  let line := device +:+ ":" +:+ ignored +:+ ":" +:+ pct +:+ "%" in
  str_count ":" line = 2%nat ∧
  str_split ":" line = [device; ignored; pct +:+ "%"] ∧
  str_drop_last (str_strip (pct +:+ "%")) = str_lstrip pct.
Proof.
  intros Hd Hi Hp line. unfold line. split; [|split].
  - rewrite !str_count_app, Hd, Hi, Hp. reflexivity.
  - change (":" +:+ ignored +:+ ":" +:+ pct +:+ "%")
      with (String ":" (ignored +:+ String ":" (pct +:+ "%"))).
    rewrite !str_split_app by done.
    rewrite str_split_no_sep; [done|].
    rewrite str_count_app, Hp. reflexivity.
  - unfold str_strip.
    by rewrite str_lstrip_percent, str_rstrip_percent, str_drop_last_snoc.
Qed.

Lemma after_run_loads command w : loads (after_run command w) = loads w.
Proof.
  unfold after_run. cbv zeta.
  set (w1 := before_run command w).
  destruct (deliver_frame (run_lines (lvm_tool w command))
              (set_spawned (spawned w1 ++ [command]) w1))
    as (_ & _ & _ & _ & Hl & _).
  cbn [loads set_objects set_clock]. rewrite Hl. reflexivity.
Qed.

(** C2, as stated, fails in its example: 42.5 rounded to one decimal is
    42.5, and [int] truncates it, so the line sets [Percent] to 42. *)
Lemma percent_of_42_5_is_not_43 :
  let tool := fun _ : list string =>
    {| run_lines := []; run_ec := 0; run_stdout := ""; run_stderr := "" |} in
  Percent (job_state (_move_callback "/dev/sda:0:42.5%" (idle_daemon tool)).2) = 42 ∧
  Percent (job_state (_move_callback "/dev/sda:0:42.5%" (idle_daemon tool)).2) ≠ 43.
Proof.
  intros tool. split; [vm_compute; reflexivity|].
  vm_compute. discriminate.
Qed.

(** C2, amended: for a line [<device>:<ignored>:<percentage>%] in which
    neither the device, nor the ignored field, nor the percentage holds a
    colon, and whose percentage reads as a float, the callback sets
    [Percent] to that float rounded to one decimal and then truncated to
    an integer, and queues one request for a full reload; nothing else
    changes.  A line of this shape with a colon inside one of the three
    fields, as in a device named by its path, is no progress line for the
    callback: it returns and the state is what it was.  The line
    ["/dev/sda:0:42.5%"] sets [Percent] to 42.  When the command then
    exits with code 0, the wrapper sets [Percent] to 100, reloads once and
    returns ['/']. *)
Theorem move_callback_progress_line
    (w : daemon) (device ignored pct : string) (x : pyfloat) (p : Z) :
  str_count ":" device = 0%nat →
  str_count ":" ignored = 0%nat →
  str_count ":" pct = 0%nat →
  py_float (str_lstrip pct) = Ok x →
  py_int (py_round1 x) = Ok p →
  _move_callback (device +:+ ":" +:+ ignored +:+ ":" +:+ pct +:+ "%") w
    = (Ok tt,
       set_worker_q (worker_q w ++ [load_request])
         (set_job_state {| Percent := p |} w)) ∧
  req_method load_request = op_load_wrapper ∧
  (∀ device' ignored' pct' : string,
     (0 < str_count ":" device' + str_count ":" ignored'
            + str_count ":" pct')%nat →
     _move_callback
       (device' +:+ ":" +:+ ignored' +:+ ":" +:+ pct' +:+ "%") w
       = (Ok tt, w)) ∧
  Percent (job_state (_move_callback "/dev/sda:0:42.5%" w).2) = 42 ∧
  (∀ (interface_name : string) (command : list string),
     run_ec (lvm_tool w command) = 0 →
     (_move_merge interface_name command w).1 = Ok "/" ∧
     Percent (job_state (_move_merge interface_name command w).2) = 100 ∧
     loads (_move_merge interface_name command w).2 = S (loads w)).
Proof.
  intros Hd Hi Hp Hx Hint.
  destruct (progress_line_fields device ignored pct Hd Hi Hp)
    as (Hcount & Hsplit & Htext).
  split; [|split; [reflexivity|split; [|split]]].
  2:{ intros device' ignored' pct' Hcolon.
      rewrite _move_callback_unfold, !str_count_app.
      change (str_count ":" ":") with 1%nat.
      change (str_count ":" "%") with 0%nat.
      match goal with
      | |- context [(?k =? 2)%nat] =>
          destruct (Nat.eqb_spec k 2) as [Heq|_]; [lia|reflexivity]
      end. }
  - rewrite _move_callback_unfold, Hcount.
    unfold reported_percent. rewrite Hsplit.
    change (unpack3 [device; ignored; pct +:+ "%"])
      with (Ok (device, ignored, pct +:+ "%")).
    unfold mbind, result_bind. cbn [snd].
    rewrite Htext, Hx, Hint. reflexivity.
  - rewrite _move_callback_percent.
    assert (Hrec : recognised "/dev/sda:0:42.5%" = Some 42)
      by (vm_compute; reflexivity).
    rewrite Hrec. reflexivity.
  - intros interface_name command Hec.
    rewrite _move_merge_unfold. cbv zeta. rewrite Hec.
    change (0 =? 0) with true. cbv iota.
    split; [reflexivity|]. split; [reflexivity|].
    cbn [snd loads set_loads]. f_equal. apply after_run_loads.
Qed.

(** The theorem at the progress line of pvmove for 99.96 percent, and at
    the same report for a device named by its path. *)
Lemma move_callback_progress_line_witness :
  let tool := fun _ : list string =>
    {| run_lines := []; run_ec := 0; run_stdout := ""; run_stderr := "" |} in
  let w := idle_daemon tool in
  _move_callback ("/dev/sda" +:+ ":" +:+ " Moved" +:+ ":" +:+ " 99.96" +:+ "%") w
    = (Ok tt,
       set_worker_q (worker_q w ++ [load_request])
         (set_job_state {| Percent := 100 |} w)) ∧
  _move_callback
    ("/dev/disk/by-path/pci-0000:00:1f.2-ata-1" +:+ ":" +:+ " Moved" +:+ ":"
       +:+ " 99.96" +:+ "%") w
    = (Ok tt, w) ∧
  Percent (job_state (_move_callback "/dev/sda:0:42.5%" w).2) = 42.
Proof.
  intros tool w.
  destruct (move_callback_progress_line w "/dev/sda" " Moved" " 99.96"
              (Finite 7034059667999293 (-46)) 100) as (H1 & _ & H2 & H3 & _);
    [reflexivity | reflexivity | reflexivity
    | vm_compute; reflexivity | vm_compute; reflexivity |].
  split; [exact H1|]. split; [|exact H3].
  apply (H2 "/dev/disk/by-path/pci-0000:00:1f.2-ata-1" " Moved" " 99.96").
  vm_compute. lia.
Defined.

(** ** Lines that are not progress lines *)

Lemma str_split_length c s : length (str_split c s) = S (str_count c s).
Proof.
  induction s as [|x s IH]; [done|]. simpl.
  destruct (Ascii.eqb x c); simpl; [by rewrite IH|].
  destruct (str_split c s) as [|h t]; simpl in *; [done|lia].
Qed.

Lemma has_progress_shape_colons line :
  has_progress_shape line → (2 ≤ str_count ":" line)%nat.
Proof.
  intros (device & ignored & percentage & ->).
  change (":" +:+ ignored +:+ ":" +:+ percentage +:+ "%")
    with (String ":" (ignored +:+ String ":" (percentage +:+ "%"))).
  rewrite str_count_app. simpl. rewrite str_count_app. simpl. lia.
Qed.

(** C9, as stated, fails: a line that does not have exactly two colons is
    not of the progress shape, and the callback drops it without logging
    it; the state, the log included, is what it was. *)
Lemma unrecognised_line_not_logged :
  let tool := fun _ : list string =>
    {| run_lines := []; run_ec := 0; run_stdout := ""; run_stderr := "" |} in
  let line := "  Detected pvmove in progress for /dev/sda" in
  ¬ has_progress_shape line ∧
  _move_callback line (idle_daemon tool) = (Ok tt, idle_daemon tool) ∧
  log (_move_callback line (idle_daemon tool)).2 = [].
Proof.
  intros tool line. split; [|split].
  - intros H%has_progress_shape_colons. vm_compute in H. lia.
  - rewrite _move_callback_unfold. reflexivity.
  - rewrite _move_callback_unfold. reflexivity.
Qed.

(** C9, amended: a line that does not have exactly two colons is ignored
    altogether, without a log entry: the callback returns and the state is
    unchanged.  A line with exactly two colons whose third field, stripped
    and without its last character, is not a float numeral, or reads as
    NaN, is logged and otherwise ignored: the callback returns, the log
    gains the message that names the line, and nothing else changes, so
    [Percent] is what it was and no reload is queued. *)
Theorem move_callback_unrecognised_line (w : daemon) (line_str : string) :
  (str_count ":" line_str ≠ 2%nat → _move_callback line_str w = (Ok tt, w)) ∧
  (∀ device ignore percentage : string,
     str_split ":" line_str = [device; ignore; percentage] →
     py_float (str_drop_last (str_strip percentage)) = Raise ValueError ∨
     py_float (str_drop_last (str_strip percentage)) = Ok NaN →
     _move_callback line_str w =
       (Ok tt,
        set_log
          (log w ++ ["Trying to parse percentage which failed for " +:+ line_str])
          w) ∧
     Percent (job_state (_move_callback line_str w).2) = Percent (job_state w) ∧
     worker_q (_move_callback line_str w).2 = worker_q w).
Proof.
  split.
  - intros Hne. rewrite _move_callback_unfold.
    by destruct (Nat.eqb_spec (str_count ":" line_str) 2).
  - intros device ignore percentage Hsplit Hbad.
    assert (Hcount : str_count ":" line_str = 2%nat).
    { pose proof (str_split_length ":" line_str) as Hlen.
      rewrite Hsplit in Hlen. simpl in Hlen. lia. }
    assert (Hrep : reported_percent line_str = Raise ValueError).
    { unfold reported_percent. rewrite Hsplit.
      change (unpack3 [device; ignore; percentage])
        with (Ok (device, ignore, percentage)).
      unfold mbind, result_bind. cbn [snd].
      destruct Hbad as [-> | ->]; reflexivity. }
    rewrite _move_callback_unfold, Hcount, Hrep. auto.
Qed.

(** The theorem at a line of words with two colons, and at a line with
    none. *)
Lemma move_callback_unrecognised_line_witness :
  let tool := fun _ : list string =>
    {| run_lines := []; run_ec := 0; run_stdout := ""; run_stderr := "" |} in
  let w := idle_daemon tool in
  _move_callback "pvmove: /dev/sda: no extents to move" w =
    (Ok tt,
     set_log
       (log w ++ ["Trying to parse percentage which failed for "
                    +:+ "pvmove: /dev/sda: no extents to move"]) w) ∧
  _move_callback "  Detected pvmove in progress for /dev/sda" w = (Ok tt, w).
Proof.
  intros tool w. split.
  - apply (proj2 (move_callback_unrecognised_line w
                    "pvmove: /dev/sda: no extents to move")
             "pvmove" " /dev/sda" " no extents to move" eq_refl).
    left. vm_compute. reflexivity.
  - apply (proj1 (move_callback_unrecognised_line w
                    "  Detected pvmove in progress for /dev/sda")).
    vm_compute. discriminate.
Defined.

(** ** The main-thread runner *)

Section MThreadRunnerProperties.

Context {A V : Type} (py_None : V).
Context (function : list A → result V) (args : list A).

Lemma call_function_eq : call_function function args = function args.
Proof. unfold call_function. by destruct args. Qed.

Lemma MThreadRunner_init_inv :
  runner_inv py_None function args (MThreadRunner_init py_None).
Proof. split; [reflexivity|]. split; [done|]. intros r [=]. Qed.

Lemma step_inv t s s' :
  runner_inv py_None function args s →
  step function args t s = Some s' →
  runner_inv py_None function args s'.
Proof.
  destruct s as [rc0 exc fc lock idle cs cpc mpc].
  unfold runner_inv, shape_ok, caller_before_wake, lock_is. simpl.
  intros (Hshape & Hdata & Hfin) Hstep.
  unfold step, done_step, main_step, _run in Hstep.
  rewrite call_function_eq in Hstep. simpl in Hstep.
  destruct (function args) as [v|e] eqn:Hf;
    destruct mpc, cs as [|[] [|]]; try discriminate Hshape;
    destruct fc; try discriminate Hshape;
    destruct cpc; try discriminate Hshape;
    destruct idle as [|[|]]; try discriminate Hshape;
    destruct lock as [[]|]; try discriminate Hshape;
    destruct t; simpl in Hstep; try discriminate Hstep;
    destruct Hdata as [Hrc Hexc]; subst;
    injection Hstep as <-; simpl;
    (split; [reflexivity|]); (split; [done|]);
    intros r [=]; subst; done.
Qed.

Lemma exec_inv sched : ∀ s,
  runner_inv py_None function args s →
  runner_inv py_None function args (exec function args sched s).
Proof.
  induction sched as [|t ts IH]; intros s Hinv; [done|].
  simpl. apply IH. destruct (step function args t s) as [s'|] eqn:Hs; simpl.
  - by apply (step_inv t s).
  - done.
Qed.

Lemma exec_app sched1 sched2 : ∀ s,
  exec function args (sched1 ++ sched2) s
    = exec function args sched2 (exec function args sched1 s).
Proof. induction sched1 as [|t ts IH]; intros s; simpl; auto. Qed.

(** A run depends on [function] and [args] only through the outcome
    of the call. *)
Lemma exec_outcome sched : ∀ s,
  exec function args sched s = exec (fun _ : list A => function args) [] sched s.
Proof.
  induction sched as [|t ts IH]; intros s; [done|]. simpl.
  rewrite IH. do 2 f_equal.
  destruct t; [reflexivity|].
  unfold step, main_step, _run. by rewrite call_function_eq.
Qed.

(** From any state a run can reach, the schedule [drain] brings [done]
    to its end with the outcome of the call. *)
Lemma drain_finishes s :
  runner_inv py_None function args s →
  caller (exec function args drain s) = done_finished (function args) ∧
  calls (exec function args drain s) = [MainLoop].
Proof.
  intros Hinv. rewrite exec_outcome.
  destruct s as [rc0 exc fc lock idle cs cpc mpc].
  destruct Hinv as (Hshape & Hdata & Hfin).
  unfold shape_ok, caller_before_wake, lock_is in Hshape.
  simpl in Hshape, Hdata, Hfin.
  destruct (function args) as [v|e] eqn:Hf;
    destruct mpc, cs as [|[] [|]]; try discriminate Hshape;
    destruct fc; try discriminate Hshape;
    destruct cpc; try discriminate Hshape;
    destruct idle as [|[|]]; try discriminate Hshape;
    destruct lock as [[]|]; try discriminate Hshape;
    destruct Hdata as [Hrc Hexc]; subst;
    try (pose proof (Hfin _ eq_refl); subst);
    vm_compute; split; reflexivity.
Qed.

(** C7: in every run of [MThreadRunner(function, args).done()] against
    the main loop, whatever the interleaving, [done] does not finish
    before [function] has been called, the call is made once and on the
    main-loop thread, and [done] finishes with the outcome of that call:
    it returns the value [function] returned, or raises the exception
    [function] raised.  The caller is not stuck: from every state a run
    reaches, letting the main loop and the caller move brings [done] to
    that end. *)
Theorem MThreadRunner_done_returns_function_result (sched : list thread) :
  let s := exec function args sched (MThreadRunner_init py_None) in
  (∀ r : result V,
     caller s = done_finished r →
     r = function args ∧ calls s = [MainLoop] ∧ function_complete s = true) ∧
  (calls s = [] ∨ calls s = [MainLoop]) ∧
  (function_complete s = false →
     caller s ∈ [done_idle_add; done_enter; done_test; done_waiting]) ∧
  caller (exec function args (sched ++ drain) (MThreadRunner_init py_None))
    = done_finished (function args) ∧
  calls (exec function args (sched ++ drain) (MThreadRunner_init py_None))
    = [MainLoop].
Proof.
  intros s.
  assert (Hinv : runner_inv py_None function args s)
    by apply exec_inv, MThreadRunner_init_inv.
  rewrite exec_app. fold s.
  split; [|split; [|split; [|by apply drain_finishes]]].
  - intros r Hr. destruct Hinv as (Hshape & _ & Hfin).
    split; [by apply Hfin|].
    unfold shape_ok, caller_before_wake in Hshape. rewrite Hr in Hshape.
    destruct (main s), (calls s) as [|[] [|]]; try discriminate Hshape;
      destruct (function_complete s);
      simpl in Hshape; rewrite ?andb_false_r in Hshape;
      try discriminate Hshape; done.
  - destruct Hinv as (Hshape & _). unfold shape_ok in Hshape.
    destruct (main s), (calls s) as [|[] [|]]; try discriminate Hshape; auto.
  - intros Hfc. destruct Hinv as (Hshape & _).
    unfold shape_ok, caller_before_wake in Hshape. rewrite Hfc in Hshape.
    destruct (main s), (calls s) as [|[] [|]]; try discriminate Hshape;
      destruct (caller s);
      simpl in Hshape; rewrite ?andb_false_r in Hshape;
      try discriminate Hshape;
      repeat first [apply list_elem_of_here | apply list_elem_of_further].
Qed.

End MThreadRunnerProperties.

(** The theorem at a function that raises, under a schedule in which the
    caller goes to sleep before the main loop has run the function. *)
Lemma MThreadRunner_done_returns_function_result_witness :
  let function := fun _ : list Z => @Raise Z ValueError in
  let sched := [Caller; Caller; Caller; MainLoop; Caller; MainLoop] in
  caller (exec function [1] (sched ++ drain) (MThreadRunner_init 0))
    = done_finished (Raise ValueError) ∧
  calls (exec function [1] (sched ++ drain) (MThreadRunner_init 0))
    = [MainLoop].
Proof.
  intros function sched.
  exact (proj2 (proj2 (proj2
           (MThreadRunner_done_returns_function_result 0 function [1] sched)))).
Defined.

(** * Further properties of utils.py *)

(** ** Sizes *)

(** X1: [round_size] returns the least multiple of 512 that is not below
    its argument, so it adds less than 512 and rounding twice changes
    nothing. *)
Theorem round_size_least_multiple (size_bytes : Z) :
  round_size size_bytes mod 512 = 0 ∧
  size_bytes ≤ round_size size_bytes < size_bytes + 512 ∧
  (∀ m : Z, m mod 512 = 0 → size_bytes ≤ m → round_size size_bytes ≤ m) ∧
  round_size (round_size size_bytes) = round_size size_bytes.
Proof.
  assert (Hmult : round_size size_bytes mod 512 = 0).
  { unfold round_size. cbv zeta.
    destruct (Z.eqb_spec (size_bytes mod 512) 0) as [Hz|Hz]; [done|].
    rewrite (Z.div_mod size_bytes 512) at 1 by lia.
    replace (512 * (size_bytes `div` 512) + size_bytes `mod` 512 + 512
             - size_bytes `mod` 512)
      with ((size_bytes `div` 512 + 1) * 512) by lia.
    apply Z.mod_mul. lia. }
  split; [exact Hmult|].
  pose proof (Z.mod_pos_bound size_bytes 512 ltac:(lia)) as Hb.
  split; [|split].
  - unfold round_size. cbv zeta.
    destruct (Z.eqb_spec (size_bytes mod 512) 0); lia.
  - intros m Hm Hle. unfold round_size. cbv zeta.
    destruct (Z.eqb_spec (size_bytes mod 512) 0) as [Hz|Hz]; [done|].
    pose proof (Z.div_mod size_bytes 512 ltac:(lia)) as Hs.
    pose proof (Z.div_mod m 512 ltac:(lia)) as Hmm.
    rewrite Hm in Hmm.
    assert (size_bytes `div` 512 < m `div` 512) by lia.
    lia.
  - unfold round_size at 1. cbv zeta. by rewrite Hmult.
Qed.

(** ** Tags *)

Lemma str_contains_char c s :
  str_contains (String c "") s = negb (str_count c s =? 0)%nat.
Proof.
  induction s as [|a s IH]; [done|]. simpl.
  rewrite IH, (Ascii.eqb_sym c a), andb_true_r.
  destruct (Ascii.eqb a c); [done|]. simpl. done.
Qed.

Lemma str_split_nonempty c s : str_split c s ≠ [].
Proof.
  pose proof (str_split_length c s) as H. by destruct (str_split c s).
Qed.

Lemma str_join_cons sep x y l :
  str_join sep (x :: y :: l) = x +:+ sep +:+ str_join sep (y :: l).
Proof. reflexivity. Qed.

(** Splitting at a character and joining with it gives the string back. *)
Lemma str_join_split c s : str_join (String c "") (str_split c s) = s.
Proof.
  induction s as [|a s IH]; [done|]. simpl.
  destruct (Ascii.eqb_spec a c) as [->|Hne].
  - destruct (str_split c s) as [|h t] eqn:E; [by apply str_split_nonempty in E|].
    rewrite str_join_cons, IH. reflexivity.
  - destruct (str_split c s) as [|h t] eqn:E; [by apply str_split_nonempty in E|].
    destruct t as [|y t].
    + simpl in *. by rewrite IH.
    + rewrite str_join_cons in *. rewrite str_app_cons. by rewrite IH.
Qed.

Lemma str_split_no_sep_inside c s :
  Forall (fun t => str_count c t = 0%nat) (str_split c s).
Proof.
  induction s as [|a s IH]; [by repeat constructor|]. simpl.
  destruct (Ascii.eqb_spec a c) as [->|Hne].
  - by constructor.
  - destruct (str_split c s) as [|h t] eqn:E; [by apply str_split_nonempty in E|].
    apply Forall_cons in IH as [Hh Ht]. constructor; [|done].
    simpl. rewrite Hh. by destruct (Ascii.eqb_spec a c).
Qed.

(** X2: the tags that [parse_tags] returns, joined with commas, are the
    string it was given; none of them holds a comma; and the result is
    empty only for the empty string. *)
Theorem parse_tags_join (tags : string) :
  str_join "," (parse_tags tags) = tags ∧
  Forall (fun t => str_count "," t = 0%nat) (parse_tags tags) ∧
  (parse_tags tags = [] ↔ tags = "").
Proof.
  unfold parse_tags. destruct tags as [|a tags]; [by repeat split|].
  change (0 <? String.length (String a tags))%nat with true. cbv iota.
  rewrite str_contains_char.
  destruct (Nat.eqb_spec (str_count "," (String a tags)) 0) as [Hz|Hnz];
    simpl negb; cbv iota.
  - split; [done|]. split; [by repeat constructor|]. split; discriminate.
  - split; [apply str_join_split|]. split; [apply str_split_no_sep_inside|].
    split; [|discriminate]. intros H. by apply str_split_nonempty in H.
Qed.

(** ** Names *)

Lemma title_char_underscore (b : bool) (a : ascii) :
  Ascii.eqb (if b then to_lower a else to_upper a) "_" = Ascii.eqb a "_".
Proof.
  destruct b; destruct a as [[] [] [] [] [] [] [] []]; reflexivity.
Qed.

Lemma str_title_from_count b s :
  str_count "_" (str_title_from b s) = str_count "_" s ∧
  String.length (str_title_from b s) = String.length s.
Proof.
  revert b. induction s as [|a s IH]; intros b; [done|]. simpl.
  destruct (IH (is_upper a || is_lower a)) as [-> ->].
  by rewrite title_char_underscore.
Qed.

Lemma str_length_app a b :
  String.length (a +:+ b) = (String.length a + String.length b)%nat.
Proof.
  induction a as [|x a IH]; [done|]. rewrite str_app_cons. simpl. by rewrite IH.
Qed.

Lemma str_join_empty_sep l :
  str_count "_" (str_join "" l) = sum_list (map (str_count "_") l) ∧
  String.length (str_join "" l) = sum_list (map String.length l).
Proof.
  induction l as [|x [|y l] IH]; [done| |].
  - simpl. split; lia.
  - rewrite str_join_cons, str_app_nil_l, str_count_app, str_length_app.
    destruct IH as [-> ->]. done.
Qed.

Lemma str_split_lengths c s :
  (sum_list (map String.length (str_split c s)) + str_count c s)%nat
    = String.length s.
Proof.
  induction s as [|a s IH]; [done|]. simpl.
  destruct (Ascii.eqb a c); simpl; [lia|].
  destruct (str_split c s) as [|h t]; simpl in *; lia.
Qed.

Lemma case_keeps_ascii a :
  (nat_of_ascii a <? 128)%nat = true →
  (nat_of_ascii (to_upper a) <? 128)%nat = true ∧
  (nat_of_ascii (to_lower a) <? 128)%nat = true.
Proof.
  destruct a as [[] [] [] [] [] [] [] []]; vm_compute; intros H;
    first [discriminate H | by split].
Qed.

Lemma str_title_from_isascii s : ∀ prev_cased,
  str_isascii s = true → str_isascii (str_title_from prev_cased s) = true.
Proof.
  induction s as [|a s IH]; intros prev_cased; [done|].
  cbn [str_isascii str_title_from]. intros [Ha Hs]%andb_true_iff.
  destruct (case_keeps_ascii a Ha) as [Hu Hl].
  rewrite (IH _ Hs). by destruct prev_cased; rewrite ?Hu, ?Hl.
Qed.

Lemma str_split_isascii c s :
  str_isascii s = true →
  Forall (fun x => str_isascii x = true) (str_split c s).
Proof.
  induction s as [|a s IH]; [by repeat constructor|].
  cbn [str_isascii str_split]. intros [Ha Hs]%andb_true_iff.
  specialize (IH Hs). destruct (Ascii.eqb a c); [by constructor|].
  destruct (str_split c s) as [|h t].
  - constructor; [|done]. cbn [str_isascii]. by rewrite Ha.
  - apply Forall_cons in IH as [Hh Ht]. constructor; [|done].
    cbn [str_isascii]. by rewrite Ha, Hh.
Qed.

Lemma str_isascii_app a b :
  str_isascii (a +:+ b) = str_isascii a && str_isascii b.
Proof.
  induction a as [|x a IH]; [done|].
  rewrite str_app_cons. cbn [str_isascii]. by rewrite IH, andb_assoc.
Qed.

Lemma str_join_isascii l :
  Forall (fun x => str_isascii x = true) l → str_isascii (str_join "" l) = true.
Proof.
  induction l as [|x [|y l] IH]; intros Hall; [done| |].
  - by apply Forall_cons in Hall as [? _].
  - apply Forall_cons in Hall as [Hx Hall].
    rewrite str_join_cons, str_app_nil_l, str_isascii_app, Hx. by apply IH.
Qed.

(** X3: on ASCII text [_snake_to_pascal] drops every underscore and
    nothing else: the result holds no underscore, is shorter than the
    argument by the number of underscores in it, and is ASCII text. *)
Theorem snake_to_pascal_drops_underscores (s : string) :
  str_isascii s = true →
  str_count "_" (_snake_to_pascal s) = 0%nat ∧
  (String.length (_snake_to_pascal s) + str_count "_" s)%nat
    = String.length s ∧
  str_isascii (_snake_to_pascal s) = true.
Proof.
  intros Hascii.
  assert (Hres : str_isascii (_snake_to_pascal s) = true).
  { unfold _snake_to_pascal. apply str_join_isascii.
    apply Forall_fmap. eapply Forall_impl; [by apply str_split_isascii|].
    intros x Hx. by apply str_title_from_isascii. }
  cut (str_count "_" (_snake_to_pascal s) = 0%nat ∧
       (String.length (_snake_to_pascal s) + str_count "_" s)%nat
         = String.length s).
  { intros [? ?]. by repeat split. }
  clear Hascii Hres.
  unfold _snake_to_pascal.
  destruct (str_join_empty_sep (map str_title (str_split "_" s))) as [-> ->].
  rewrite !map_map.
  assert (Hc : map (fun x => str_count "_" (str_title x)) (str_split "_" s)
               = map (fun _ => 0%nat) (str_split "_" s)).
  { pose proof (str_split_no_sep_inside "_" s) as Hf.
    induction Hf as [|x l Hx _ IH]; [done|]. simpl.
    rewrite IH. f_equal. unfold str_title.
    by rewrite (proj1 (str_title_from_count false x)). }
  assert (Hl : map (fun x => String.length (str_title x)) (str_split "_" s)
               = map String.length (str_split "_" s)).
  { apply map_ext. intros x. apply str_title_from_count. }
  rewrite Hc, Hl. split.
  - clear Hc Hl. induction (str_split "_" s) as [|x l IH]; [done|]. exact IH.
  - apply str_split_lengths.
Qed.

Lemma snake_to_pascal_drops_underscores_witness :
  str_count "_" (_snake_to_pascal "vg_extent_size") = 0%nat ∧
  (String.length (_snake_to_pascal "vg_extent_size")
     + str_count "_" "vg_extent_size")%nat
    = String.length "vg_extent_size" ∧
  str_isascii (_snake_to_pascal "vg_extent_size") = true.
Proof.
  apply (snake_to_pascal_drops_underscores "vg_extent_size"). reflexivity.
Defined.

Lemma str_prefix_shorter p q s :
  str_prefix (p +:+ q) s = true → str_prefix p s = true.
Proof.
  revert s. induction p as [|a p IH]; intros s; [done|].
  rewrite str_app_cons. destruct s as [|b s]; [done|]. simpl.
  intros [-> H]%andb_true_iff. simpl. by apply IH.
Qed.

(** X4: [lvm_column_key] accepts exactly the keys that start with [lv_],
    [pool_], [move_], [vdo_], [pv] or [vg], that end with [_percent], or
    that are one of ten listed names; the tests for [vg_] and [pv_] add
    nothing to the tests for [vg] and [pv]. *)
Theorem lvm_column_key_accepts (key : string) :
  lvm_column_key key =
    (str_prefix "lv_" key || str_prefix "pool_" key || str_prefix "move_" key ||
     str_prefix "vdo_" key || str_prefix "pv" key || str_prefix "vg" key ||
     str_suffix "_percent" key ||
     bool_decide (key ∈ ["origin_uuid"; "segtype"; "origin"; "data_lv";
                         "metadata_lv"; "max_lv"; "max_pv"; "snap_count";
                         "dev_size"; "pe_start"])).
Proof.
  unfold lvm_column_key.
  pose proof (str_prefix_shorter "vg" "_" key) as Hvg.
  pose proof (str_prefix_shorter "pv" "_" key) as Hpv.
  change ("vg" +:+ "_") with "vg_" in Hvg.
  change ("pv" +:+ "_") with "pv_" in Hpv.
  assert (Hin : bool_decide (key ∈ ["origin_uuid"; "segtype"; "origin"; "data_lv";
                         "metadata_lv"; "max_lv"; "max_pv"; "snap_count";
                         "dev_size"; "pe_start"])
          = bool_decide (key ∈ ["origin_uuid"; "segtype"; "origin"; "data_lv";
                                "metadata_lv"]) ||
            bool_decide (key ∈ ["max_lv"; "max_pv"; "snap_count"]) ||
            bool_decide (key ∈ ["dev_size"; "pe_start"])).
  { rewrite <-!bool_decide_or. apply bool_decide_ext.
    rewrite !elem_of_cons, !elem_of_nil. tauto. }
  rewrite Hin.
  destruct (str_prefix "lv_" key), (str_prefix "vg_" key),
    (str_prefix "pool_" key), (str_suffix "_percent" key),
    (str_prefix "move_" key), (str_prefix "vdo_" key),
    (str_prefix "pv_" key), (str_prefix "pv" key), (str_prefix "vg" key),
    (bool_decide (key ∈ ["origin_uuid"; "segtype"; "origin"; "data_lv";
                         "metadata_lv"])),
    (bool_decide (key ∈ ["max_lv"; "max_pv"; "snap_count"])),
    (bool_decide (key ∈ ["dev_size"; "pe_start"]));
    simpl; try reflexivity;
    try (by specialize (Hvg eq_refl)); try (by specialize (Hpv eq_refl)).
Qed.

(** ** More on the command-line helpers *)



(** X6: the two command wrappers report a failed command alike: for the
    same interface, exit code and stderr text, [_handle_execute] raises
    the exception [_move_merge] raises; it reloads nothing then, and on
    exit code 0 it reloads once and raises nothing. *)
Theorem command_failures_reported_alike
    (interface_name : string) (command : list string) (out : string)
    (w w0 : daemon) :
  let r := lvm_tool w command in
  (run_ec r ≠ 0 →
     (_handle_execute (run_ec r) out (run_stderr r) interface_name w0).1
       = Raise (DBusException
           [interface_name;
            "Exit code " +:+ pretty (run_ec r) +:+ ", stderr = " +:+ run_stderr r]) ∧
     (∃ e, (_move_merge interface_name command w).1 = Raise e ∧
           (_handle_execute (run_ec r) out (run_stderr r) interface_name w0).1
             = Raise e) ∧
     (_handle_execute (run_ec r) out (run_stderr r) interface_name w0).2 = w0) ∧
  (∀ err : string,
     _handle_execute 0 out err interface_name w0
       = (Ok tt, set_loads (S (loads w0)) w0)).
Proof.
  intros r. split; [|reflexivity].
  intros Hec. unfold _handle_execute. rewrite _move_merge_unfold. cbv zeta.
  fold r. destruct (Z.eqb_spec (run_ec r) 0) as [?|_]; [done|].
  split; [reflexivity|]. split; [|reflexivity].
  eexists. split; reflexivity.
Qed.

Lemma command_failures_reported_alike_witness :
  let tool := fun _ : list string =>
    {| run_lines := []; run_ec := 5; run_stdout := "";
       run_stderr := "Volume group vg0 not found" |} in
  (_handle_execute 5 "" "Volume group vg0 not found" "com.redhat.lvmdbus1.Vg"
     (idle_daemon tool)).1
    = Raise (DBusException
        ["com.redhat.lvmdbus1.Vg";
         "Exit code " +:+ pretty 5 +:+ ", stderr = " +:+ "Volume group vg0 not found"]).
Proof.
  intros tool.
  apply (proj1 (command_failures_reported_alike "com.redhat.lvmdbus1.Vg"
                  ["vgremove"; "vg0"] "" (idle_daemon tool) (idle_daemon tool))).
  simpl. lia.
Defined.

(** The arguments [pv_dest_ranges] appends: one for each destination, in
    order, each starting with the device of the destination. *)
Lemma pv_range_append_shape cmd device start end_ :
  ∃ a, pv_range_append cmd device start end_ = cmd ++ [a] ∧
       str_prefix device a = true.
Proof.
  unfold pv_range_append.
  destruct ((start =? 0) && (end_ =? 0)).
  - exists device. split; [done|].
    rewrite <-(str_app_nil_r device) at 2. apply str_prefix_app.
  - destruct (negb (start =? 0) && (end_ =? 0)); eexists;
      (split; [reflexivity|apply str_prefix_app]).
Qed.

Lemma pv_dest_ranges_shape dests : ∀ cmd,
  ∃ args, pv_dest_ranges cmd dests = cmd ++ args ∧
          Forall2 (fun a d => str_prefix d.1.1 a = true) args dests.
Proof.
  induction dests as [|d dests IH]; intros cmd.
  - exists []. split; [by rewrite app_nil_r|constructor].
  - unfold pv_dest_ranges. simpl.
    destruct (pv_range_append_shape cmd d.1.1 d.1.2 d.2) as (a & -> & Ha).
    destruct (IH (cmd ++ [a])) as (args & Hargs & Hall).
    unfold pv_dest_ranges in Hargs. rewrite Hargs.
    exists (a :: args). split; [by rewrite <-app_assoc|by constructor].
Qed.

(** X7: the command [pv_move_lv_cmd] builds is [pvmove -i 1], the
    arguments of the options, [-n] with the name when a non-empty name is
    given, one argument for the source and one for each destination in
    order; the argument of a volume starts with its device. *)
Theorem pv_move_lv_cmd_shape
    {Options : Type} (options_to_cli_args : Options → list string)
    (move_options : Options) (lv_full_name : option string)
    (pv_source : string) (pv_source_range : Z * Z)
    (pv_dest_range_list : list (string * Z * Z)) :
  ∃ (name_args : list string) (src : string) (dests : list string),
    pv_move_lv_cmd options_to_cli_args move_options lv_full_name pv_source
        pv_source_range pv_dest_range_list
      = ["pvmove"; "-i"; "1"] ++ options_to_cli_args move_options
          ++ name_args ++ src :: dests ∧
    name_args = match lv_full_name with
                | Some (String a n) => ["-n"; String a n]
                | _ => []
                end ∧
    str_prefix pv_source src = true ∧
    Forall2 (fun a d => str_prefix d.1.1 a = true) dests pv_dest_range_list.
Proof.
  unfold pv_move_lv_cmd. cbv zeta.
  set (base := match lv_full_name with
               | Some (String a n) => _
               | _ => _
               end).
  destruct (pv_range_append_shape base pv_source pv_source_range.1
              pv_source_range.2) as (src & -> & Hsrc).
  destruct (pv_dest_ranges_shape pv_dest_range_list (base ++ [src]))
    as (dests & -> & Hd).
  eexists _, src, dests. split; [|split; [reflexivity|by split]].
  unfold base. destruct lv_full_name as [[|a n]|]; simpl;
    rewrite <-?app_assoc; simpl; by rewrite ?app_nil_r.
Qed.

(** * Further properties of background.py *)

(** When every destination resolves, the loop of [move] returns their
    lvm identifiers with the ranges, in order, and changes nothing. *)
Lemma resolve_dests_resolved interface_name dests : ∀ acc w resolved,
  Forall2 (fun pr d => ∃ o, om w !! pr.1.1 = Some o ∧ d = (lvm_id o, pr.1.2, pr.2))
    dests resolved →
  resolve_dests interface_name dests acc w = (Ok (acc ++ resolved), w).
Proof.
  induction dests as [|pr dests IH]; intros acc w resolved Hall.
  - apply Forall2_nil_inv_l in Hall as ->. by rewrite app_nil_r.
  - apply Forall2_cons_inv_l in Hall as (d & resolved' & (o & Ho & ->) & Hall & ->).
    simpl. unfold bind, get_object_by_path. rewrite Ho.
    rewrite (IH _ w resolved' Hall). by rewrite <-app_assoc.
Qed.

(** X8: when the source and every destination resolve, [move] behaves as
    [_move_merge] on the pvmove command built from the lvm identifiers of
    the resolved objects, the destinations in the order given. *)
Theorem move_resolved_runs_pvmove
    {Options : Type} (options_to_cli_args : Options → list string)
    (interface_name : string) (lv_name : option string) (pv_src_obj : string)
    (pv_source_range : Z * Z) (pv_dests_and_ranges : list (string * Z * Z))
    (move_options : Options) (w : daemon)
    (src : DbusObject) (resolved : list (string * Z * Z)) :
  om w !! pv_src_obj = Some src →
  Forall2
    (fun pr d => ∃ o, om w !! pr.1.1 = Some o ∧ d = (lvm_id o, pr.1.2, pr.2))
    pv_dests_and_ranges resolved →
  move options_to_cli_args interface_name lv_name pv_src_obj pv_source_range
    pv_dests_and_ranges move_options w
    = _move_merge interface_name
        (pv_move_lv_cmd options_to_cli_args move_options lv_name
           (lvm_id src) pv_source_range resolved) w.
Proof.
  intros Hsrc Hall.
  unfold move, bind at 1, get_object_by_path at 1. rewrite Hsrc.
  unfold bind at 1.
  rewrite (resolve_dests_resolved interface_name _ [] w resolved Hall).
  reflexivity.
Qed.

Lemma move_resolved_runs_pvmove_witness :
  let tool := fun _ : list string =>
    {| run_lines := []; run_ec := 0; run_stdout := ""; run_stderr := "" |} in
  let w := idle_daemon tool in
  move (fun _ : unit => []) "com.redhat.lvmdbus1.Pv" (Some "vg0/lv0")
    "/com/redhat/lvmdbus1/Pv/0" (0, 0)
    [("/com/redhat/lvmdbus1/Pv/0", 10, 20)] tt w
  = _move_merge "com.redhat.lvmdbus1.Pv"
      (pv_move_lv_cmd (fun _ : unit => []) tt (Some "vg0/lv0") "/dev/sda"
         (0, 0) [("/dev/sda", 10, 20)]) w.
Proof.
  intros tool w.
  apply (move_resolved_runs_pvmove (fun _ : unit => []) "com.redhat.lvmdbus1.Pv"
           (Some "vg0/lv0") "/com/redhat/lvmdbus1/Pv/0" (0, 0)
           [("/com/redhat/lvmdbus1/Pv/0", 10, 20)] tt w
           {| lvm_id := "/dev/sda" |} [("/dev/sda", 10, 20)]).
  - reflexivity.
  - constructor; [|constructor]. exists {| lvm_id := "/dev/sda" |}. by split.
Defined.



(** X10: whatever the exit code, a run of [_move_merge] leaves exactly
    one new record in the store, completed with the exit code, the two
    captured streams and the command, hands its reference to the recorder
    once, and starts one process; it returns ['/'] exactly when the exit
    code is 0. *)
Theorem move_merge_always_records
    (interface_name : string) (command : list string) (w : daemon) :
  let r := lvm_tool w command in
  let w' := (_move_merge interface_name command w).2 in
  (∃ t1 : pyfloat,
     objects w' =
       objects w ++
         [{| meta_start := PyFloat (wall w (clock w));
             meta_ended := PyFloat t1;
             meta_cmd := command;
             meta_ec := Some (run_ec r);
             meta_stdout := Some (run_stdout r);
             meta_stderr := Some (run_stderr r) |}]) ∧
  flightrecorder w'
    = flightrecorder_append (flightrecorder w) (length (objects w)) ∧
  spawned w' = spawned w ++ [command] ∧
  ((_move_merge interface_name command w).1 = Ok "/" ↔ run_ec r = 0).
Proof.
  intros r w'. unfold w'. rewrite _move_merge_unfold. cbv zeta. fold r.
  destruct (after_run_spec command w) as (t1 & Hobj & Hrec & Hsp).
  destruct (Z.eqb_spec (run_ec r) 0) as [Hz|Hz]; simpl.
  - split; [by exists t1|]. by repeat split.
  - split; [by exists t1|]. split; [done|]. split; [done|]. by split.
Qed.

Lemma _move_callback_queue_log l w :
  worker_q (_move_callback l w).2
    = worker_q w ++ replicate (length (reports [l])) load_request ∧
  ∃ entries : list string,
    log (_move_callback l w).2 = log w ++ entries ∧
    (length entries + length (reports [l]) ≤ 1)%nat.
Proof.
  unfold reports. simpl omap. unfold recognised.
  rewrite _move_callback_unfold.
  destruct (str_count ":" l =? 2)%nat.
  - destruct (reported_percent l) as [p|[]]; simpl;
      (split; [by rewrite ?app_nil_r|]);
      first [ exists []; rewrite app_nil_r; split; [reflexivity|simpl; lia]
            | eexists [_]; split; [reflexivity|simpl; lia] ].
  - simpl. split; [by rewrite app_nil_r|]. exists [].
    rewrite app_nil_r. split; [reflexivity|simpl; lia].
Qed.

(** X11: while the command runs, one reload request is queued for each
    recognised progress line and nothing else is queued; the log only
    grows, by at most one entry for each line that is not recognised. *)
Theorem progress_reloads_queued (lines : list string) (w : daemon) :
  worker_q (deliver _move_callback lines w)
    = worker_q w ++ replicate (length (reports lines)) load_request ∧
  ∃ entries : list string,
    log (deliver _move_callback lines w) = log w ++ entries ∧
    (length entries + length (reports lines) ≤ length lines)%nat.
Proof.
  revert w. induction lines as [|l ls IH]; intros w.
  - simpl. rewrite app_nil_r. split; [done|]. exists []. by rewrite app_nil_r.
  - simpl deliver.
    destruct (IH (_move_callback l w).2) as (Hq & entries & Hlog & Hlen).
    destruct (_move_callback_queue_log l w) as (Hq1 & e1 & Hlog1 & Hlen1).
    rewrite Hq, Hlog, Hq1, Hlog1.
    assert (Hr : reports (l :: ls) = reports [l] ++ reports ls).
    { unfold reports. by rewrite <-omap_app. }
    rewrite Hr, length_app, replicate_add, <-!app_assoc.
    split; [done|]. exists (e1 ++ entries). split; [done|].
    rewrite length_app. cbn [length]. lia.
Qed.

(** X12: a progress line whose percentage reads as an infinity makes the
    callback raise [OverflowError], which its [except ValueError] does not
    catch; the state is left as it was. *)
Theorem move_callback_infinite_percentage
    (w : daemon) (device ignored pct : string) (negative : bool) :
  str_count ":" device = 0%nat →
  str_count ":" ignored = 0%nat →
  str_count ":" pct = 0%nat →
  py_float (str_lstrip pct) = Ok (Inf negative) →
  _move_callback (device +:+ ":" +:+ ignored +:+ ":" +:+ pct +:+ "%") w
    = (Raise OverflowError, w).
Proof.
  intros Hd Hi Hp Hx.
  destruct (progress_line_fields device ignored pct Hd Hi Hp)
    as (Hcount & Hsplit & Htext).
  rewrite _move_callback_unfold, Hcount.
  unfold reported_percent. rewrite Hsplit.
  change (unpack3 [device; ignored; pct +:+ "%"])
    with (Ok (device, ignored, pct +:+ "%")).
  unfold mbind, result_bind. cbn [snd].
  rewrite Htext, Hx. reflexivity.
Qed.

Lemma move_callback_infinite_percentage_witness :
  let tool := fun _ : list string =>
    {| run_lines := []; run_ec := 0; run_stdout := ""; run_stderr := "" |} in
  _move_callback ("/dev/sda" +:+ ":" +:+ " Moved" +:+ ":" +:+ " 1e999" +:+ "%")
    (idle_daemon tool)
    = (Raise OverflowError, idle_daemon tool).
Proof.
  intros tool.
  apply (move_callback_infinite_percentage (idle_daemon tool) "/dev/sda"
           " Moved" " 1e999" false);
    [reflexivity | reflexivity | reflexivity | vm_compute; reflexivity].
Defined.

Lemma str_lstrip_snoc p c :
  py_isspace c = false →
  str_lstrip (p +:+ String c "") = str_lstrip p +:+ String c "".
Proof.
  intros Hc. induction p as [|x p IH]; [simpl; by rewrite Hc|].
  rewrite str_app_cons. simpl. destruct (py_isspace x); [exact IH|done].
Qed.

Lemma str_rstrip_snoc q c :
  py_isspace c = false →
  str_rstrip (q +:+ String c "") = q +:+ String c "".
Proof.
  intros Hc. induction q as [|x q IH]; [simpl; by rewrite Hc|].
  rewrite str_app_cons. simpl. rewrite IH. destruct q; reflexivity.
Qed.

(** X13: the callback drops the last character of the third field
    without looking at it: with any character that is neither white space
    nor a colon in the place of the percent sign, the line stands for the
    same integer, so it sets [Percent] and queues a reload just the
    same. *)
Theorem move_callback_last_character_unchecked
    (w : daemon) (device ignored pct : string) (c : ascii) :
  str_count ":" device = 0%nat →
  str_count ":" ignored = 0%nat →
  str_count ":" pct = 0%nat →
  c ≠ ":"%char →
  py_isspace c = false →
  let line := device +:+ ":" +:+ ignored +:+ ":" +:+ pct +:+ String c "" in
  let line' := device +:+ ":" +:+ ignored +:+ ":" +:+ pct +:+ "%" in
  recognised line = recognised line' ∧
  Percent (job_state (_move_callback line w).2)
    = Percent (job_state (_move_callback line' w).2) ∧
  worker_q (_move_callback line w).2 = worker_q (_move_callback line' w).2.
Proof.
  intros Hd Hi Hp Hc Hsp line line'.
  destruct (progress_line_fields device ignored pct Hd Hi Hp)
    as (Hcount' & Hsplit' & Htext').
  fold line' in Hcount', Hsplit'.
  assert (Hlast : str_count ":" (String c "") = 0%nat).
  { simpl. by destruct (Ascii.eqb_spec c ":"). }
  assert (Hcount : str_count ":" line = 2%nat).
  { unfold line. rewrite !str_count_app, Hd, Hi, Hp, Hlast. reflexivity. }
  assert (Hsplit : str_split ":" line = [device; ignored; pct +:+ String c ""]).
  { unfold line.
    change (":" +:+ ignored +:+ ":" +:+ pct +:+ String c "")
      with (String ":" (ignored +:+ String ":" (pct +:+ String c ""))).
    rewrite !str_split_app by done.
    rewrite str_split_no_sep; [done|].
    by rewrite str_count_app, Hp, Hlast. }
  assert (Htext : str_drop_last (str_strip (pct +:+ String c "")) = str_lstrip pct).
  { unfold str_strip.
    by rewrite str_lstrip_snoc, str_rstrip_snoc, str_drop_last_snoc. }
  assert (Hrep : reported_percent line = reported_percent line').
  { unfold reported_percent. rewrite Hsplit, Hsplit'.
    change (unpack3 [device; ignored; pct +:+ String c ""])
      with (Ok (device, ignored, pct +:+ String c "")).
    change (unpack3 [device; ignored; pct +:+ "%"])
      with (Ok (device, ignored, pct +:+ "%")).
    unfold mbind, result_bind. cbn [snd]. by rewrite Htext, Htext'. }
  assert (Hrec : recognised line = recognised line').
  { unfold recognised. by rewrite Hcount, Hcount', Hrep. }
  split; [exact Hrec|]. split.
  - by rewrite !_move_callback_percent, Hrec.
  - rewrite !_move_callback_unfold, Hcount, Hcount', Hrep.
    simpl. by destruct (reported_percent line') as [p|[]].
Qed.

Lemma move_callback_last_character_unchecked_witness :
  let tool := fun _ : list string =>
    {| run_lines := []; run_ec := 0; run_stdout := ""; run_stderr := "" |} in
  let w := idle_daemon tool in
  Percent (job_state (_move_callback
    ("/dev/sda" +:+ ":" +:+ " Moved" +:+ ":" +:+ " 42.5" +:+ "7") w).2)
  = Percent (job_state (_move_callback
    ("/dev/sda" +:+ ":" +:+ " Moved" +:+ ":" +:+ " 42.5" +:+ "%") w).2).
Proof.
  intros tool w.
  apply (move_callback_last_character_unchecked w "/dev/sda" " Moved" " 42.5" "7");
    [reflexivity | reflexivity | reflexivity | by intros [=] | reflexivity].
Defined.

(** X14: classification and allocation together: the generator chosen
    for a logical volume is the one of the hidden, thin-pool, vdo-pool,
    cache-pool or plain category, never the one of physical volumes,
    volume groups or jobs; the path it returns carries the prefix and the
    counter of that category, and the counters of all other categories
    are left as they were. *)
Theorem lv_paths_use_lv_counters
    (name : string) (meta : string * layout) (g : generator)
    (cfg : obj_paths) (s : path_ids) :
  lv_object_path_method name meta = Ok g →
  ∃ c : category,
    c ∈ [HiddenLV; ThinPool; VdoPool; CachePool; LV] ∧
    g = generator_of c ∧
    (g cfg s).1 = prefix_of cfg c +:+ "/" +:+ pretty (counter_of s c) ∧
    counter_of (g cfg s).2 c = N.succ (counter_of s c) ∧
    ∀ c', c' ≠ c → counter_of (g cfg s).2 c' = counter_of s c'.
Proof.
  intros Hg.
  assert (Hc : ∃ c, c ∈ [HiddenLV; ThinPool; VdoPool; CachePool; LV] ∧
                    g = generator_of c).
  { unfold lv_object_path_method in Hg.
    destruct name as [|n0 rest]; [discriminate Hg|]. simpl in Hg.
    destruct (Ascii.eqb n0 "[").
    { injection Hg as <-. exists HiddenLV. split; [in_five|done]. }
    destruct meta as [[|t attr] lay]; [discriminate Hg|]. simpl in Hg.
    destruct (Ascii.eqb t "t").
    { injection Hg as <-. exists ThinPool. split; [in_five|done]. }
    destruct (Ascii.eqb t "d").
    { injection Hg as <-. exists VdoPool. split; [in_five|done]. }
    destruct (Ascii.eqb t "C" && py_in "pool" lay); injection Hg as <-.
    - exists CachePool. split; [in_five|done].
    - exists LV. split; [in_five|done]. }
  destruct Hc as (c & Hin & ->). exists c. split; [done|]. split; [done|].
  destruct (generator_of_spec cfg c s) as [Hp Hcnt]. split; [exact Hp|]. split.
  - rewrite Hcnt, decide_True by done. lia.
  - intros c' Hne. rewrite Hcnt, decide_False by done. lia.
Qed.

Lemma lv_paths_use_lv_counters_witness :
  let cfg := {| PV_OBJ_PATH := "/com/redhat/lvmdbus1/Pv";
                VG_OBJ_PATH := "/com/redhat/lvmdbus1/Vg";
                LV_OBJ_PATH := "/com/redhat/lvmdbus1/Lv";
                THIN_POOL_PATH := "/com/redhat/lvmdbus1/ThinPool";
                VDO_POOL_PATH := "/com/redhat/lvmdbus1/VdoPool";
                CACHE_POOL_PATH := "/com/redhat/lvmdbus1/CachePool";
                HIDDEN_LV_PATH := "/com/redhat/lvmdbus1/HiddenLv";
                JOB_OBJ_PATH := "/com/redhat/lvmdbus1/Job" |} in
  let s := {| pv_id := 3; vg_id := 1; lv_id := 7; thin_id := 2; vdo_id := 0;
              cache_pool_id := 0; hidden_lv := 9; job_id := 4 |} in
  ∃ c : category,
    c ∈ [HiddenLV; ThinPool; VdoPool; CachePool; LV] ∧
    _thin_pool_obj_path_generate = generator_of c ∧
    (_thin_pool_obj_path_generate cfg s).1
      = prefix_of cfg c +:+ "/" +:+ pretty (counter_of s c) ∧
    counter_of (_thin_pool_obj_path_generate cfg s).2 c = N.succ (counter_of s c) ∧
    ∀ c', c' ≠ c →
      counter_of (_thin_pool_obj_path_generate cfg s).2 c' = counter_of s c'.
Proof.
  intros cfg s.
  apply (lv_paths_use_lv_counters "pool0"
      ("twi-a-tz--", LayoutList ["thin"; "pool"])).
  reflexivity.
Defined.

(** * Properties of the validators *)

Lemma chars_within_incl (a b : string) :
  (∀ c, char_in c a = true → char_in c b = true) →
  ∀ s, chars_within s a = true → chars_within s b = true.
Proof.
  intros Hincl s. induction s as [|x s IH]; [done|]. simpl.
  intros [Hx Hs]%andb_true_iff. by rewrite (Hincl x Hx), IH.
Qed.

Lemma vg_lv_chars_are_tag_chars c :
  char_in c _ALLOWABLE_VG_LV_CH = true → char_in c _ALLOWABLE_TAG_CH = true.
Proof.
  destruct c as [[] [] [] [] [] [] [] []]; vm_compute; intros H;
    first [reflexivity | discriminate H].
Qed.

Lemma vg_lv_chars_are_path_chars c :
  char_in c _ALLOWABLE_VG_LV_CH = true → char_in c _ALLOWABLE_CH = true.
Proof.
  destruct c as [[] [] [] [] [] [] [] []]; vm_compute; intros H;
    first [reflexivity | discriminate H].
Qed.

(** What an accepted volume-group name is. *)
Lemma _allowable_vg_name_accepts vg_name :
  _allowable_vg_name vg_name = Returns tt →
  ∃ n, vg_name = Some n ∧
       (1 ≤ String.length n ≤ 127)%nat ∧
       chars_within n _ALLOWABLE_VG_LV_CH = true ∧ n ≠ "." ∧ n ≠ "..".
Proof.
  unfold _allowable_vg_name. destruct vg_name as [n|]; [|discriminate].
  cbv zeta.
  destruct (Nat.eqb_spec (String.length n) 0); [discriminate|].
  destruct (Nat.ltb_spec 127 (String.length n)); [discriminate|]. simpl.
  destruct (chars_within n _ALLOWABLE_VG_LV_CH) eqn:Hc; [|discriminate]. simpl.
  destruct (String.eqb_spec n "."); [discriminate|].
  destruct (String.eqb_spec n ".."); [discriminate|]. simpl.
  intros _. exists n. split; [done|]. split; [lia|]. by repeat split.
Qed.

(** What an accepted logical-volume name is. *)
Lemma _allowable_lv_name_accepts vg_name lv_name :
  _allowable_lv_name vg_name lv_name = Returns tt →
  ∃ vg a rest,
    vg_name = Some vg ∧ lv_name = Some (String a rest) ∧ a ≠ "-"%char ∧
    (String.length vg + String.length (String a rest) ≤ 125)%nat ∧
    chars_within (String a rest) _ALLOWABLE_VG_LV_CH = true ∧
    existsb (fun x => str_contains x (String a rest)) _LV_NAME_RESERVED
      = false ∧
    str_prefix "snapshot" (String a rest) = false ∧
    str_prefix "pvmove" (String a rest) = false.
Proof.
  unfold _allowable_lv_name. destruct lv_name as [n|]; [|discriminate].
  cbv zeta.
  destruct (Nat.eqb_spec (String.length n) 0); [discriminate|].
  destruct vg_name as [vg|]; [|discriminate]. unfold py_len.
  destruct (Nat.ltb_spec 125 (String.length vg + String.length n));
    [discriminate|].
  destruct (chars_within n _ALLOWABLE_VG_LV_CH) eqn:Hc; [|discriminate].
  destruct (existsb (fun x => str_contains x n) _LV_NAME_RESERVED) eqn:Hr;
    [discriminate|].
  destruct (str_prefix "snapshot" n) eqn:Hs; [discriminate|].
  destruct (str_prefix "pvmove" n) eqn:Hp; [discriminate|].
  destruct n as [|a rest]; [exfalso; auto|].
  unfold first_char.
  destruct (Ascii.eqb_spec a "-"); [discriminate|].
  intros _. exists vg, a, rest. split; [done|]. split; [done|].
  split; [done|]. split; [done|]. by repeat split.
Qed.

(** X15: for arguments that are strings or [None], the four validators
    raise nothing but [DBusException], with the interface as its first
    argument, and [TypeError]: no [ValueError] of the checks and no
    [IndexError] of [lv_name[0]] gets out.  [TypeError] gets out exactly
    when [validate_lv_name] is given no volume-group name together with
    a name that is not empty, and when [validate_tag] or
    [validate_device_path] is given [None]; [validate_vg_name] never lets
    it out. *)
Theorem validators_raise_DBusException_or_TypeError
    (interface : string) (vg_name name text : option string) :
  (validate_vg_name interface name = Returns tt ∨
   ∃ msg, validate_vg_name interface name
          = Raises (ExcDBusException [interface; msg])) ∧
  match vg_name, name with
  | None, Some (String _ _) =>
      validate_lv_name interface vg_name name = Raises ExcTypeError
  | _, _ =>
      validate_lv_name interface vg_name name = Returns tt ∨
      ∃ msg, validate_lv_name interface vg_name name
             = Raises (ExcDBusException [interface; msg])
  end ∧
  match text with
  | None =>
      validate_tag interface text = Raises ExcTypeError ∧
      validate_device_path interface text = Raises ExcTypeError
  | Some _ =>
      (validate_tag interface text = Returns tt ∨
       ∃ msg, validate_tag interface text
              = Raises (ExcDBusException [interface; msg])) ∧
      (validate_device_path interface text = Returns tt ∨
       ∃ msg, validate_device_path interface text
              = Raises (ExcDBusException [interface; msg]))
  end.
Proof.
  split; [|split].
  - unfold validate_vg_name, _allowable_vg_name.
    destruct name as [n|]; [|right; by eexists]. cbv zeta.
    destruct ((String.length n =? 0)%nat || (127 <? String.length n)%nat);
      [right; by eexists|].
    destruct (negb (chars_within n _ALLOWABLE_VG_LV_CH)); [right; by eexists|].
    destruct (String.eqb n "." || String.eqb n "..");
      [right; by eexists|by left].
  - assert (Hstr : ∀ vg n,
      validate_lv_name interface (Some vg) (Some n) = Returns tt ∨
      ∃ msg, validate_lv_name interface (Some vg) (Some n)
             = Raises (ExcDBusException [interface; msg])).
    { intros vg n. unfold validate_lv_name, _allowable_lv_name, py_len.
      cbv zeta.
      destruct (Nat.eqb_spec (String.length n) 0) as [Hz|Hz];
        [right; by eexists|].
      destruct (125 <? String.length vg + String.length n)%nat;
        [right; by eexists|].
      destruct (negb (chars_within n _ALLOWABLE_VG_LV_CH));
        [right; by eexists|].
      destruct (existsb (fun x => str_contains x n) _LV_NAME_RESERVED);
        [right; by eexists|].
      destruct (str_prefix "snapshot" n || str_prefix "pvmove" n);
        [right; by eexists|].
      destruct n as [|a rest]; [by destruct Hz|]. unfold first_char.
      destruct (Ascii.eqb a "-"); [right; by eexists|by left]. }
    destruct vg_name as [vg|], name as [[|a n]|];
      first [ apply Hstr | reflexivity | right; by eexists ].
  - destruct text as [t|]; [|by split].
    unfold validate_tag, _allowable_tag, validate_device_path,
      py_chars_within.
    split.
    + destruct (negb (chars_within t _ALLOWABLE_TAG_CH));
        [right; by eexists|by left].
    + destruct (negb (chars_within t _ALLOWABLE_CH));
        [right; by eexists|by left].
Qed.

Lemma reraise_Returns interface r :
  reraise_ValueError interface r = Returns tt → r = Returns tt.
Proof. destruct r as [[]|[]]; simpl; congruence. Qed.

(** X16: a name that [validate_lv_name] accepts is never classified as a
    hidden volume, and classifying it raises nothing as long as the
    attribute string is not empty: the generator is the one of the
    thin-pool, vdo-pool, cache-pool or plain category. *)
Theorem validated_lv_name_is_not_hidden
    (interface : string) (vg_name : option string) (lv_name : string)
    (meta : string * layout) :
  validate_lv_name interface vg_name (Some lv_name) = Returns tt →
  meta.1 ≠ "" →
  ∃ c : category,
    c ∈ [ThinPool; VdoPool; CachePool; LV] ∧
    lv_object_path_method lv_name meta = Ok (generator_of c).
Proof.
  intros Hv%reraise_Returns Hattr.
  apply _allowable_lv_name_accepts in Hv
    as (vg & a & rest & _ & [= ->] & _ & _ & Hchars & _).
  simpl in Hchars. apply andb_true_iff in Hchars as [Ha _].
  assert (Hne : Ascii.eqb a "[" = false).
  { destruct (Ascii.eqb_spec a "[") as [->|]; [|done].
    vm_compute in Ha. discriminate Ha. }
  unfold lv_object_path_method. simpl. rewrite Hne.
  destruct meta as [[|t attr] lay]; [done|]. simpl.
  destruct (Ascii.eqb t "t").
  { exists ThinPool. split; [in_five|done]. }
  destruct (Ascii.eqb t "d").
  { exists VdoPool. split; [in_five|done]. }
  destruct (Ascii.eqb t "C" && py_in "pool" lay).
  - exists CachePool. split; [in_five|done].
  - exists LV. split; [in_five|done].
Qed.

Lemma validated_lv_name_is_not_hidden_witness :
  ∃ c : category,
    c ∈ [ThinPool; VdoPool; CachePool; LV] ∧
    lv_object_path_method "home" ("-wi-ao----", LayoutList ["linear"])
      = Ok (generator_of c).
Proof.
  apply (validated_lv_name_is_not_hidden "com.redhat.lvmdbus1.Vg"
           (Some "vg0") "home");
    [reflexivity | discriminate].
Defined.

(** X17: every name accepted as a volume-group name or as a
    logical-volume name is accepted as a tag and as a device path: the
    characters allowed in names are among those allowed in tags and in
    paths. *)
Theorem validated_names_are_tags_and_paths
    (interface : string) (vg_name : option string) (name : string) :
  validate_vg_name interface (Some name) = Returns tt ∨
  validate_lv_name interface vg_name (Some name) = Returns tt →
  validate_tag interface (Some name) = Returns tt ∧
  validate_device_path interface (Some name) = Returns tt.
Proof.
  intros H.
  assert (Hchars : chars_within name _ALLOWABLE_VG_LV_CH = true).
  { destruct H as [H%reraise_Returns|H%reraise_Returns].
    - apply _allowable_vg_name_accepts in H as (n & [= <-] & _ & Hc & _). done.
    - apply _allowable_lv_name_accepts in H
        as (vg & a & rest & _ & [= ->] & _ & _ & Hc & _).
      done. }
  unfold validate_tag, _allowable_tag, validate_device_path, py_chars_within.
  rewrite (chars_within_incl _ _ vg_lv_chars_are_tag_chars name Hchars).
  rewrite (chars_within_incl _ _ vg_lv_chars_are_path_chars name Hchars).
  done.
Qed.

Lemma validated_names_are_tags_and_paths_witness :
  validate_tag "com.redhat.lvmdbus1.Vg" (Some "vg_data-01") = Returns tt ∧
  validate_device_path "com.redhat.lvmdbus1.Vg" (Some "vg_data-01")
    = Returns tt.
Proof.
  apply (validated_names_are_tags_and_paths "com.redhat.lvmdbus1.Vg" None
           "vg_data-01").
  left. reflexivity.
Defined.

(** * Properties of [get_error_msg] and [color] *)

Lemma str_join_nosep_cons x l : str_join "" (x :: l) = x +:+ str_join "" l.
Proof.
  destruct l; [simpl; by rewrite str_app_nil_r|].
  by rewrite str_join_cons, str_app_nil_l.
Qed.

(** A message followed by the others, each after the separator. *)
Lemma str_join_head sep x l :
  str_join sep (x :: l) = x +:+ str_join "" (map (String.append sep) l).
Proof.
  revert x. induction l as [|y l IH]; intros x.
  - simpl. by rewrite str_app_nil_r.
  - rewrite str_join_cons, IH. simpl map. rewrite str_join_nosep_cons.
    by rewrite <-!str_app_assoc.
Qed.

Lemma get_error_msg_loop_spec entries : ∀ acc,
  Forall (fun e => ∃ t, e !! "log_type" = Some t ∧
                        (t = "error" → is_Some (e !! "log_message"))) entries →
  get_error_msg_loop acc entries =
    Returns (match acc with
             | EmptyString => str_join ", " (drop_empty (error_messages entries))
             | _ => str_join ", " (acc :: error_messages entries)
             end).
Proof.
  induction entries as [|e entries IH]; intros acc Hall.
  - simpl. by destruct acc.
  - apply Forall_cons in Hall as [(t & Ht & Hm) Hall].
    simpl get_error_msg_loop. rewrite Ht.
    unfold error_messages. simpl omap. rewrite Ht. fold (error_messages entries).
    destruct (String.eqb_spec t "error") as [->|Hne].
    + destruct (Hm eq_refl) as [m Hmsg]. rewrite Hmsg.
      rewrite decide_True by done. simpl option_bind.
      destruct acc as [|a acc].
      * rewrite IH by done. by destruct m.
      * rewrite str_app_cons, IH by done. cbv iota.
        rewrite <-str_app_cons. f_equal.
        rewrite !str_join_head. simpl map. rewrite str_join_nosep_cons.
        by rewrite <-!str_app_assoc.
    + rewrite decide_False by congruence. simpl.
      rewrite IH by done. by destruct acc.
Qed.

(** X18: for a report whose log entries all have a type, and a message
    when the type is ["error"], [get_error_msg] returns the messages of the
    error entries joined by a comma and a blank, in order, after dropping
    the empty messages that come first: entries of other types add
    nothing. *)
Theorem get_error_msg_joins_errors (entries : list (gmap string string)) :
  Forall (fun e => ∃ t, e !! "log_type" = Some t ∧
                        (t = "error" → is_Some (e !! "log_message"))) entries →
  get_error_msg (Some entries)
    = Returns (Some (str_join ", " (drop_empty (error_messages entries)))).
Proof.
  intros Hall.
  unfold get_error_msg. by rewrite (get_error_msg_loop_spec entries "" Hall).
Qed.

Lemma get_error_msg_joins_errors_witness :
  get_error_msg
    (Some [ {[ "log_type" := "status"; "log_message" := "scanning" ]};
            {[ "log_type" := "error"; "log_message" := "" ]};
            {[ "log_type" := "error"; "log_message" := "Volume group vg0 not found" ]};
            {[ "log_type" := "error"; "log_message" := "Cannot process volume group vg0" ]} ])
  = Returns (Some "Volume group vg0 not found, Cannot process volume group vg0").
Proof.
  refine (eq_trans (get_error_msg_joins_errors _ _) _);
    [|vm_compute; reflexivity].
  repeat apply Forall_cons_2;
    [exists "status"|exists "error"|exists "error"|exists "error"|apply Forall_nil_2];
    (split; [vm_compute; reflexivity|intros _; apply is_Some_alt; vm_compute; exact I]).
Defined.

Lemma color_loop_cons acc style rest :
  color_loop acc (style :: rest)
    = match styles !! style with
      | Some code => color_loop (acc +:+ code) rest
      | None => inr style
      end.
Proof. reflexivity. Qed.

Lemma color_loop_known user_styles : ∀ acc codes,
  Forall2 (fun style code => styles !! style = Some code) user_styles codes →
  color_loop acc user_styles = inl (acc +:+ str_join "" codes).
Proof.
  induction user_styles as [|s l IH]; intros acc codes Hall.
  - apply Forall2_nil_inv_l in Hall as ->. cbn [color_loop str_join].
    by rewrite str_app_nil_r.
  - apply Forall2_cons_inv_l in Hall as (code & codes' & Hs & Hall & ->).
    rewrite color_loop_cons, Hs, (IH _ codes' Hall).
    by rewrite str_join_nosep_cons, <-str_app_assoc.
Qed.

Lemma color_loop_unknown known : ∀ acc bad rest,
  Forall (fun style => is_Some (styles !! style)) known →
  styles !! bad = None →
  color_loop acc (known ++ bad :: rest) = inr bad.
Proof.
  induction known as [|s l IH]; intros acc bad rest Hk Hbad.
  - rewrite app_nil_l, color_loop_cons. by rewrite Hbad.
  - apply Forall_cons in Hk as [[code Hs] Hk].
    rewrite <-app_comm_cons, color_loop_cons, Hs. by apply IH.
Qed.

(** X19: with styles that are all in the table, [color] returns the
    text unchanged between the codes of the styles, in order, with the
    reset code before and after; as soon as one style is not in the
    table it returns a complaint that names the first such style, and the
    text is not in the result any more. *)
Theorem color_wraps_or_complains (text : string) (user_styles : list string) :
  (∀ codes : list string,
     Forall2 (fun style code => styles !! style = Some code) user_styles codes →
     color text user_styles
       = ESC +:+ "[0m" +:+ (str_join "" codes +:+ text) +:+ ESC +:+ "[0m") ∧
  (∀ (known : list string) (bad : string) (rest : list string),
     user_styles = known ++ bad :: rest →
     Forall (fun style => is_Some (styles !! style)) known →
     styles !! bad = None →
     color text user_styles
       = "def color: parameter " +:+ bad +:+ " does not exist").
Proof.
  split.
  - intros codes Hall. unfold color.
    rewrite (color_loop_known _ "" codes Hall). by rewrite str_app_nil_l.
  - intros known bad rest -> Hk Hbad. unfold color.
    by rewrite (color_loop_unknown known "" bad rest Hk Hbad).
Qed.

Lemma color_wraps_or_complains_witness :
  color "lvmdbusd started" ["bold"; "blink"; "fg_red"]
    = "def color: parameter " +:+ "blink" +:+ " does not exist".
Proof.
  apply (proj2 (color_wraps_or_complains "lvmdbusd started"
                  ["bold"; "blink"; "fg_red"]) ["bold"] "blink" ["fg_red"] eq_refl).
  - apply Forall_cons_2; [|apply Forall_nil_2].
    apply is_Some_alt. vm_compute. exact I.
  - vm_compute. reflexivity.
Defined.

(** * Properties of the numbers of the report *)

Local Ltac digit_cases a H :=
  destruct a as [[] [] [] [] [] [] [] []];
  try (vm_compute in H; discriminate H).

Lemma underscore_match {A : Type} (prev : option ascii) (x y : A) :
  prev ≠ Some "_"%char →
  match prev with
  | Some "_"%char => x
  | _ => y
  end = y.
Proof.
  intros Hp. destruct prev as [p|]; [|done].
  destruct p as [[] [] [] [] [] [] [] []]; try reflexivity. by destruct Hp.
Qed.

Lemma digit_is_digit a : char_in a digits = true → is_digit a = true.
Proof. intros H. digit_cases a H; reflexivity. Qed.

Lemma digit_no_underscore a : char_in a digits = true → Ascii.eqb a "_" = false.
Proof. intros H. digit_cases a H; reflexivity. Qed.

Lemma digit_no_space a : char_in a digits = true → c_isspace a = false.
Proof. intros H. digit_cases a H; reflexivity. Qed.

Lemma digit_value_range a :
  char_in a digits = true → 0 <= digit_value a <= 9.
Proof. intros H. digit_cases a H; vm_compute; split; discriminate. Qed.

Lemma drop_underscores_digits s : ∀ prev,
  chars_within s digits = true → prev ≠ Some "_"%char →
  drop_underscores prev s = Some s.
Proof.
  induction s as [|a s IH]; intros prev Hd Hp.
  - cbn [drop_underscores]. by apply underscore_match.
  - cbn [chars_within] in Hd. apply andb_true_iff in Hd as [Ha Hs].
    cbn [drop_underscores]. rewrite (digit_no_underscore a Ha).
    rewrite underscore_match by done.
    rewrite IH; [done|done|].
    intros [= ->]. by vm_compute in Ha.
Qed.

Lemma c_rstrip_digits s : chars_within s digits = true → c_rstrip s = s.
Proof.
  induction s as [|a s IH]; [done|]. cbn [chars_within c_rstrip].
  intros [Ha Hs]%andb_true_iff. rewrite (IH Hs), (digit_no_space a Ha).
  by destruct s.
Qed.

Lemma read_digits_digits s :
  chars_within s digits = true →
  ∃ ds, read_digits s = (ds, "") ∧ length ds = String.length s ∧
        Forall (fun d => 0 <= d <= 9) ds.
Proof.
  induction s as [|a s IH]; [by exists []|]. cbn [chars_within read_digits].
  intros [Ha Hs]%andb_true_iff. destruct (IH Hs) as (ds & -> & Hlen & Hall).
  rewrite (digit_is_digit a Ha). exists (digit_value a :: ds).
  split; [done|]. split; [simpl; by rewrite Hlen|].
  constructor; [by apply digit_value_range|done].
Qed.

Lemma digits_value_acc ds : ∀ acc,
  Forall (fun d => 0 <= d <= 9) ds → 0 <= acc →
  0 <= foldl (fun acc d => 10 * acc + d) acc ds.
Proof.
  induction ds as [|d ds IH]; intros acc Hall Hacc; [done|].
  apply Forall_cons in Hall as [Hd Hall]. simpl. apply IH; [done|lia].
Qed.

Lemma decimal_nonneg s : chars_within s digits = true → 0 <= decimal s.
Proof.
  intros Hd. destruct (read_digits_digits s Hd) as (ds & Hr & _ & Hall).
  unfold decimal. rewrite Hr. by apply digits_value_acc.
Qed.

Lemma parse_number_digits s :
  s ≠ "" → chars_within s digits = true →
  parse_number s = Some (decimal s, 0).
Proof.
  intros Hne Hd. destruct (read_digits_digits s Hd) as (ds & Hr & Hlen & _).
  unfold parse_number, decimal. rewrite Hr. cbn [fst]. rewrite app_nil_r.
  destruct ds as [|d ds]; [|done].
  destruct s; [done|discriminate Hlen].
Qed.

Lemma div_half_even_1 p : div_half_even p 1 = p.
Proof.
  unfold div_half_even. rewrite Z.div_1_r, Z.mod_1_r. reflexivity.
Qed.

(** An integer below [2^53] in size is a float, and [int] gives it back. *)
Lemma py_int_binary64 v :
  Z.abs v < 2 ^ 53 → py_int (binary64 v 1) = Ok v.
Proof.
  intros Hv. unfold binary64.
  destruct (Z.eqb_spec v 0) as [->|Hnz]; [done|].
  cbv zeta. change (Z.log2 1) with 0. rewrite Z.sub_0_r.
  assert (Hsgn : ∀ x, Z.sgn v * (Z.abs v * x) = v * x).
  { intros x. destruct v; simpl Z.sgn; simpl Z.abs; lia. }
  set (a := Z.abs v) in *. set (e0 := Z.log2 a).
  assert (Ha : 0 < a) by (unfold a; lia).
  assert (He0 : 0 <= e0 <= 52).
  { split; [apply Z.log2_nonneg|].
    assert (e0 < 53); [|lia]. by apply Z.log2_lt_pow2. }
  assert (Hlo : 2 ^ e0 <= a) by (by apply Z.log2_spec).
  unfold scale2 at 1. rewrite (proj2 (Z.leb_le 0 e0)) by lia.
  rewrite Z.mul_1_l, (proj2 (Z.leb_le (2 ^ e0) a)) by done.
  rewrite Z.max_l by lia.
  unfold scale2. destruct (Z.leb_spec 0 (e0 - 52)) as [Hu|Hu].
  - assert (e0 - 52 = 0) as -> by lia.
    change (1 * 2 ^ 0) with 1. rewrite div_half_even_1.
    rewrite Z.pow_0_r, Z.mul_1_r.
    rewrite (proj2 (Z.leb_gt (2 ^ 1024) a)).
    2:{ assert (2 ^ 53 < 2 ^ 1024) by (apply Z.pow_lt_mono_r; lia). lia. }
    cbn [andb py_int]. rewrite Z.leb_refl, Z.pow_0_r.
    f_equal. specialize (Hsgn 1). lia.
  - rewrite div_half_even_1. cbn [andb py_int].
    rewrite (proj2 (Z.leb_gt 0 (e0 - 52))) by done.
    rewrite Hsgn. f_equal. apply Z.quot_mul.
    apply Z.pow_nonzero; lia.
Qed.

Lemma digits_no_keyword a s :
  char_in a digits = true →
  String.eqb (str_lower (String a s)) "inf"
    || String.eqb (str_lower (String a s)) "infinity" = false ∧
  String.eqb (str_lower (String a s)) "nan" = false ∧
  read_sign (String a s) = (false, String a s) ∧
  c_lstrip (String a s) = String a s.
Proof.
  intros H. digit_cases a H; repeat split; reflexivity.
Qed.

Lemma c_rstrip_cons a s :
  c_rstrip (String a s)
    = match c_rstrip s with
      | EmptyString => if c_isspace a then EmptyString else String a EmptyString
      | t => String a t
      end.
Proof. reflexivity. Qed.

(** [float] of a string of digits, also after a minus sign. *)
Lemma py_float_digits s :
  s ≠ "" → chars_within s digits = true →
  py_float s = Ok (binary64 (decimal s) 1) ∧
  py_float ("-" +:+ s) = Ok (binary64 (- decimal s) 1).
Proof.
  intros Hne Hd. destruct s as [|a s]; [done|].
  pose proof Hd as Hd'. cbn [chars_within] in Hd'.
  apply andb_true_iff in Hd' as [Ha _].
  destruct (digits_no_keyword a s Ha) as (Hinf & Hnan & Hsign & Hl).
  unfold py_float. split.
  - rewrite drop_underscores_digits by done.
    rewrite Hl, c_rstrip_digits, Hsign, Hinf, Hnan by done.
    rewrite parse_number_digits by done.
    unfold decimal_to_float. cbn [Z.leb Z.compare].
    by rewrite Z.pow_0_r, Z.mul_1_r.
  - change ("-" +:+ String a s) with (String "-" (String a s)).
    change (drop_underscores None (String "-" (String a s)))
      with (String "-" <$> drop_underscores (Some "-"%char) (String a s)).
    rewrite (drop_underscores_digits _ (Some "-"%char) Hd) by (by intros [=]).
    cbn [fmap option_fmap option_map].
    change (c_lstrip (String "-" (String a s))) with (String "-" (String a s)).
    rewrite c_rstrip_cons, (c_rstrip_digits (String a s)) by done.
    cbn [read_sign]. rewrite Hinf, Hnan.
    rewrite parse_number_digits by done.
    unfold decimal_to_float. cbn [Z.leb Z.compare].
    by rewrite Z.pow_0_r, Z.mul_1_r.
Qed.

(** X20: a field that is a string of decimal digits writing a number
    below [2^53] is read exactly by [n], and by [n32] when the number is
    below [2^32], where [n32] raises [OverflowError] otherwise; the same
    digits after a minus sign make [n] raise [OverflowError], unless the
    number is zero. *)
Theorem n_reads_decimal_integers (s : string) :
  s ≠ "" → chars_within s digits = true → decimal s < 2 ^ 53 →
  n (Some s) = Ok (decimal s) ∧
  n32 (Some s)
    = (if decimal s <? 2 ^ 32 then Ok (decimal s) else Raise OverflowError) ∧
  n (Some ("-" +:+ s))
    = (if decimal s =? 0 then Ok 0 else Raise OverflowError).
Proof.
  intros Hne Hd Hlt.
  pose proof (decimal_nonneg s Hd) as Hge.
  destruct (py_float_digits s Hne Hd) as [Hpos Hneg].
  remember (decimal s) as d eqn:Hdec.
  assert (Hint : py_int (binary64 d 1) = Ok d)
    by (apply py_int_binary64; lia).
  assert (Hintn : py_int (binary64 (- d) 1) = Ok (- d))
    by (apply py_int_binary64; lia).
  assert (H64 : 2 ^ 53 < 2 ^ 64) by (apply Z.pow_lt_mono_r; lia).
  unfold n, n32, rtype. destruct s as [|a s]; [done|].
  change ("-" +:+ String a s) with (String "-" (String a s)) in *.
  rewrite Hpos, Hneg. cbn [mbind result_bind]. rewrite Hint, Hintn.
  cbn [mbind result_bind]. unfold UInt64, UInt32.
  split; [|split].
  - by rewrite (proj2 (Z.leb_le 0 d)), (proj2 (Z.ltb_lt d (2 ^ 64))) by lia.
  - rewrite (proj2 (Z.leb_le 0 d)) by lia. by destruct (d <? 2 ^ 32).
  - destruct (Z.eqb_spec d 0) as [->|Hnz]; [done|].
    by rewrite (proj2 (Z.leb_gt 0 (- d))) by lia.
Qed.

Lemma n_reads_decimal_integers_witness :
  n (Some "1099511627776") = Ok (decimal "1099511627776") ∧
  n32 (Some "1099511627776")
    = (if decimal "1099511627776" <? 2 ^ 32 then Ok (decimal "1099511627776")
       else Raise OverflowError) ∧
  n (Some ("-" +:+ "1099511627776"))
    = (if decimal "1099511627776" =? 0 then Ok 0 else Raise OverflowError).
Proof.
  apply (n_reads_decimal_integers "1099511627776");
    [discriminate | reflexivity | vm_compute; reflexivity].
Defined.

Lemma digits_value_shift ds : ∀ acc,
  foldl (fun acc d => 10 * acc + d) acc ds
    = acc * 10 ^ Z.of_nat (length ds) + digits_value ds.
Proof.
  unfold digits_value.
  induction ds as [|d ds IH]; intros acc; [simpl; lia|].
  cbn [foldl length]. rewrite IH, (IH (10 * 0 + d)).
  rewrite Nat2Z.inj_succ, Z.pow_succ_r by lia. lia.
Qed.

Lemma decimal_cons c s :
  char_in c digits = true → chars_within s digits = true →
  decimal (String c s)
    = digit_value c * 10 ^ Z.of_nat (String.length s) + decimal s.
Proof.
  intros Hc Hs. destruct (read_digits_digits s Hs) as (ds & Hr & Hlen & _).
  unfold decimal. cbn [read_digits]. rewrite (digit_is_digit c Hc), Hr.
  cbn [fst]. unfold digits_value at 1. cbn [foldl].
  rewrite digits_value_shift, Hlen. lia.
Qed.

Lemma pretty_N_char_digit x :
  (x < 10)%N →
  char_in (pretty_N_char x) digits = true ∧
  digit_value (pretty_N_char x) = Z.of_N x.
Proof.
  intros Hx.
  assert (x = 0 ∨ x = 1 ∨ x = 2 ∨ x = 3 ∨ x = 4 ∨ x = 5
          ∨ x = 6 ∨ x = 7 ∨ x = 8 ∨ x = 9)%N as Hcases by lia.
  repeat destruct Hcases as [->|Hcases]; try subst x; by vm_compute.
Qed.

(** The digits that [str] writes before [s] for a natural number. *)
Lemma pretty_N_go_decimal x : ∀ s,
  chars_within s digits = true →
  chars_within (pretty_N_go x s) digits = true ∧
  (s ≠ "" ∨ (0 < x)%N → pretty_N_go x s ≠ "") ∧
  decimal (pretty_N_go x s)
    = Z.of_N x * 10 ^ Z.of_nat (String.length s) + decimal s.
Proof.
  induction (N.lt_wf_0 x) as [x _ IH]; intros s Hs.
  destruct (decide (x = 0)%N) as [->|Hx].
  - rewrite pretty_N_go_0. split; [done|]. split; [|lia].
    intros [?|?]; [done|lia].
  - rewrite pretty_N_go_step by lia.
    destruct (pretty_N_char_digit (x `mod` 10)%N) as [Hc Hv].
    { apply N.mod_lt. lia. }
    destruct (IH (x `div` 10)%N) with
      (s := String (pretty_N_char (x `mod` 10)) s) as (H1 & H2 & H3).
    { apply N.div_lt; lia. }
    { cbn [chars_within]. by rewrite Hc, Hs. }
    split; [done|]. split; [intros _; apply H2; by left|].
    rewrite H3, decimal_cons, Hv by done.
    cbn [String.length]. rewrite Nat2Z.inj_succ, Z.pow_succ_r by lia.
    pose proof (N.div_mod x 10 ltac:(lia)) as Hdm.
    assert (Z.of_N x = 10 * Z.of_N (x `div` 10) + Z.of_N (x `mod` 10)) as ->
      by lia.
    lia.
Qed.

Lemma pretty_N_decimal (x : N) :
  chars_within (pretty x) digits = true ∧ pretty x ≠ "" ∧
  decimal (pretty x) = Z.of_N x.
Proof.
  unfold pretty, pretty_N. destruct (decide (x = 0)%N) as [->|Hx]; [done|].
  destruct (pretty_N_go_decimal x "" eq_refl) as (H1 & H2 & H3).
  split; [done|]. split; [apply H2; right; lia|].
  rewrite H3. change (decimal "") with 0. simpl. lia.
Qed.

(** X21: [n] reads back what [str] writes: for every natural number
    below [2^53], [n(str(v)) == v]. *)
Theorem n_inverts_str (v : N) :
  (v < 2 ^ 53)%N → n (Some (pretty v)) = Ok (Z.of_N v).
Proof.
  intros Hv. destruct (pretty_N_decimal v) as (Hd & Hne & Hdec).
  destruct (py_float_digits (pretty v) Hne Hd) as [Hf _].
  assert (Hlt : Z.of_N v < 2 ^ 53).
  { change (2 ^ 53) with (Z.of_N (2 ^ 53)). lia. }
  assert (H64 : 2 ^ 53 < 2 ^ 64) by (apply Z.pow_lt_mono_r; lia).
  unfold n, rtype. destruct (pretty v) as [|a s] eqn:Hp; [done|].
  rewrite Hf, Hdec. cbn [mbind result_bind].
  rewrite py_int_binary64 by lia. cbn [mbind result_bind]. unfold UInt64.
  by rewrite (proj2 (Z.leb_le 0 _)), (proj2 (Z.ltb_lt _ (2 ^ 64))) by lia.
Qed.

Lemma n_inverts_str_witness :
  n (Some (pretty 4398046511104%N)) = Ok (Z.of_N 4398046511104).
Proof. apply (n_inverts_str 4398046511104). reflexivity. Defined.

(** * Properties of the log and of the debug messages *)

(** The last [m] elements. *)
Lemma drop_last_snoc {A : Type} (m : nat) (l : list A) (x : A) :
  drop (length (drop (length l - m) l ++ [x]) - m)
       (drop (length l - m) l ++ [x])
  = drop (length (l ++ [x]) - m) (l ++ [x]).
Proof.
  rewrite !length_app, length_drop. cbn [length].
  destruct (decide (length l ≤ m)%nat) as [Hle|Hgt].
  - replace (length l - m)%nat with 0%nat by lia. rewrite drop_0.
    by replace (length l - 0 + 1 - m)%nat with (length l + 1 - m)%nat by lia.
  - replace (length l - (length l - m) + 1 - m)%nat with 1%nat by lia.
    replace (length l + 1 - m)%nat with (length l - m + 1)%nat by lia.
    rewrite <-(drop_drop (l ++ [x])).
    by rewrite (drop_app_le l [x] (length l - m)) by lia.
Qed.

Section LoggingProperties.

Context (STDOUT_TTY : bool) (pid tid : Z) (now : nat -> string).


(** A formatted entry ends with the message, and formatting touches
    nothing but the clock. *)
Lemma _format_log_entry_spec msg w :
  (∃ prefix, (Logging._format_log_entry STDOUT_TTY pid tid now msg w).1 =
      prefix +:+ msg) ∧
  Logging.systemd (Logging._format_log_entry STDOUT_TTY pid tid now msg w).2 =
      Logging.systemd w ∧
  Logging.args (Logging._format_log_entry STDOUT_TTY pid tid now msg w).2 =
      Logging.args w ∧
  Logging.debug (Logging._format_log_entry STDOUT_TTY pid tid now msg w).2 =
      Logging.debug w ∧
  Logging.stdout (Logging._format_log_entry STDOUT_TTY pid tid now msg w).2 =
      Logging.stdout w.
Proof.
  unfold Logging._format_log_entry.
  destruct (negb (Logging.systemd w) && STDOUT_TTY);
    [|destruct (Logging.systemd w) eqn:Hs]; cbn [fst snd];
    (split; [|done]).
  - exists (now (Logging.ticks w) +:+ ": " +:+ pretty pid +:+ ":"
              +:+ pretty tid +:+ " - ").
    by rewrite <-!str_app_assoc.
  - exists ("[" +:+ pretty tid +:+ "]: "). by rewrite <-!str_app_assoc.
  - exists ("[" +:+ pretty pid +:+ ":" +:+ pretty tid +:+ "]: ").
    by rewrite <-!str_app_assoc.
Qed.

Lemma log_debug_quiet msg attributes w d :
  Logging.args w ≠ Some true → Logging.debug w = Some d →
  ∃ prefix,
    Logging.debug (Logging.log_debug STDOUT_TTY pid tid now msg attributes w)
      = Some (Logging.add d (prefix +:+ msg)) ∧
    Logging.args (Logging.log_debug STDOUT_TTY pid tid now msg attributes w) =
        Logging.args w ∧
    Logging.stdout (Logging.log_debug STDOUT_TTY pid tid now msg attributes w) =
        Logging.stdout w.
Proof.
  intros Hargs Hd.
  destruct (_format_log_entry_spec msg w) as ([prefix Hp] & _ & Ha & _ & Ho).
  exists prefix. unfold Logging.log_debug. rewrite Hd.
  destruct (Logging._format_log_entry STDOUT_TTY pid tid now msg w) as
      [entry w1] eqn:Hf.
  cbn [fst snd] in *. subst entry.
  destruct (Logging.args w) as [[]|]; done.
Qed.

(** X22: while the daemon does not run with the debug option and has a
    store of debug messages, [log_debug] prints nothing: each message is
    formatted into an entry that ends with it, and the store holds the
    newest [maxlen] of the entries it held and the new ones, oldest
    first. *)
Theorem quiet_log_debug_keeps_newest
    (msgs : list (string * list string)) (w : Logging.state)
    (d : Logging.DebugMessages) :
  Logging.args w ≠ Some true → Logging.debug w = Some d →
  (length (Logging.queue d) ≤ Logging.maxlen d)%nat →
  let w' := foldl
      (fun w m => Logging.log_debug STDOUT_TTY pid tid now m.1 m.2 w) w msgs in
  Logging.stdout w' = Logging.stdout w ∧
  ∃ entries : list string,
    Forall2 (fun m e => ∃ prefix, e = prefix +:+ m.1) msgs entries ∧
    Logging.debug w'
      = Some {| Logging.queue :=
                  drop (length (Logging.queue d ++ entries) - Logging.maxlen d)
                       (Logging.queue d ++ entries);
                Logging.maxlen := Logging.maxlen d |}.
Proof.
  intros Hargs Hd Hlen. cbv zeta.
  assert (Hgen : ∀ (q : list string),
    Logging.debug w
      = Some {| Logging.queue :=
                  drop (length q - Logging.maxlen d) q;
                Logging.maxlen := Logging.maxlen d |} →
    Logging.stdout (foldl
        (fun w m => Logging.log_debug STDOUT_TTY pid tid now m.1 m.2 w) w msgs)
      = Logging.stdout w ∧
    ∃ entries : list string,
      Forall2 (fun m e => ∃ prefix, e = prefix +:+ m.1) msgs entries ∧
      Logging.debug (foldl
          (fun w m => Logging.log_debug STDOUT_TTY pid tid now m.1 m.2 w) w msgs)
        = Some {| Logging.queue :=
                    drop (length (q ++ entries) - Logging.maxlen d)
                         (q ++ entries);
                  Logging.maxlen := Logging.maxlen d |}).
  { clear Hd Hlen. revert w Hargs.
    induction msgs as [|[msg attributes] msgs IH]; intros w Hargs q Hq.
    - split; [done|]. exists []. split; [constructor|]. by rewrite app_nil_r.
    - cbn [foldl fst snd].
      destruct (log_debug_quiet msg attributes w _ Hargs Hq)
        as (prefix & Hd1 & Ha1 & Ho1).
      unfold Logging.add in Hd1. cbn [Logging.queue Logging.maxlen] in Hd1.
      rewrite drop_last_snoc in Hd1.
      destruct (IH (Logging.log_debug STDOUT_TTY pid tid now msg attributes w)) with
        (q := q ++ [prefix +:+ msg]) as (Ho & entries & Hall & Hdbg).
      { by rewrite Ha1. }
      { exact Hd1. }
      split; [by rewrite Ho|].
      exists ((prefix +:+ msg) :: entries). split.
      + constructor; [by exists prefix|done].
      + rewrite Hdbg. by rewrite <-app_assoc. }
  apply Hgen. rewrite Hd. destruct d as
      [q m]. cbn [Logging.queue Logging.maxlen] in *.
  replace (length q - m)%nat with 0%nat by lia. by rewrite drop_0.
Qed.

Lemma _common_log_spec msg attributes w :
  (∃ line, Logging.stdout
      (Logging._common_log STDOUT_TTY pid tid now msg attributes w)
           = Logging.stdout w ++ [line] ∧
           (attributes = [] → ∃ prefix, line = prefix +:+ msg)) ∧
  Logging.args (Logging._common_log STDOUT_TTY pid tid now msg attributes w) =
      Logging.args w ∧
  Logging.debug (Logging._common_log STDOUT_TTY pid tid now msg attributes w) =
      Logging.debug w.
Proof.
  destruct (_format_log_entry_spec msg w) as ([prefix Hp] & _ & Ha & Hd & Ho).
  unfold Logging._common_log.
  destruct (Logging._format_log_entry STDOUT_TTY pid tid now msg w) as
      [entry w1] eqn:Hf.
  cbn [fst snd] in *. subst entry.
  destruct (STDOUT_TTY && negb (bool_decide (attributes = []))) eqn:Hc;
    cbn [Logging.print Logging.set_stdout Logging.stdout Logging.args
         Logging.debug]; rewrite Ho; (split; [|done]);
    eexists; (split; [done|]); intros ->.
  - rewrite andb_comm in Hc. done.
  - by exists prefix.
Qed.

Lemma print_all_stdout (lines : list string) : ∀ w,
  Logging.stdout (foldl (fun w m => Logging.print m w) w lines)
    = Logging.stdout w ++ lines ∧
  Logging.args (foldl (fun w m => Logging.print m w) w lines) = Logging.args w ∧
  Logging.debug (foldl (fun w m => Logging.print m w) w lines)
    = Logging.debug w.
Proof.
  induction lines as [|l lines IH]; intros w.
  - cbn [foldl]. by rewrite app_nil_r.
  - cbn [foldl]. destruct (IH (Logging.print l w)) as (-> & -> & ->).
    cbn [Logging.print Logging.set_stdout Logging.stdout Logging.args
         Logging.debug]. by rewrite <-app_assoc.
Qed.

(** X23: without the debug option, dumping a store that is not empty
    prints a first line that ends with the announcement and names the
    largest length, then the stored entries as they are, oldest first,
    then a last line, and empties the store: dumping again prints
    nothing. *)
Theorem dump_prints_entries_once (w : Logging.state)
    (d : Logging.DebugMessages) :
  Logging.args w = Some false → Logging.debug w = Some d →
  Logging.queue d ≠ [] →
  ∃ (w1 : Logging.state) (p1 p2 : string),
    Logging.dump STDOUT_TTY pid tid now w = Returns w1 ∧
    Logging.stdout w1
      = Logging.stdout w
        ++ [p1 +:+ "LVM dbus debug messages START last ("
               +:+ pretty (Logging.maxlen d) +:+ " max) messages"]
        ++ Logging.queue d
        ++ [p2 +:+ "LVM dbus debug messages END"] ∧
    Logging.debug w1
      = Some {| Logging.queue := []; Logging.maxlen := Logging.maxlen d |} ∧
    Logging.dump STDOUT_TTY pid tid now w1 = Returns w1.
Proof.
  intros Hargs Hd Hq. unfold Logging.dump at 1. rewrite Hd, Hargs.
  destruct (Logging.queue d) as [|m q] eqn:Hqueue; [done|]. clear Hq.
  unfold Logging.log_error.
  set (start := "LVM dbus debug messages START last ("
                  +:+ pretty (Logging.maxlen d) +:+ " max) messages").
  destruct (_common_log_spec start [] w)
    as ((l1 & Ho1 & Hl1) & Ha1 & Hd1).
  destruct (Hl1 eq_refl) as [p1 ->].
  set (w1 := Logging._common_log STDOUT_TTY pid tid now start [] w) in *.
  destruct (print_all_stdout (m :: q) w1) as (Ho2 & Ha2 & Hd2).
  set (w2 := foldl (fun w m => Logging.print m w) w1 (m :: q)) in *.
  destruct (_common_log_spec "LVM dbus debug messages END" [] w2)
    as ((l3 & Ho3 & Hl3) & Ha3 & Hd3).
  destruct (Hl3 eq_refl) as [p2 ->].
  set (w3 := Logging._common_log STDOUT_TTY pid tid now "LVM dbus debug messages END" [] w2) in *.
  eexists _, p1, p2. split; [reflexivity|].
  cbn [Logging.set_debug Logging.stdout Logging.debug].
  split; [|split; [done|]].
  - rewrite Ho3, Ho2, Ho1. by rewrite <-!app_assoc.
  - unfold Logging.dump.
    cbn [Logging.set_debug Logging.stdout Logging.debug Logging.args
         Logging.queue].
    by rewrite Ha3, Ha2, Ha1, Hargs.
Qed.

End LoggingProperties.

Lemma quiet_log_debug_keeps_newest_witness :
  let w := {| Logging.systemd := true; Logging.args := Some false;
              Logging.debug := Some (Logging.DebugMessages_init 2);
              Logging.stdout := []; Logging.ticks := 0 |} in
  let w' := foldl (fun w m => Logging.log_debug false 4242 4243
      (fun _ => "") m.1 m.2 w) w
              [("a", []); ("b", ["bold"]); ("c", [])] in
  Logging.stdout w' = Logging.stdout w ∧
  ∃ entries : list string,
    Forall2 (fun m e => ∃ prefix, e = prefix +:+ m.1)
      [("a", []); ("b", ["bold"]); ("c", [])] entries ∧
    Logging.debug w'
      = Some {| Logging.queue :=
                  drop (length ([] ++ entries) - 2) ([] ++ entries);
                Logging.maxlen := 2 |}.
Proof.
  apply (quiet_log_debug_keeps_newest false 4242 4243 (fun _ => "") [("a", []);
      ("b", ["bold"]); ("c", [])]
           {| Logging.systemd := true; Logging.args := Some false;
              Logging.debug := Some (Logging.DebugMessages_init 2);
              Logging.stdout := []; Logging.ticks := 0 |}
           (Logging.DebugMessages_init 2)).
  - discriminate.
  - reflexivity.
  - simpl. lia.
Defined.

Lemma dump_prints_entries_once_witness :
  let d := {| Logging.queue := ["[7]: a"; "[7]: b"]; Logging.maxlen := 5000 |} in
  let w := {| Logging.systemd := true; Logging.args := Some false;
              Logging.debug := Some d;
              Logging.stdout := []; Logging.ticks := 0 |} in
  ∃ (w1 : Logging.state) (p1 p2 : string),
    Logging.dump false 4242 4243 (fun _ => "") w = Returns w1 ∧
    Logging.stdout w1
      = Logging.stdout w
        ++ [p1 +:+ "LVM dbus debug messages START last ("
               +:+ pretty (Logging.maxlen d) +:+ " max) messages"]
        ++ Logging.queue d
        ++ [p2 +:+ "LVM dbus debug messages END"] ∧
    Logging.debug w1
      = Some {| Logging.queue := []; Logging.maxlen := Logging.maxlen d |} ∧
    Logging.dump false 4242 4243 (fun _ => "") w1 = Returns w1.
Proof.
  apply (dump_prints_entries_once false 4242 4243 (fun _ => "")
           {| Logging.systemd := true; Logging.args := Some false;
              Logging.debug :=
                Some {| Logging.queue := ["[7]: a"; "[7]: b"];
                        Logging.maxlen := 5000 |};
              Logging.stdout := []; Logging.ticks := 0 |}
           {| Logging.queue := ["[7]: a"; "[7]: b"]; Logging.maxlen := 5000 |});
    [reflexivity | reflexivity | discriminate].
Defined.


(** * Properties of the difference between two readings *)

Section PropertyDiffProperties.

Context {P V : Type} (py_ne : V -> V -> bool).

Implicit Types (o_prop n_prop : properties (P:=P) (V:=V)).
Implicit Types (rc : gmap string (gmap string V)).

(** One assignment [rc[intf_k][k] = new_value], after [rc[intf_k]] was
    made a dictionary if it was none. *)
Lemma changed_value_assign rc i k (v : V) i' k' :
  changed_value
    (alter (insert k v) i
       match rc !! i with
       | None => <[i := ∅]> rc
       | Some _ => rc
       end) i' k'
  = if decide (i' = i ∧ k' = k) then Some v else changed_value rc i' k'.
Proof.
  unfold changed_value.
  destruct (decide (i' = i)) as [->|Hi].
  - rewrite lookup_alter_eq. destruct (rc !! i) as [m|] eqn:Hm.
    + rewrite Hm. cbn [fmap option_fmap option_map mbind option_bind].
      destruct (decide (k' = k)) as [->|Hk].
      * rewrite lookup_insert_eq. by rewrite decide_True.
      * rewrite lookup_insert_ne by done. by rewrite decide_False by tauto.
    + rewrite lookup_insert_eq.
      cbn [fmap option_fmap option_map mbind option_bind].
      destruct (decide (k' = k)) as [->|Hk].
      * rewrite lookup_insert_eq. by rewrite decide_True.
      * rewrite lookup_insert_ne by done. by rewrite decide_False by tauto.
  - rewrite lookup_alter_ne by done. rewrite decide_False by tauto.
    destruct (rc !! i); [done|]. by rewrite lookup_insert_ne.
Qed.

Lemma assign_no_empty rc i k (v : V) :
  (∀ j m, rc !! j = Some m → m ≠ ∅) →
  ∀ j m,
    alter (insert k v) i
      match rc !! i with
      | None => <[i := ∅]> rc
      | Some _ => rc
      end !! j = Some m → m ≠ ∅.
Proof.
  intros Hwf j m. destruct (decide (j = i)) as [->|Hj].
  - rewrite lookup_alter_eq. destruct (rc !! i) as [m0|] eqn:Hm.
    + rewrite Hm. intros [= <-]. apply insert_non_empty.
    + rewrite lookup_insert_eq. intros [= <-]. apply insert_non_empty.
  - rewrite lookup_alter_ne by done. destruct (rc !! i) eqn:Hm.
    + apply Hwf.
    + rewrite lookup_insert_ne by done. apply Hwf.
Qed.

(** The loop over the values of one interface, when the new reading has
    every property it asks for. *)
Lemma get_object_property_diff_values_spec i n_prop values : ∀ rc,
  (∀ k v, (k, v) ∈ values → is_Some (property_value n_prop i k)) →
  (∀ j k v, changed_value rc j k = Some v →
            property_value n_prop j k = Some v) →
  (∀ j m, rc !! j = Some m → m ≠ ∅) →
  ∃ rc',
    get_object_property_diff_values py_ne i values n_prop rc = Returns rc' ∧
    (∀ j k v, changed_value rc' j k = Some v →
              property_value n_prop j k = Some v) ∧
    (∀ j m, rc' !! j = Some m → m ≠ ∅) ∧
    ∀ j k v',
      changed_value rc' j k = Some v' ↔
      changed_value rc j k = Some v' ∨
      (j = i ∧ ∃ v, (k, v) ∈ values ∧
                    property_value n_prop i k = Some v' ∧ py_ne v v' = true).
Proof.
  induction values as [|[k v] values IH]; intros rc Hall Hinv Hwf.
  - exists rc. split; [done|]. split; [done|]. split; [done|].
    intros j k v'. split; [by left|].
    intros [?|(_ & v & Hin & _)]; [done|]. by apply elem_of_nil in Hin.
  - cbn [get_object_property_diff_values].
    destruct (Hall k v) as [v' Hv']; [by left|].
    unfold property_value in Hv'.
    destruct (dict_get i n_prop) as [n_intf|] eqn:Hn; [|done].
    cbn [mbind option_bind] in Hv'. rewrite Hv'.
    assert (Hpv : property_value n_prop i k = Some v').
    { unfold property_value. by rewrite Hn. }
    assert (Hall' : ∀ k0 v0, (k0, v0) ∈ values →
                             is_Some (property_value n_prop i k0)).
    { intros k0 v0 Hin. apply (Hall k0 v0). by right. }
    destruct (py_ne v v') eqn:Hne.
    + destruct (IH (alter (insert k v') i
                      match rc !! i with
                      | None => <[i := ∅]> rc
                      | Some _ => rc
                      end) Hall') as (rc' & Hrun & Hinv' & Hwf' & Hiff).
      { intros j k0 v0. rewrite changed_value_assign.
        destruct (decide (j = i ∧ k0 = k)) as [[-> ->]|_]; [|apply Hinv].
        by intros [= <-]. }
      { by apply assign_no_empty. }
      exists rc'. split; [exact Hrun|]. split; [done|]. split; [done|].
      intros j k0 v0. rewrite Hiff, changed_value_assign. split.
      * intros [Hc|(-> & v1 & Hin & Hp & Hn1)].
        -- destruct (decide (j = i ∧ k0 = k)) as [[-> ->]|_]; [|by left].
           injection Hc as <-. right. split; [done|]. exists v.
           split; [by left|done].
        -- right. split; [done|]. exists v1. split; [by right|done].
      * intros [Hc|(-> & v1 & Hin & Hp & Hn1)].
        -- left. destruct (decide (j = i ∧ k0 = k)) as [[-> ->]|_]; [|done].
           apply Hinv in Hc. congruence.
        -- apply elem_of_cons in Hin as [[= -> ->]|Hin].
           ++ left. rewrite decide_True by done. congruence.
           ++ right. split; [done|]. by exists v1.
    + destruct (IH rc Hall' Hinv Hwf) as (rc' & Hrun & Hinv' & Hwf' & Hiff).
      exists rc'. split; [exact Hrun|]. split; [done|]. split; [done|].
      intros j k0 v0. rewrite Hiff. split.
      * intros [Hc|(-> & v1 & Hin & Hp & Hn1)]; [by left|].
        right. split; [done|]. exists v1. split; [by right|done].
      * intros [Hc|(-> & v1 & Hin & Hp & Hn1)]; [by left|].
        apply elem_of_cons in Hin as [[= -> ->]|Hin]; [congruence|].
        right. split; [done|]. by exists v1.
Qed.

Lemma get_object_property_diff_loop_spec n_prop o_prop : ∀ rc,
  (∀ i intf_v k v, (i, intf_v) ∈ o_prop → (k, v) ∈ intf_v.2 →
                   is_Some (property_value n_prop i k)) →
  (∀ j k v, changed_value rc j k = Some v →
            property_value n_prop j k = Some v) →
  (∀ j m, rc !! j = Some m → m ≠ ∅) →
  ∃ rc',
    get_object_property_diff_loop py_ne o_prop n_prop rc = Returns rc' ∧
    (∀ j m, rc' !! j = Some m → m ≠ ∅) ∧
    ∀ j k v',
      changed_value rc' j k = Some v' ↔
      changed_value rc j k = Some v' ∨
      ∃ intf_v v, (j, intf_v) ∈ o_prop ∧ (k, v) ∈ intf_v.2 ∧
                  property_value n_prop j k = Some v' ∧ py_ne v v' = true.
Proof.
  induction o_prop as [|[i intf_v] o_prop IH]; intros rc Hall Hinv Hwf.
  - exists rc. split; [done|]. split; [done|].
    intros j k v'. split; [by left|].
    intros [?|(? & ? & Hin & _)]; [done|]. by apply elem_of_nil in Hin.
  - cbn [get_object_property_diff_loop].
    destruct (get_object_property_diff_values_spec i n_prop intf_v.2 rc)
      as (rc1 & Hrun1 & Hinv1 & Hwf1 & Hiff1); [|done|done|].
    { intros k v Hin. apply (Hall i intf_v k v); [by left|done]. }
    rewrite Hrun1.
    destruct (IH rc1) as (rc' & Hrun & Hwf' & Hiff); [|done|done|].
    { intros i0 intf_v0 k v Hin. apply Hall. by right. }
    exists rc'. split; [exact Hrun|]. split; [done|].
    intros j k v'. rewrite Hiff, Hiff1. split.
    + intros [[Hc|(-> & v & Hin & Hp & Hn)]|(iv & v & Hin & Hin2 & Hp & Hn)].
      * by left.
      * right. exists intf_v, v. split; [by left|done].
      * right. exists iv, v. split; [by right|done].
    + intros [Hc|(iv & v & Hin & Hin2 & Hp & Hn)]; [by left; left|].
      apply elem_of_cons in Hin as [[= -> ->]|Hin].
      * left. right. split; [done|]. by exists v.
      * right. by exists iv, v.
Qed.

(** X24: when the new reading has every property of the old one,
    [get_object_property_diff] returns a dictionary in which a property
    of an interface has a value exactly when the old reading has the
    property with a value that differs from the new one, and the value is
    the new one; no interface is there without a property. *)
Theorem get_object_property_diff_reports_changes o_prop n_prop :
  (∀ i intf_v k v, (i, intf_v) ∈ o_prop → (k, v) ∈ intf_v.2 →
                   is_Some (property_value n_prop i k)) →
  ∃ rc,
    get_object_property_diff py_ne o_prop n_prop = Returns rc ∧
    (∀ i m, rc !! i = Some m → m ≠ ∅) ∧
    ∀ i k v',
      changed_value rc i k = Some v' ↔
      ∃ intf_v v, (i, intf_v) ∈ o_prop ∧ (k, v) ∈ intf_v.2 ∧
                  property_value n_prop i k = Some v' ∧ py_ne v v' = true.
Proof.
  intros Hall.
  destruct (get_object_property_diff_loop_spec n_prop o_prop ∅ Hall)
    as (rc & Hrun & Hwf & Hiff).
  { intros j k v. unfold changed_value. by rewrite lookup_empty. }
  { intros j m. by rewrite lookup_empty. }
  exists rc. split; [exact Hrun|]. split; [done|].
  intros i k v'. rewrite Hiff. split; [|by right].
  intros [Hc|?]; [|done]. unfold changed_value in Hc.
  by rewrite lookup_empty in Hc.
Qed.

Lemma dict_get_NoDup {A : Type} (items : list (string * A)) k a :
  NoDup items.*1 → (k, a) ∈ items → dict_get k items = Some a.
Proof.
  induction items as [|[k' a'] items IH]; intros Hnd Hin.
  - by apply elem_of_nil in Hin.
  - cbn [fmap list_fmap fst] in Hnd. apply NoDup_cons in Hnd as [Hk Hnd].
    cbn [dict_get]. apply elem_of_cons in Hin as [[= -> ->]|Hin].
    + by rewrite String.eqb_refl.
    + destruct (String.eqb_spec k' k) as [->|_]; [|by apply IH].
      destruct Hk. by apply (list_elem_of_fmap_2 fst items (k, a)).
Qed.

(** X25: a reading compared with itself has no difference, as long as
    no value differs from itself. *)
Theorem get_object_property_diff_same o_prop :
  NoDup o_prop.*1 →
  (∀ i intf_v, (i, intf_v) ∈ o_prop → NoDup intf_v.2.*1) →
  (∀ v, py_ne v v = false) →
  get_object_property_diff py_ne o_prop o_prop = Returns ∅.
Proof.
  intros Hnd Hnd2 Hirr.
  assert (Hval : ∀ i intf_v k v, (i, intf_v) ∈ o_prop → (k, v) ∈ intf_v.2 →
                                 property_value o_prop i k = Some v).
  { intros i intf_v k v Hin Hin2. unfold property_value.
    rewrite (dict_get_NoDup o_prop i intf_v Hnd Hin).
    cbn [mbind option_bind]. apply dict_get_NoDup; [|done]. by eapply Hnd2. }
  destruct (get_object_property_diff_loop_spec o_prop o_prop ∅)
    as (rc & Hrun & Hwf & Hiff).
  { intros i intf_v k v Hin Hin2. rewrite (Hval i intf_v k v Hin Hin2).
    by eexists. }
  { intros j k v. unfold changed_value. by rewrite lookup_empty. }
  { intros j m. by rewrite lookup_empty. }
  unfold get_object_property_diff. rewrite Hrun. f_equal.
  apply map_empty. intros i. destruct (rc !! i) as [m|] eqn:Hm; [|done].
  exfalso. destruct (map_choose m (Hwf i m Hm)) as (k & v' & Hk).
  assert (Hc : changed_value rc i k = Some v').
  { unfold changed_value. by rewrite Hm. }
  apply Hiff in Hc as [Hc|(intf_v & v & Hin & Hin2 & Hp & Hne)].
  - unfold changed_value in Hc. by rewrite lookup_empty in Hc.
  - rewrite (Hval i intf_v k v Hin Hin2) in Hp. injection Hp as <-.
    by rewrite Hirr in Hne.
Qed.

Lemma get_object_property_diff_values_missing i n_prop values : ∀ rc,
  (∃ k v, (k, v) ∈ values ∧ property_value n_prop i k = None) →
  ∃ key, get_object_property_diff_values py_ne i values n_prop rc
         = Raises (ExcKeyError key).
Proof.
  induction values as [|[k v] values IH]; intros rc (k0 & v0 & Hin & Hnone).
  - by apply elem_of_nil in Hin.
  - cbn [get_object_property_diff_values].
    destruct (dict_get i n_prop) as [n_intf|] eqn:Hn; [|by eexists].
    destruct (dict_get k n_intf.2) as [new_value|] eqn:Hk; [|by eexists].
    apply elem_of_cons in Hin as [[= -> ->]|Hin].
    { unfold property_value in Hnone. rewrite Hn in Hnone.
      cbn [mbind option_bind] in Hnone. congruence. }
    destruct (py_ne v new_value); apply IH; by exists k0, v0.
Qed.

Lemma get_object_property_diff_values_outcome i n_prop values : ∀ rc,
  (∃ rc', get_object_property_diff_values py_ne i values n_prop rc
          = Returns rc') ∨
  (∃ key, get_object_property_diff_values py_ne i values n_prop rc
          = Raises (ExcKeyError key)).
Proof.
  induction values as [|[k v] values IH]; intros rc; [left; by eexists|].
  cbn [get_object_property_diff_values].
  destruct (dict_get i n_prop) as [n_intf|]; [|right; by eexists].
  destruct (dict_get k n_intf.2) as [new_value|]; [|right; by eexists].
  destruct (py_ne v new_value); apply IH.
Qed.

(** X26: when the new reading lacks a property that the old reading
    has, [get_object_property_diff] returns no difference at all: it
    raises [KeyError]. *)
Theorem get_object_property_diff_missing o_prop n_prop :
  (∃ i intf_v k v, (i, intf_v) ∈ o_prop ∧ (k, v) ∈ intf_v.2 ∧
                   property_value n_prop i k = None) →
  ∃ key, get_object_property_diff py_ne o_prop n_prop
         = Raises (ExcKeyError key).
Proof.
  unfold get_object_property_diff. generalize (∅ : gmap string (gmap string V)).
  induction o_prop as [|[i intf_v] o_prop IH];
    intros rc (i0 & iv & k & v & Hin & Hin2 & Hnone).
  - by apply elem_of_nil in Hin.
  - cbn [get_object_property_diff_loop].
    apply elem_of_cons in Hin as [[= -> ->]|Hin].
    + destruct (get_object_property_diff_values_missing i n_prop intf_v.2 rc)
        as [key ->]; [by exists k, v|]. by exists key.
    + destruct (get_object_property_diff_values_outcome i n_prop intf_v.2 rc)
        as [[rc' ->]|[key ->]]; [|by exists key].
      apply IH. by exists i0, iv, k, v.
Qed.

End PropertyDiffProperties.

Lemma get_object_property_diff_reports_changes_witness :
  ∃ rc,
    get_object_property_diff (P:=unit) (fun a b : Z => negb (a =? b))
      [("Vg", ([], [("Size", 10); ("Free", 4)]))]
      [("Vg", ([], [("Free", 3); ("Size", 10); ("Tags", 0)]))]
      = Returns rc ∧
    (∀ i m, rc !! i = Some m → m ≠ ∅) ∧
    ∀ i k v',
      changed_value rc i k = Some v' ↔
      ∃ intf_v v,
        (i, intf_v) ∈ [("Vg", (@nil unit, [("Size", 10); ("Free", 4)]))] ∧
        (k, v) ∈ intf_v.2 ∧
        property_value
          [("Vg", (@nil unit, [("Free", 3); ("Size", 10); ("Tags", 0)]))] i k
          = Some v' ∧
        negb (v =? v') = true.
Proof.
  apply (get_object_property_diff_reports_changes (P:=unit)
           (fun a b : Z => negb (a =? b))).
  intros i intf_v k v Hin Hin2.
  apply list_elem_of_singleton in Hin as [= -> ->].
  cbn [snd] in Hin2.
  apply elem_of_cons in Hin2 as [[= -> ->]|Hin2]; [by eexists|].
  apply list_elem_of_singleton in Hin2 as [= -> ->]. by eexists.
Defined.

Lemma get_object_property_diff_same_witness :
  get_object_property_diff (P:=unit) (fun a b : Z => negb (a =? b))
    [("Vg", ([], [("Size", 10); ("Free", 4)])); ("Lv", ([], [("Size", 6)]))]
    [("Vg", ([], [("Size", 10); ("Free", 4)])); ("Lv", ([], [("Size", 6)]))]
  = Returns ∅.
Proof.
  apply (get_object_property_diff_same (P:=unit)
           (fun a b : Z => negb (a =? b))).
  - apply (bool_decide_unpack _). by vm_compute.
  - intros i intf_v Hin.
    apply elem_of_cons in Hin as [[= -> ->]|Hin];
      [|apply list_elem_of_singleton in Hin as [= -> ->]];
      apply (bool_decide_unpack _); by vm_compute.
  - intros v. by rewrite Z.eqb_refl.
Defined.

Lemma get_object_property_diff_missing_witness :
  ∃ key,
    get_object_property_diff (P:=unit) (fun a b : Z => negb (a =? b))
      [("Vg", ([], [("Size", 10); ("Free", 4)]))]
      [("Vg", ([], [("Size", 10)]))]
    = Raises (ExcKeyError key).
Proof.
  apply (get_object_property_diff_missing (P:=unit)
           (fun a b : Z => negb (a =? b))).
  exists "Vg", ([], [("Size", 10); ("Free", 4)]), "Free", 4.
  split; [by left|]. split; [by right; left|reflexivity].
Defined.

(** * Properties of the file of debug output *)

Lemma union_singleton_difference `{Countable A} (X : gset A) (x : A) :
  x ∉ X → (X ∪ {[x]}) ∖ {[x]} = X.
Proof.
  intros Hx. apply set_eq. intros y.
  rewrite elem_of_difference, elem_of_union, elem_of_singleton. split.
  - by intros [[?|?] ?].
  - intros Hy. split; [by left|]. by intros ->.
Qed.

Section DebugDataProperties.

(** The system before [setup], and the descriptor and the name that
    [mkstemp] picks: they are new. *)
Context (os : DebugData.os_state) (new_fd : Z) (new_fn : string).
Hypothesis new_fd_valid : new_fd ≠ -1.
Hypothesis new_fd_fresh : new_fd ∉ DebugData.open_fds os.
Hypothesis new_fn_fresh : new_fn ∉ DebugData.files os.

Lemma _remove_file_holds w :
  DebugData.holds os new_fd new_fn w →
  ∃ w', DebugData._remove_file w = (Returns tt, w') ∧
      DebugData.holds os new_fd new_fn w' ∧
        DebugData.fn w'.1 = None ∧ DebugData.fd w'.1 = DebugData.fd w.1 ∧
        DebugData.files w'.2 = DebugData.files os ∧
        DebugData.open_fds w'.2 = DebugData.open_fds w.2.
Proof.
  destruct w as
      [[d f] o]. unfold DebugData.holds. cbn [fst snd DebugData.fd DebugData.fn].
  intros [Hfd [[-> Hfiles]|[-> Hfiles]]].
  - unfold DebugData._remove_file, DebugData.os_unlink.
    cbn [DebugData.fd DebugData.fn]. rewrite decide_True.
    2:{ rewrite Hfiles. apply elem_of_union_r. by apply elem_of_singleton. }
    eexists. split; [reflexivity|].
    cbn [fst snd DebugData.fd DebugData.fn DebugData.files DebugData.open_fds].
    rewrite Hfiles, union_singleton_difference by done.
    repeat split; try done. by right.
  - exists ({| DebugData.fd := d; DebugData.fn := None |}, o).
    split; [reflexivity|]. cbn [fst snd DebugData.fd DebugData.fn].
    repeat split; try done. by right.
Qed.

Lemma _close_fd_holds w :
  DebugData.holds os new_fd new_fn w →
  ∃ w', DebugData._close_fd w = (Returns tt, w') ∧
      DebugData.holds os new_fd new_fn w' ∧
        DebugData.fd w'.1 = -1 ∧ DebugData.fn w'.1 = DebugData.fn w.1 ∧
        DebugData.open_fds w'.2 = DebugData.open_fds os ∧
        DebugData.files w'.2 = DebugData.files w.2.
Proof.
  destruct w as
      [[d f] o]. unfold DebugData.holds. cbn [fst snd DebugData.fd DebugData.fn].
  intros [[[-> Hfds]|[-> Hfds]] Hfn].
  - unfold DebugData._close_fd, DebugData.os_close.
    cbn [DebugData.fd DebugData.fn]. rewrite decide_True by done.
    rewrite decide_True.
    2:{ rewrite Hfds. apply elem_of_union_r. by apply elem_of_singleton. }
    eexists. split; [reflexivity|].
    cbn [fst snd DebugData.fd DebugData.fn DebugData.files DebugData.open_fds].
    rewrite Hfds, union_singleton_difference by done.
    repeat split; try done. by right.
  - exists ({| DebugData.fd := -1; DebugData.fn := f |}, o).
    split; [reflexivity|]. cbn [fst snd DebugData.fd DebugData.fn].
    repeat split; try done. by right.
Qed.

Lemma holds_tidy w :
  DebugData.holds os new_fd new_fn w → DebugData.fd w.1 = -1 → DebugData.fn w.1 =
      None →
  DebugData.open_fds w.2 = DebugData.open_fds os →
  DebugData.files w.2 = DebugData.files os → DebugData.tidy os w.
Proof.
  destruct w as [[d f] o]. cbn [fst snd DebugData.fd DebugData.fn].
  intros _ -> -> ? ?. by repeat split.
Qed.

Lemma log_lines_frame (lines : list string) : ∀ o,
  DebugData.open_fds
    (foldl (fun os line => DebugData.log_error ("lvm debug >>> " +:+ line) os)
       o lines) = DebugData.open_fds o ∧
  DebugData.files
    (foldl (fun os line => DebugData.log_error ("lvm debug >>> " +:+ line) os)
       o lines) = DebugData.files o.
Proof.
  induction lines as [|l lines IH]; intros o; [done|].
  cbn [foldl]. by destruct (IH (DebugData.log_error ("lvm debug >>> " +:+ l) o))
    as [-> ->].
Qed.

Lemma run_call_holds c w :
  DebugData.holds os new_fd new_fn w → DebugData.decodes c = true →
  ∃ w', DebugData.run_call c w = (Returns tt, w') ∧
      DebugData.holds os new_fd new_fn w' ∧
        (DebugData.tidies c = true → DebugData.tidy os w') ∧
            (DebugData.tidy os w → DebugData.tidy os w').
Proof.
  intros Hw Hdec. destruct c as [|debug_txt|]; cbn [DebugData.run_call].
  - destruct (_remove_file_holds w Hw) as (w' & Hrun & Hw' & Hfn & Hfd & Hf & Ho).
    exists w'. split; [exact Hrun|]. split; [done|]. split; [done|].
    intros (Hinit & Hfds & Hfiles). apply holds_tidy; try done.
    + by rewrite Hfd, Hinit.
    + by rewrite Ho.
  - destruct debug_txt as
      [debug_txt|]; [|done]. unfold DebugData.dump, DebugData.seq.
    destruct w as [[d f] o].
    pose proof Hw as Hw0. unfold DebugData.holds in Hw0.
    cbn [fst snd DebugData.fd DebugData.fn] in Hw0.
    set (o1 := foldl (fun os line =>
                  DebugData.log_error ("lvm debug >>> " +:+ line) os) o
                 (str_split (ascii_of_nat 10) debug_txt)).
    destruct (log_lines_frame (str_split (ascii_of_nat 10) debug_txt) o)
      as [Ho1 Hf1]. fold o1 in Ho1, Hf1.
    assert (Hw1 : DebugData.holds os new_fd new_fn
        ({| DebugData.fd := d; DebugData.fn := f |}, o1)).
    { unfold DebugData.holds in *. cbn [fst snd] in *. by rewrite Ho1, Hf1. }
    cbn [DebugData.fd].
    destruct (decide (d ≠ -1)) as [Hd|Hd].
    + rewrite decide_True.
      2:{ destruct Hw0 as [[[Hd0 Ho0]|[Hd0 _]] _]; [|by destruct Hd].
          rewrite Ho0, Hd0. apply elem_of_union_r. by apply elem_of_singleton. }
      destruct (_close_fd_holds _ Hw1) as (w2 & -> & Hw2 & Hfd2 & Hfn2 & Ho2 & Hf2).
      destruct (_remove_file_holds w2 Hw2)
        as (w' & Hrun & Hw' & Hfn & Hfd & Hf & Ho).
      exists w'. split; [exact Hrun|]. split; [done|].
      assert (DebugData.tidy os w'); [|done].
      apply holds_tidy; try done; congruence.
    + destruct (_remove_file_holds _ Hw)
        as (w' & Hrun & Hw' & Hfn & Hfd & Hf & Ho).
      exists w'. split; [exact Hrun|]. split; [done|].
      assert (DebugData.tidy os w'); [|done].
      apply holds_tidy; try done.
      * rewrite Hfd. cbn [fst DebugData.fd]. by apply dec_stable.
      * rewrite Ho. cbn [snd]. destruct Hw0 as [[[-> _]|[_ ?]] _]; [|done].
        by destruct Hd.
  - unfold DebugData.complete, DebugData.seq.
    destruct (_close_fd_holds w Hw) as (w2 & -> & Hw2 & Hfd2 & Hfn2 & Ho2 & Hf2).
    destruct (_remove_file_holds w2 Hw2)
      as (w' & Hrun & Hw' & Hfn & Hfd & Hf & Ho).
    exists w'. split; [exact Hrun|]. split; [done|].
    assert (DebugData.tidy os w'); [|done].
    apply holds_tidy; try done; congruence.
Qed.

Lemma run_holds calls : ∀ w,
  DebugData.holds os new_fd new_fn w → forallb DebugData.decodes calls = true →
  ∃ w', DebugData.run calls w = (Returns tt, w') ∧
      DebugData.holds os new_fd new_fn w' ∧
        (existsb DebugData.tidies calls = true → DebugData.tidy os w') ∧
        (DebugData.tidy os w → DebugData.tidy os w').
Proof.
  induction calls as [|c calls IH]; intros w Hw Hdec.
  - exists w. split; [done|]. split; [done|]. split; [|done].
    cbn [existsb]. discriminate.
  - cbn [forallb] in Hdec. apply andb_true_iff in Hdec as [Hc Hdec].
    cbn [DebugData.run]. unfold DebugData.seq.
    destruct (run_call_holds c w Hw Hc) as (w1 & -> & Hw1 & Ht1 & Hk1).
    destruct (IH w1 Hw1 Hdec) as (w' & Hrun & Hw' & Ht & Hk).
    exists w'. split; [exact Hrun|]. split; [done|]. split; [|by auto].
    cbn [existsb]. intros [Hc1|Hrest]%orb_true_iff; auto.
Qed.

(** X27: after [setup], the calls [lvm_complete], [dump] and [complete]
    never raise, in any order and number, as long as what [dump] reads
    decodes; and once [dump] or [complete] was among them, the descriptor
    is closed, the file is removed and the object is as new: the system
    has the descriptors and the files it had before [setup]. *)
Theorem debug_data_is_tidied_up (calls : list DebugData.call) :
  forallb DebugData.decodes calls = true →
  ∃ w',
    DebugData.seq (DebugData.setup new_fd new_fn) (DebugData.run calls)
      (DebugData.init, os) = (Returns tt, w') ∧
    (existsb DebugData.tidies calls = true →
     w'.1 = DebugData.init ∧
     DebugData.open_fds w'.2 = DebugData.open_fds os ∧
     DebugData.files w'.2 = DebugData.files os).
Proof.
  intros Hdec. unfold DebugData.seq, DebugData.setup.
  destruct (run_holds calls
    ({| DebugData.fd := new_fd; DebugData.fn := Some new_fn |},
     {| DebugData.open_fds := DebugData.open_fds os ∪ {[new_fd]};
        DebugData.files := DebugData.files os ∪ {[new_fn]};
        DebugData.log := DebugData.log os |}))
    as (w' & Hrun & _ & Ht & _); [|done|].
  { split; left; by split. }
  exists w'. split; [exact Hrun|]. exact Ht.
Qed.

(** X28: when what [dump] reads does not decode, [dump] raises before
    it closes or removes anything: the descriptor stays open and the file
    stays. *)
Theorem dump_undecodable_leaves_file :
  ∃ w',
    DebugData.seq (DebugData.setup new_fd new_fn) (DebugData.dump None)
      (DebugData.init, os) = (Raises ExcUnicodeDecodeError, w') ∧
    new_fd ∈ DebugData.open_fds w'.2 ∧ new_fn ∈ DebugData.files w'.2 ∧
    DebugData.fd w'.1 = new_fd ∧ DebugData.fn w'.1 = Some new_fn.
Proof.
  unfold DebugData.seq, DebugData.setup, DebugData.dump, DebugData.seq.
  cbn [DebugData.fd DebugData.open_fds].
  rewrite decide_True by done. rewrite decide_True.
  2:{ apply elem_of_union_r. by apply elem_of_singleton. }
  eexists. split; [reflexivity|]. cbn [fst snd DebugData.fd DebugData.fn
    DebugData.open_fds DebugData.files].
  repeat split; apply elem_of_union_r; by apply elem_of_singleton.
Qed.

End DebugDataProperties.

Lemma debug_data_is_tidied_up_witness :
  ∃ w',
    DebugData.seq (DebugData.setup 5 "/tmp/lvmdbusd.lvm.debug.k3x0.log")
      (DebugData.run [DebugData.Lvm_complete; DebugData.Dump (Some "a")])
      (DebugData.init,
       {| DebugData.open_fds := {[0; 1; 2]}; DebugData.files := ∅;
          DebugData.log := [] |}) = (Returns tt, w') ∧
    (existsb DebugData.tidies
       [DebugData.Lvm_complete; DebugData.Dump (Some "a")] = true →
     w'.1 = DebugData.init ∧
     DebugData.open_fds w'.2 = {[0; 1; 2]} ∧
     DebugData.files w'.2 = ∅).
Proof.
  refine (debug_data_is_tidied_up
            {| DebugData.open_fds := {[0; 1; 2]}; DebugData.files := ∅;
               DebugData.log := [] |} 5 "/tmp/lvmdbusd.lvm.debug.k3x0.log"
            _ _ _ [DebugData.Lvm_complete; DebugData.Dump (Some "a")] _).
  - discriminate.
  - apply (bool_decide_unpack _). by vm_compute.
  - apply not_elem_of_empty.
  - reflexivity.
Defined.

Lemma dump_undecodable_leaves_file_witness :
  ∃ w',
    DebugData.seq (DebugData.setup 5 "/tmp/lvmdbusd.lvm.debug.k3x0.log")
      (DebugData.dump None)
      (DebugData.init,
       {| DebugData.open_fds := {[0; 1; 2]}; DebugData.files := ∅;
          DebugData.log := [] |}) = (Raises ExcUnicodeDecodeError, w') ∧
    5 ∈ DebugData.open_fds w'.2 ∧
    "/tmp/lvmdbusd.lvm.debug.k3x0.log" ∈ DebugData.files w'.2 ∧
    DebugData.fd w'.1 = 5 ∧
    DebugData.fn w'.1 = Some "/tmp/lvmdbusd.lvm.debug.k3x0.log".
Proof.
  refine (dump_undecodable_leaves_file
            {| DebugData.open_fds := {[0; 1; 2]}; DebugData.files := ∅;
               DebugData.log := [] |} 5 "/tmp/lvmdbusd.lvm.debug.k3x0.log" _).
  discriminate.
Defined.
